(** * Socio.io content script: the moderation pipeline of
      [extension/content-new.js], embedded and checked against its
      specification.

    The content script is single-threaded JavaScript.  Its globals (flags,
    queue, processed sets) become one record [pstate]; the page becomes a
    [document] (a forest of nodes); asynchronous continuations (promise
    callbacks, timers) become explicit events of a step function. *)

From Stdlib Require Import Ascii String Arith Lia Bool.
From stdpp Require Import base option list strings gmap.

Open Scope string_scope.
Open Scope list_scope.

(** ** The processing queue and the batch dispatcher *)

(** [item.type]: the queueing paths only ever push ['text'] or ['image']. *)
Inductive itype := Text | Image.

#[global] Instance itype_eq_dec : EqDecision itype.
Proof. solve_decision. Defined.

(** A queue item [{ type, element, priority? }]; [element] is the handle of
    a live DOM element. *)
Record item := Item {
  type : itype;
  element : nat;
  priority : option string
}.

#[global] Instance item_eq_dec : EqDecision item.
Proof. solve_decision. Defined.

(** The three states of a JavaScript promise. *)
Inductive promise := Pending | Fulfilled | Rejected.

#[global] Instance promise_eq_dec : EqDecision promise.
Proof. solve_decision. Defined.

Definition settled (p : promise) : bool :=
  match p with Pending => false | _ => true end.

(** The globals of the content script, with what the runtime keeps for it:
    [fanins] are the [Promise.allSettled(promises)] whose [then] callback
    has not run yet (one list of promises per call, each promise with the
    item it processes), [timers] are the delays of the pending
    [setTimeout(processNextBatch, delay)] callbacks. *)
Record pstate := PState {
  isEnabled : bool;
  backendRunning : bool;
  currentlyProcessing : bool;
  processingQueue : list item;
  textElementsProcessed : gset nat;
  imageElementsProcessed : gset nat;
  fanins : list (list (item * promise));
  timers : list nat
}.

#[global] Instance pstate_eq_dec : EqDecision pstate.
Proof. solve_decision. Defined.

Definition set_isEnabled (v : bool) (s : pstate) : pstate :=
  PState v (backendRunning s) (currentlyProcessing s) (processingQueue s)
         (textElementsProcessed s) (imageElementsProcessed s) (fanins s) (timers s).

Definition set_backendRunning (v : bool) (s : pstate) : pstate :=
  PState (isEnabled s) v (currentlyProcessing s) (processingQueue s)
         (textElementsProcessed s) (imageElementsProcessed s) (fanins s) (timers s).

Definition set_currentlyProcessing (v : bool) (s : pstate) : pstate :=
  PState (isEnabled s) (backendRunning s) v (processingQueue s)
         (textElementsProcessed s) (imageElementsProcessed s) (fanins s) (timers s).

Definition set_processingQueue (q : list item) (s : pstate) : pstate :=
  PState (isEnabled s) (backendRunning s) (currentlyProcessing s) q
         (textElementsProcessed s) (imageElementsProcessed s) (fanins s) (timers s).

Definition set_textElementsProcessed (x : gset nat) (s : pstate) : pstate :=
  PState (isEnabled s) (backendRunning s) (currentlyProcessing s) (processingQueue s)
         x (imageElementsProcessed s) (fanins s) (timers s).

Definition set_imageElementsProcessed (x : gset nat) (s : pstate) : pstate :=
  PState (isEnabled s) (backendRunning s) (currentlyProcessing s) (processingQueue s)
         (textElementsProcessed s) x (fanins s) (timers s).

Definition set_fanins (f : list (list (item * promise))) (s : pstate) : pstate :=
  PState (isEnabled s) (backendRunning s) (currentlyProcessing s) (processingQueue s)
         (textElementsProcessed s) (imageElementsProcessed s) f (timers s).

Definition set_timers (t : list nat) (s : pstate) : pstate :=
  PState (isEnabled s) (backendRunning s) (currentlyProcessing s) (processingQueue s)
         (textElementsProcessed s) (imageElementsProcessed s) (fanins s) t.

(** Modelled from the spec: the declaration of the constant [BATCH_SIZE]
    is not in the source file; the spec gives the batch size as 10, which is
    also [config.processing.batchSize]. *)
Definition BATCH_SIZE : nat := 10.

(** Modelled from the spec: the declaration of [BATCH_DELAY] is not in the
    source file; the spec asks for a fixed inter-batch delay, and
    [config.processing.queueInterval] is 200 (milliseconds). *)
Definition BATCH_DELAY : nat := 200.

(** The state when the script is loaded (the fields of the [state] object
    of the source). *)
Definition initial_state : pstate :=
  PState true true false [] ∅ ∅ [] [].

(** [processingQueue.splice(0, n)]: the removed head and what stays. *)
Definition splice0 {A} (n : nat) (q : list A) : list A * list A :=
  (take n q, drop n q).

(** [processNextBatch], up to the point where it returns: the guard, the
    in-flight flag, the splice, one promise per removed item
    ([batch.map(processElement)]) and the registration of the
    [Promise.allSettled(...).then] callback.  The dispatcher sees each call
    of [processElement] as a promise; what the call does to the page is
    that of [processTextElement] below. *)
Definition processNextBatch (s : pstate) : pstate :=
  if currentlyProcessing s || Nat.eqb (length (processingQueue s)) 0 || negb (isEnabled s)
  then s
  else
    let s1 := set_currentlyProcessing true s in
    let '(batch, rest) := splice0 BATCH_SIZE (processingQueue s1) in
    let promises := map (fun it => (it, Pending)) batch in
    set_fanins (fanins s1 ++ [promises]) (set_processingQueue rest s1).

(** The callback given to [Promise.allSettled(promises).then]: it clears the
    flag and, when items are left, arms the timer of the next batch. *)
Definition batchComplete (s : pstate) : pstate :=
  let s1 := set_currentlyProcessing false s in
  if Nat.ltb 0 (length (processingQueue s1))
  then set_timers (timers s1 ++ [BATCH_DELAY]) s1
  else s1.

(** What can happen to the dispatcher between two turns of the event loop. *)
Inductive event :=
| EvInvoke                              (* a scan or queueing path calls [processNextBatch()] *)
| EvTimer (k : nat)                     (* the k-th pending timer fires *)
| EvSettle (b i : nat) (ok : bool)      (* promise [i] of fan-in [b] fulfils or rejects *)
| EvAllSettled (b : nat)                (* the [then] callback of fan-in [b] runs *)
| EvPush (it : item)                    (* [processingQueue.push(it)] *)
| EvSetEnabled (v : bool).              (* the [toggleProtection] message *)

(** What an observer of the dispatcher sees. *)
Inductive obs :=
| ObsStart (batch : list item)
| ObsDone (batch : list item).

Definition settle_in (i : nat) (ok : bool) (B : list (item * promise))
  : option (list (item * promise)) :=
  match B !! i with
  | Some (it, Pending) => Some (<[i := (it, if ok then Fulfilled else Rejected)]> B)
  | _ => None
  end.

(** Calling [processNextBatch], with what an observer sees of it. *)
Definition invoke (s : pstate) : pstate * list obs :=
  let s' := processNextBatch s in
  (s', match last (fanins s') with
       | Some B => if bool_decide (length (fanins s') = S (length (fanins s)))
                   then [ObsStart (B.*1)] else []
       | None => []
       end).

(** One event; [None] when the event cannot happen in this state (no such
    timer, a promise that is not pending, a fan-in with a pending promise). *)
Definition step (s : pstate) (e : event) : option (pstate * list obs) :=
  match e with
  | EvInvoke => Some (invoke s)
  | EvTimer k =>
      match timers s !! k with
      | Some _ => Some (invoke (set_timers (delete k (timers s)) s))
      | None => None
      end
  | EvSettle b i ok =>
      B ← fanins s !! b;
      B' ← settle_in i ok B;
      Some (set_fanins (<[b := B']> (fanins s)) s, [])
  | EvAllSettled b =>
      B ← fanins s !! b;
      if forallb (fun p => settled p.2) B
      then Some (batchComplete (set_fanins (delete b (fanins s)) s), [ObsDone (B.*1)])
      else None
  | EvPush it => Some (set_processingQueue (processingQueue s ++ [it]) s, [])
  | EvSetEnabled v => Some (set_isEnabled v s, [])
  end.

Fixpoint run (s : pstate) (tr : list event) : option (pstate * list obs) :=
  match tr with
  | [] => Some (s, [])
  | e :: tr' =>
      '(s1, o1) ← step s e;
      '(s2, o2) ← run s1 tr';
      Some (s2, o1 ++ o2)
  end.

(** Starts and completions alternate, beginning with a start when
    [idle] holds. *)
Fixpoint alternates (idle : bool) (l : list obs) : bool :=
  match l with
  | [] => true
  | ObsStart _ :: l' => idle && alternates false l'
  | ObsDone _ :: l' => negb idle && alternates true l'
  end.

(** The number of pending fan-ins is 1 while the flag is set, else 0. *)
Definition single_flight (s : pstate) : Prop :=
  length (fanins s) = if currentlyProcessing s then 1 else 0.

(** ** JavaScript strings

    A JavaScript string is a sequence of UTF-16 code units.  The embedding
    covers the strings whose code units are below 256 (ASCII and Latin-1),
    as Rocq strings of 8-bit characters; on these, [toLowerCase] and the
    canonicalisation of the regular expression flag [i] work one character
    at a time and stay in the range. *)
Module Js.

Definition code (c : ascii) : nat := nat_of_ascii c.

Definition between (lo hi : nat) (c : ascii) : bool :=
  Nat.leb lo (code c) && Nat.leb (code c) hi.

(** [String.prototype.toLowerCase] on one code unit: [A]-[Z], and the
    Latin-1 capitals 192..222 without the multiplication sign 215. *)
Definition lower (c : ascii) : ascii :=
  if between 65 90 c
     || (between 192 222 c && negb (Nat.eqb (code c) 215))
  then ascii_of_nat (code c + 32) else c.

Fixpoint toLowerCase (s : string) : string :=
  match s with
  | EmptyString => EmptyString
  | String c s' => String (lower c) (toLowerCase s')
  end.

(** [Canonicalize] of a regular expression with flag [i] and without flag
    [u]: the upper case of the code unit, when that is one code unit and
    does not map a non-ASCII code unit to an ASCII one.  Below 256 that is
    [a]-[z] and 224..254 without the division sign 247 (255 and 181 have
    their capitals above 255 and never meet another character of the range;
    223 has a two-letter capital and stays). *)
Definition canonicalize (c : ascii) : ascii :=
  if between 97 122 c
     || (between 224 254 c && negb (Nat.eqb (code c) 247))
  then ascii_of_nat (code c - 32) else c.

(** The class [\w] of a regular expression without flag [u]:
    [A-Za-z0-9_]. *)
Definition isWordChar (c : ascii) : bool :=
  between 97 122 c || between 65 90 c || between 48 57 c || Nat.eqb (code c) 95.

(** White space of [trim] below 256: TAB, LF, VT, FF, CR, space and the
    no-break space 160. *)
Definition isWhiteSpace (c : ascii) : bool :=
  between 9 13 c || Nat.eqb (code c) 32 || Nat.eqb (code c) 160.

Fixpoint trimStart (s : string) : string :=
  match s with
  | EmptyString => EmptyString
  | String c s' => if isWhiteSpace c then trimStart s' else s
  end.

Fixpoint trimEnd (s : string) : string :=
  match s with
  | EmptyString => EmptyString
  | String c s' =>
      match trimEnd s' with
      | EmptyString => if isWhiteSpace c then EmptyString else String c EmptyString
      | t => String c t
      end
  end.

Definition trim (s : string) : string := trimEnd (trimStart s).

(** [s.startsWith(p)] and [s.includes(p)]. *)
Fixpoint startsWith (p s : string) : bool :=
  match p, s with
  | EmptyString, _ => true
  | String a p', String b s' => Ascii.eqb a b && startsWith p' s'
  | String _ _, EmptyString => false
  end.

Fixpoint includes (p s : string) : bool :=
  startsWith p s ||
  match s with
  | EmptyString => false
  | String _ s' => includes p s'
  end.

(** [s.substring(a, b)] for [a <= b], and [s.substring(a)]. *)
Definition substring (a b : nat) (s : string) : string :=
  String.substring a (b - a) s.

Definition substringFrom (a : nat) (s : string) : string :=
  String.substring a (String.length s - a) s.

(** [s.split(sep)[0]] for a one-character separator: what comes before its
    first occurrence. *)
Fixpoint beforeFirst (sep : ascii) (s : string) : string :=
  match s with
  | EmptyString => EmptyString
  | String c s' => if Ascii.eqb c sep then EmptyString else String c (beforeFirst sep s')
  end.

(** *** [new RegExp("\\b" + word + "\\b", "i").test(s)]

    [word] is a literal (the listed words hold letters and spaces only, no
    character that is special in a regular expression).  [prev] is the
    character before the current position, if any. *)

(** The assertion [\b] between [prev] and [next]. *)
Definition wordBoundary (prev next : option ascii) : bool :=
  xorb (from_option isWordChar false prev) (from_option isWordChar false next).

Definition head (s : string) : option ascii :=
  match s with EmptyString => None | String c _ => Some c end.

(** Match the literal at the start of [s], ignoring case: the last
    character consumed and what is left of [s]. *)
Fixpoint matchLiteral (prev : option ascii) (word s : string)
  : option (option ascii * string) :=
  match word with
  | EmptyString => Some (prev, s)
  | String a word' =>
      match s with
      | String b s' =>
          if Ascii.eqb (canonicalize a) (canonicalize b)
          then matchLiteral (Some b) word' s' else None
      | EmptyString => None
      end
  end.

(** Does [\bword\b] match at the current position? *)
Definition matchHere (prev : option ascii) (word s : string) : bool :=
  wordBoundary prev (head s) &&
  match matchLiteral prev word s with
  | Some (last, rest) => wordBoundary last (head rest)
  | None => false
  end.

(** [test]: the first position, from the left, where the pattern matches. *)
Fixpoint searchFrom (prev : option ascii) (word s : string) : bool :=
  matchHere prev word s ||
  match s with
  | EmptyString => false
  | String c s' => searchFrom (Some c) word s'
  end.

Definition testWholeWord (word s : string) : bool := searchFrom None word s.

End Js.

(** ** The page

    Every element has an identity [id] (the JavaScript object reference that
    queue items and closures hold).  Elements that are not in the document
    are not represented: what the script does to a detached element is not
    visible in the page. *)
Module Dom.

(** What the script reads and writes of an element: [tagName] is in upper
    case as in the DOM; [style] holds the declarations of the inline style;
    [naturalWidth], [naturalHeight], [width] and [height] are the image
    properties of the same names (0 for other elements). *)
Record edata := EData {
  tagName : string;
  classList : list string;
  attributes : gmap string string;
  style : list (string * string);
  naturalWidth : nat;
  naturalHeight : nat;
  width : nat;
  height : nat
}.

#[warnings="-register-all"]
Inductive node :=
| TextNode (data : string)
| Element (id : nat) (e : edata) (childNodes : list node).

(** The children of [document.body], and the identity the next created
    element gets. *)
Record document := Document {
  body : list node;
  nextId : nat
}.

Definition set_classList (c : list string) (e : edata) : edata :=
  EData (tagName e) c (attributes e) (style e)
        (naturalWidth e) (naturalHeight e) (width e) (height e).

Definition set_attributes (a : gmap string string) (e : edata) : edata :=
  EData (tagName e) (classList e) a (style e)
        (naturalWidth e) (naturalHeight e) (width e) (height e).

Definition set_style (st : list (string * string)) (e : edata) : edata :=
  EData (tagName e) (classList e) (attributes e) st
        (naturalWidth e) (naturalHeight e) (width e) (height e).

(** [document.createElement(tag)] with [className = cls]. *)
Definition created (tag : string) (cls : list string) : edata :=
  EData tag cls ∅ [] 0 0 0 0.

(** *** Classes, attributes, inline style *)

Definition contains (c : string) (e : edata) : bool :=
  bool_decide (c ∈ classList e).

Definition classAdd (c : string) (e : edata) : edata :=
  if contains c e then e else set_classList (classList e ++ [c]) e.

Definition classRemove (c : string) (e : edata) : edata :=
  set_classList (filter (fun x => x ≠ c) (classList e)) e.

Definition getAttribute (k : string) (e : edata) : option string :=
  attributes e !! k.

Definition setAttribute (k v : string) (e : edata) : edata :=
  set_attributes (<[k := v]> (attributes e)) e.

Definition removeAttribute (k : string) (e : edata) : edata :=
  set_attributes (delete k (attributes e)) e.

(** [el.dataset.x] used as a condition: the attribute is there and is not
    the empty string. *)
Definition truthy (o : option string) : option string :=
  match o with
  | Some s => if bool_decide (s = "") then None else Some s
  | None => None
  end.

(** [el.style.prop = v]: the declaration is replaced where it stands, or
    added at the end. *)
Fixpoint setProperty (k v : string) (st : list (string * string)) : list (string * string) :=
  match st with
  | [] => [(k, v)]
  | (k', v') :: st' =>
      if bool_decide (k' = k) then (k, v) :: st' else (k', v') :: setProperty k v st'
  end.

(** [el.style.prop = ''] removes the declaration. *)
Definition removeProperty (k : string) (st : list (string * string)) : list (string * string) :=
  filter (fun d => d.1 ≠ k) st.

(** [el.getAttribute('style')]: the declarations as text. *)
Definition cssText (st : list (string * string)) : string :=
  String.concat " " (map (fun d => d.1 +:+ ": " +:+ d.2 +:+ ";") st).

Definition styleAttribute (e : edata) : option string :=
  match style e with
  | [] => None
  | st => Some (cssText st)
  end.

(** [el.style = text], for texts whose values hold no [;] (declarations are
    cut at [;], property and value at the first [:]). *)
Fixpoint splitAt (sep : ascii) (s : string) : list string :=
  match s with
  | EmptyString => [EmptyString]
  | String c s' =>
      if Ascii.eqb c sep then EmptyString :: splitAt sep s'
      else match splitAt sep s' with
           | [] => [String c EmptyString]
           | x :: l => String c x :: l
           end
  end.

Fixpoint afterFirst (sep : ascii) (s : string) : string :=
  match s with
  | EmptyString => EmptyString
  | String c s' => if Ascii.eqb c sep then s' else afterFirst sep s'
  end.

Definition parseCss (s : string) : list (string * string) :=
  omap (fun d =>
          if Js.includes ":" d
          then Some (Js.trim (Js.beforeFirst ":" d), Js.trim (afterFirst ":" d))
          else None)
       (splitAt ";" s).

(** [[style*="blur"]]: the text of the style attribute holds [blur]. *)
Definition styleHas (sub : string) (e : edata) : bool :=
  match styleAttribute e with
  | Some s => Js.includes sub s
  | None => false
  end.

(** *** Reading the tree *)

(** [node.textContent]. *)
Fixpoint textContent (n : node) : string :=
  match n with
  | TextNode s => s
  | Element _ _ ks =>
      (fix go (l : list node) : string :=
         match l with
         | [] => EmptyString
         | k :: l' => textContent k +:+ go l'
         end) ks
  end.

(** The first element with identity [h], in document order. *)
Fixpoint find (h : nat) (n : node) : option node :=
  match n with
  | TextNode _ => None
  | Element i e ks =>
      if bool_decide (i = h) then Some n
      else (fix go (l : list node) : option node :=
              match l with
              | [] => None
              | k :: l' => match find h k with Some x => Some x | None => go l' end
              end) ks
  end.

Definition findF (h : nat) : list node -> option node :=
  fix go (l : list node) : option node :=
    match l with
    | [] => None
    | k :: l' => match find h k with Some x => Some x | None => go l' end
    end.

(** [document.querySelectorAll(sel)], for a selector that looks at one
    element at a time: the matching elements in document order. *)
Fixpoint select (p : edata -> bool) (n : node) : list node :=
  match n with
  | TextNode _ => []
  | Element i e ks =>
      (if p e then [n] else []) ++
      (fix go (l : list node) : list node :=
         match l with
         | [] => []
         | k :: l' => select p k ++ go l'
         end) ks
  end.

Definition selectF (p : edata -> bool) : list node -> list node :=
  fix go (l : list node) : list node :=
    match l with
    | [] => []
    | k :: l' => select p k ++ go l'
    end.

(** The text of a list of nodes, one after the other. *)
Definition textContentF : list node -> string :=
  fix go (l : list node) : string :=
    match l with
    | [] => EmptyString
    | k :: l' => textContent k +:+ go l'
    end.

(** [h] is met first, in document order, at an element with data [e] and
    children [ks], below ancestors whose data all satisfy [ok]. *)
Inductive located (ok : edata -> Prop) (h : nat)
  : list node -> edata -> list node -> Prop :=
| located_here e ks rest :
    located ok h (Element h e ks :: rest) e ks
| located_down i a kids rest e ks :
    i <> h -> ok a -> located ok h kids e ks ->
    located ok h (Element i a kids :: rest) e ks
| located_next n rest e ks :
    find h n = None -> located ok h rest e ks ->
    located ok h (n :: rest) e ks.

(** *** Changing the tree

    One traversal serves the loops of the script over a static
    [querySelectorAll] list and its writes through an element reference.
    At each element, in document order, [f] either replaces the element
    (with its subtree) by a list of nodes, or keeps it with new data and
    goes on into its children.  An element of the static list that has left
    the document with a replaced ancestor has no further effect on the
    page. *)
Inductive action :=
| Replace (r : list node)
| Descend (e : edata).

Fixpoint rw (f : nat -> edata -> list node -> action) (n : node) : list node :=
  match n with
  | TextNode _ => [n]
  | Element i e ks =>
      match f i e ks with
      | Replace r => r
      | Descend e' =>
          [Element i e'
             ((fix go (l : list node) : list node :=
                 match l with
                 | [] => []
                 | k :: l' => rw f k ++ go l'
                 end) ks)]
      end
  end.

Definition rwF (f : nat -> edata -> list node -> action) : list node -> list node :=
  fix go (l : list node) : list node :=
    match l with
    | [] => []
    | k :: l' => rw f k ++ go l'
    end.

(** A write through the reference [h]: [g] gives the new data and the new
    children of the element. *)
Definition modify (h : nat) (g : edata -> list node -> edata * list node)
  : list node -> list node :=
  rwF (fun i e ks =>
         if bool_decide (i = h)
         then let '(e', ks') := g e ks in Replace [Element i e' ks']
         else Descend e).

(** [el.parentNode.insertBefore(x, el.nextSibling)], or [appendChild(x)]
    when [el] is the last child: [x] comes right after [el]. *)
Definition insertAfter (h : nat) (x : node) : list node -> list node :=
  rwF (fun i e ks =>
         if bool_decide (i = h) then Replace [Element i e ks; x] else Descend e).

(** [querySelectorAll(sel).forEach(el => el.parentNode.removeChild(el))]. *)
Definition removeAll (p : nat -> edata -> bool) : list node -> list node :=
  rwF (fun i e ks => if p i e then Replace [] else Descend e).

(** [el.textContent = s]. *)
Definition setTextContent (s : string) : list node :=
  if bool_decide (s = "") then [] else [TextNode s].

End Dom.

Import Dom.

(** ** Constants of the script *)

(** Modelled from the spec: the declarations of [EXCLUSION_CLASS],
    [INDICATOR_CLASS] and [API_BASE_URL] are not in the source file; the
    values are those of [config.classes.processed],
    [config.classes.indicator] and [config.api.baseUrl] of the same file. *)
Definition EXCLUSION_CLASS : string := "socioio-processed".
Definition INDICATOR_CLASS : string := "socioio-indicator".
Definition API_BASE_URL : string := "https://socio-backend-zxxd.onrender.com".

(** ** Text elements: [processTextElement] *)

(** The body of a request to the analysis service:
    [{ text | image_url, url: window.location.href }] sent to [endpoint]. *)
Record request := Request {
  endpoint : string;
  content : string;
  pageUrl : string
}.

(** What comes back from [await fetch(...)] and [await response.json()]:
    [Failed] when either promise rejects, or when the body is the JSON
    [null] (reading [data.action] then throws); otherwise the fields
    [action] and [reasons] of the JSON value ([None] and [[]] when the
    field is missing). *)
Inductive reply :=
| Failed
| Data (action : option string) (reasons : list string).

(** The object that [processTextElement] returns. *)
Inductive outcome :=
| skipped (reason : string)
| kept
| filtered (action : string) (reasons : list string).

(** The placeholder for a text the service wants removed. *)
Definition filteredText (text : string) : string :=
  if Nat.ltb (String.length text) 30 then "[Content filtered]"
  else if Nat.ltb (String.length text) 100 then
    let start := Js.substring 0 10 text in
    let end_ := Js.substringFrom (String.length text - 10) text in
    start +:+ "... [Content filtered] ..." +:+ end_
  else
    let firstSentence := Js.beforeFirst "." text in
    let preview :=
      if Nat.ltb 50 (String.length firstSentence)
      then Js.substring 0 50 firstSentence +:+ "..." else firstSentence in
    preview +:+ String "010" (String "010" "[Additional content filtered]").

(** The nodes that [addModerationIndicator] builds: the indicator [span],
    the [span] of its [innerHTML], the tooltip with its title, the list of
    reasons when there is one and the closing line.  Inline styles and event
    listeners of these nodes are left out; the pictogram of the indicator
    is written by its name. *)
Definition tooltipNodes (n0 : nat) (reasons : list string) : list node :=
  [Element n0 (created "DIV" []) [TextNode "Content Filtered by Socio.io"]] ++
  (if Nat.ltb 0 (length reasons)
   then [Element (n0 + 1) (created "DIV" []) [TextNode "Filtered for:"];
         Element (n0 + 2) (created "UL" [])
           (imap (fun k r => Element (n0 + 4 + k) (created "LI" []) [TextNode r]) reasons)]
   else []) ++
  [Element (n0 + 3) (created "DIV" []) [TextNode "Click to view original content"]].

Definition indicatorNode (n0 : nat) (action : string) (reasons : list string) : node :=
  let icon :=
    if bool_decide (action = "remove") then "shield"
    else if bool_decide (action = "encrypt") then "lock" else "warning" in
  Element n0 (created "SPAN" [INDICATOR_CLASS])
    [TextNode icon;
     Element (n0 + 1) (created "SPAN" []) [TextNode "View"];
     Element (n0 + 2) (created "DIV" ["socioio-tooltip"]) (tooltipNodes (n0 + 3) reasons)].

(** Identities used by one indicator. *)
Definition indicatorIds (reasons : list string) : nat := 7 + length reasons.

Section Layout.

(** [near i h]: the bounding rectangles of the indicator [i] and of the
    element [h] are less than 30 pixels apart, at the top and on the left.
    The layout of the page is not modelled. *)
Variable near : nat -> nat -> bool.

(** [addModerationIndicator(element, action, reasons)]: the indicators
    close to the element leave the page, and a new indicator comes right
    after the element.  When the element is not in the page any more the
    insertion throws and is caught: the page keeps the removals only. *)
Definition addModerationIndicator (h : nat) (action : string) (reasons : list string)
    (d : document) : document :=
  let cleared :=
    removeAll (fun i e => contains INDICATOR_CLASS e && near i h) (body d) in
  Document (insertAfter h (indicatorNode (nextId d) action reasons) cleared)
           (nextId d + indicatorIds reasons).

(** The words of the fallback of [processTextElement]. *)
Definition profanityWords : list string := ["fuck"; "shit"; "asshole"].
Definition hateWords : list string := ["nigger"; "faggot"; "kill all"].

Definition isProfanity (lowerText : string) : bool :=
  existsb (fun word => Js.testWholeWord word lowerText) profanityWords.

Definition isHateSpeech (lowerText : string) : bool :=
  existsb (fun word => Js.testWholeWord word lowerText) hateWords.

Definition fallbackReasons (lowerText : string) : list string :=
  (if isProfanity lowerText then ["Profanity detected"] else []) ++
  (if isHateSpeech lowerText then ["Hate speech detected"] else []).

(** [processTextElement], first part: from the call to the suspension at
    [await fetch(...)].  Either the function returns at once, or it has
    written [data-original-text] and waits for the reply to its request,
    with the trimmed text in [text].  [s] holds the globals at the time of
    the call; the function reads none of them. *)
Definition processTextElement_start (s : pstate) (href : string) (h : nat) (d : document)
  : document * (outcome + string * request) :=
  match findF h (body d) with
  | None => (d, inl (skipped "element_not_connected"))
  | Some n =>
      let text := Js.trim (textContent n) in
      if bool_decide (text = "") then (d, inl (skipped "no_text"))
      else if Nat.ltb (String.length text) 5 then (d, inl (skipped "text_too_short"))
      else
        (Document
           (modify h (fun e ks => (setAttribute "data-original-text" text e, ks)) (body d))
           (nextId d),
         inr (text, Request (API_BASE_URL +:+ "/analyze_text") text href))
  end.

(** The writes of a filter action: [element.textContent = shown],
    [element.classList.add('socioio-filtered-text')], then the indicator. *)
Definition applyTextFilter (h : nat) (shown : string) (reasons : list string)
    (d : document) : document :=
  let d1 :=
    Document
      (modify h (fun e _ => (classAdd "socioio-filtered-text" e, setTextContent shown))
              (body d))
      (nextId d) in
  addModerationIndicator h "remove" reasons d1.

(** [processTextElement], second part: from the reply to the [return].  [d]
    is the page at that time and [s] holds the globals at that time (the
    function reads none of them); [text] is the local variable of the first
    part. *)
Definition processTextElement_resume (s : pstate) (h : nat) (text : string)
    (r : reply) (d : document) : document * outcome :=
  match r with
  | Data action reasons =>
      if bool_decide (action ≠ Some "allow") then
        if bool_decide (action = Some "remove")
        then (applyTextFilter h (filteredText text) reasons d,
              filtered "remove" reasons)
        else (d, kept)
      else (d, kept)
  | Failed =>
      let lowerText := Js.toLowerCase text in
      if isProfanity lowerText || isHateSpeech lowerText
      then
        let reasons := fallbackReasons lowerText in
        (applyTextFilter h "[Content filtered - click indicator to view]" reasons d,
         filtered "remove" reasons)
      else (d, kept)
  end.

(** The whole function when nothing else runs while it waits. *)
Definition processTextElement (s : pstate) (href : string) (h : nat)
    (service : request -> reply) (d : document) : document * outcome :=
  match processTextElement_start s href h d with
  | (d1, inl o) => (d1, o)
  | (d1, inr (text, req)) => processTextElement_resume s h text (service req) d1
  end.

End Layout.

(** The fallback of [analyzeTextContent] (a function that nothing calls):
    the words are looked for with [includes], anywhere in the text. *)
Definition analyzeTextContent_fallback (text : string) : string * list string :=
  let profanityWords := ["fuck"; "shit"; "ass"; "bitch"] in
  let containsProfanity :=
    existsb (fun word => Js.includes word (Js.toLowerCase text)) profanityWords in
  if containsProfanity
  then ("remove", ["Profanity detected (client-side fallback)"])
  else ("allow", []).

(** ** Images: discovery and queueing *)

(** [img.src] is the address of the image: what the attribute [src] holds,
    resolved against the base address of the page, and the empty string for
    an image without that attribute.  How the page resolves an address is
    not part of the model: [resolve] stands for it (the base address is
    taken as fixed), the definitions that read [img.src] depend on it, and
    what is proved of them holds for every [resolve]. *)
Class Resolver := resolve : string -> string.

Definition src {R : Resolver} (e : edata) : string :=
  match getAttribute "src" e with
  | Some written => resolve written
  | None => ""
  end.

(** [img.alt || ""]. *)
Definition alt (e : edata) : string := default "" (getAttribute "alt" e).

Definition push (it : item) (s : pstate) : pstate :=
  set_processingQueue (processingQueue s ++ [it]) s.

(** The lists of [applyImmediateBlurToAllImages]. *)
Definition sensitiveKeywords : list string :=
  ["nsfw"; "adult"; "xxx"; "porn"; "nude"; "sex"].

Definition safeImageSources : list string :=
  ["wikipedia.org"; "wikimedia.org"; "github.com"; "googleusercontent.com/a/";
   "gravatar.com"; "maps.gstatic.com"; "schema.org"; "w3.org"; "placeholder.com"].

(** The body of the loop of [processImageBatch] in
    [applyImmediateBlurToAllImages], for the image [i] with data [e]. *)
Definition queueImageInitial {R : Resolver} (href : string) (s : pstate) (i : nat)
    (e : edata) : pstate :=
  if Nat.ltb (naturalWidth e) 50 || Nat.ltb (naturalHeight e) 50 then s
  else
    let src_ := Js.toLowerCase (src e) in
    let alt_ := Js.toLowerCase (alt e) in
    let isFromSafeSource := existsb (fun source => Js.includes source src_) safeImageSources in
    if isFromSafeSource then s
    else
      let mightBeSensitive :=
        existsb (fun keyword => Js.includes keyword src_ || Js.includes keyword alt_)
                sensitiveKeywords in
      let isSensitivePage :=
        existsb (fun keyword => Js.includes keyword (Js.toLowerCase href)) sensitiveKeywords in
      if mightBeSensitive || isSensitivePage
      then set_imageElementsProcessed ({[i]} ∪ imageElementsProcessed s)
             (push (Item Image i (Some "high")) s)
      else if bool_decide (i ∈ imageElementsProcessed s) then s
      else set_imageElementsProcessed ({[i]} ∪ imageElementsProcessed s)
             (push (Item Image i None) s).

Definition queueNodeInitial {R : Resolver} (href : string) (s : pstate) (n : node) : pstate :=
  match n with
  | Element i e _ => queueImageInitial href s i e
  | TextNode _ => s
  end.

(** [processImageBatch(startIndex)]: ten images at most; then either the
    index at which a timer resumes the loop, or the call of
    [processNextBatch] when the queue is not empty. *)
Definition processImageBatch {R : Resolver} (href : string) (images : list node)
    (startIndex : nat) (s : pstate) : pstate * option nat :=
  let endIndex := Nat.min (startIndex + 10) (length images) in
  let s' := foldl (queueNodeInitial href) s
                  (take (endIndex - startIndex) (drop startIndex images)) in
  if Nat.ltb endIndex (length images) then (s', Some endIndex)
  else (if Nat.ltb 0 (length (processingQueue s')) then processNextBatch s' else s', None).

(** [applyImmediateBlurToAllImages] up to its return: the first batch over
    [document.querySelectorAll('img')]. *)
Definition applyImmediateBlurToAllImages {R : Resolver} (href : string) (d : document)
    (s : pstate)
  : pstate * option nat :=
  processImageBatch href (selectF (fun e => bool_decide (tagName e = "IMG")) (body d)) 0 s.

(** The body of the loop of [addImagesToProcessingQueue] for the element
    [h], read in the page as it is then; [c] counts [imagesAdded].  The
    loop is followed for the images of the page: for a handle that is not
    in the page the state is returned as it is. *)
Definition addImage {R : Resolver} (st : document * pstate * nat) (h : nat)
  : document * pstate * nat :=
  let '(d, s, c) := st in
  match findF h (body d) with
  | Some (Element _ e _) =>
      if bool_decide (src e = "") then st
      else if contains EXCLUSION_CLASS e then st
      else (Document (modify h (fun e ks => (classAdd EXCLUSION_CLASS e, ks)) (body d))
                     (nextId d),
            push (Item Image h None) s,
            S c)
  | _ => st
  end.

(** [addImagesToProcessingQueue(images)]. *)
Definition addImagesToProcessingQueue {R : Resolver} (images : list nat) (d : document)
    (s : pstate)
  : document * pstate :=
  let '(d', s', imagesAdded) := foldl addImage (d, s, 0) images in
  (d', if Nat.ltb 0 imagesAdded then processNextBatch s' else s').

(** The two nested timer callbacks of [processElementsWithDelay] for one
    element: nothing when the element is in the processed set of its type,
    else the push, the processed set and the class. *)
Definition queueElementWithDelay (ty : itype) (h : nat) (d : document) (s : pstate)
  : document * pstate :=
  let seen :=
    match ty with
    | Text => bool_decide (h ∈ textElementsProcessed s)
    | Image => bool_decide (h ∈ imageElementsProcessed s)
    end in
  if seen then (d, s)
  else
    let s1 := push (Item ty h None) s in
    let s2 :=
      match ty with
      | Text => set_textElementsProcessed ({[h]} ∪ textElementsProcessed s1) s1
      | Image => set_imageElementsProcessed ({[h]} ∪ imageElementsProcessed s1) s1
      end in
    (Document (modify h (fun e ks => (classAdd EXCLUSION_CLASS e, ks)) (body d)) (nextId d),
     s2).

(** ** Images: analysis and blur *)

(** Modelled from the spec: the declaration of [UI_TRANSITION_DURATION] is
    not in the source file; the value is that of
    [config.ui.transitionDuration] of the same file. *)
Definition UI_TRANSITION_DURATION : string := "300".

(** [addOverlayToImage(img)], the second declaration of that name in the
    file (the one in force): nothing when the next element sibling is an
    overlay already; else the image gets the class and the blur and moves
    into a new wrapper, in front of a new overlay.  Inline styles of the
    created nodes are left out. *)
Definition overlayNode (n0 : nat) : node :=
  Element n0 (created "DIV" ["socioio-overlay"])
    [Element (n0 + 1) (created "DIV" []) [TextNode "Image filtered by Socio.io"];
     Element (n0 + 2) (created "BUTTON" []) [TextNode "Show Image"]].

Definition wrapped (n0 : nat) (i : nat) (e : edata) (ks : list node) : node :=
  let e' := set_style (setProperty "filter" "blur(20px)" (style e))
                      (classAdd "socioio-filtered-image" e) in
  Element n0 (created "DIV" ["socioio-image-wrapper"])
    [Element i e' ks; overlayNode (n0 + 1)].

Fixpoint nextElementSibling (after : list node) : option edata :=
  match after with
  | [] => None
  | TextNode _ :: l => nextElementSibling l
  | Element _ e _ :: _ => Some e
  end.

Definition hasOverlayNext (after : list node) : bool :=
  match nextElementSibling after with
  | Some e => contains "socioio-overlay" e
  | None => false
  end.

Fixpoint wrapImage (n0 h : nat) (n : node) : node :=
  match n with
  | TextNode _ => n
  | Element i e ks =>
      Element i e
        ((fix go (l : list node) : list node :=
            match l with
            | [] => []
            | k :: l' =>
                match k with
                | TextNode _ => k :: go l'
                | Element j ej kj =>
                    if bool_decide (j = h)
                    then (if hasOverlayNext l' then k else wrapped n0 j ej kj) :: l'
                    else wrapImage n0 h k :: go l'
                end
            end) ks)
  end.

Fixpoint wrapImageF (n0 h : nat) (l : list node) : list node :=
  match l with
  | [] => []
  | k :: l' =>
      match k with
      | TextNode _ => k :: wrapImageF n0 h l'
      | Element j ej kj =>
          if bool_decide (j = h)
          then (if hasOverlayNext l' then k else wrapped n0 j ej kj) :: l'
          else wrapImage n0 h k :: wrapImageF n0 h l'
      end
  end.

Definition addOverlayToImage (h : nat) (d : document) : document :=
  Document (wrapImageF (nextId d) h (body d)) (nextId d + 4).

(** What comes back from the image analysis: [ImgFailed] when a promise of
    the chain rejects, else the field [overall_safety] of the JSON value. *)
Inductive imageReply :=
| ImgFailed
| ImgData (overall_safety : option string).

Definition markAnalyzing (e : edata) : edata :=
  let e1 := classAdd EXCLUSION_CLASS e in
  let tempStyle := default "" (styleAttribute e1) in
  let e2 := setAttribute "data-original-style" tempStyle e1 in
  let e3 := set_style (setProperty "transition"
                         ("filter " +:+ UI_TRANSITION_DURATION +:+ "ms ease") (style e2)) e2 in
  let e4 := set_style (setProperty "border" "1px dashed #ccc" (style e3)) e3 in
  setAttribute "data-socioio-analyzing" "true" e4.

(** [img.style = img.getAttribute('data-original-style') || '']. *)
Definition resetStyle (e : edata) : edata :=
  set_style (parseCss (default "" (getAttribute "data-original-style" e))) e.

(** [processImage(img)] for an image of the page, up to its return: the
    request it has sent, if any, with the address [img.src]. *)
Definition processImage_start {R : Resolver} (href : string) (h : nat) (d : document) (s : pstate)
  : document * option request :=
  match findF h (body d) with
  | Some (Element _ e _) =>
      if contains EXCLUSION_CLASS e then (d, None)
      else if Nat.ltb (width e) 100 || Nat.ltb (height e) 100 then (d, None)
      else if backendRunning s
      then (Document (modify h (fun e ks => (markAnalyzing e, ks)) (body d)) (nextId d),
            Some (Request (API_BASE_URL +:+ "/analyze_image") (src e) href))
      else (Document
              (modify h (fun e ks =>
                           (removeAttribute "data-socioio-analyzing"
                              (resetStyle (markAnalyzing e)), ks)) (body d))
              (nextId d),
            None)
  | _ => (d, None)
  end.

(** The callbacks of the request of [processImage]. *)
Definition processImage_resume (h : nat) (r : imageReply) (d : document) : document :=
  let unsafe :=
    match r with
    | ImgData (Some v) => bool_decide (v = "unsafe") || bool_decide (v = "questionable")
    | _ => false
    end in
  if unsafe then
    addOverlayToImage h
      (Document
         (modify h (fun e ks =>
                      let e1 := removeAttribute "data-socioio-analyzing" e in
                      let e2 := set_style (setProperty "filter" "blur(20px)" (style e1)) e1 in
                      (set_style (setProperty "border" "3px solid red" (style e2)) e2, ks))
                 (body d))
         (nextId d))
  else
    Document
      (modify h (fun e ks => (resetStyle (removeAttribute "data-socioio-analyzing" e), ks))
              (body d))
      (nextId d).

(** ** Restoring the page: [restoreOriginalContent] *)

Definition isSocioNode (e : edata) : bool :=
  contains "socioio-blocked-image" e || contains "socioio-image-overlay" e
  || contains "socioio-image-wrapper" e || contains INDICATOR_CLASS e.

(** [img[style*="blur"], .socioio-filtered-image,
     img[data-socioio-filtered="true"]]. *)
Definition isBlurredImage (e : edata) : bool :=
  (bool_decide (tagName e = "IMG") && styleHas "blur" e)
  || contains "socioio-filtered-image" e
  || (bool_decide (tagName e = "IMG")
      && bool_decide (getAttribute "data-socioio-filtered" e = Some "true")).

(** The body of the second loop for one element: the blur and the border
    are taken off, the class and the mark of filtered images removed, and
    the address set back from [data-original-src] when that is not empty.
    [style.border = ''] is the removal of the one declaration [border], and
    the write to [img.src] is the write of the attribute, as it is for an
    image. *)
Definition restoreImage (e : edata) : edata :=
  let e1 := set_style (setProperty "filter" "none" (style e)) e in
  let e2 := set_style (removeProperty "border" (style e1)) e1 in
  let e3 := classRemove "socioio-filtered-image" e2 in
  let e4 := removeAttribute "data-socioio-filtered" e3 in
  match truthy (getAttribute "data-original-src" e4) with
  | Some original => removeAttribute "data-original-src" (setAttribute "src" original e4)
  | None => e4
  end.

Fixpoint firstBlurredChild (ks : list node) : option node :=
  match ks with
  | [] => None
  | Element j ej kj :: ks' =>
      if isBlurredImage ej then Some (Element j (restoreImage ej) kj)
      else firstBlurredChild ks'
  | TextNode _ :: ks' => firstBlurredChild ks'
  end.

(** The second loop: each blurred image is restored; one that is a child
    of a wrapper takes the place of the wrapper. *)
Definition restoreImages : list node -> list node :=
  rwF (fun i e ks =>
         let e' := if isBlurredImage e then restoreImage e else e in
         if contains "socioio-image-wrapper" e then
           match firstBlurredChild ks with
           | Some img => Replace [img]
           | None => Descend e'
           end
         else Descend e').

(** The third loop: the text of each filtered element. *)
Definition restoreText : list node -> list node :=
  rwF (fun i e ks =>
         if contains "socioio-filtered-text" e then
           match truthy (getAttribute "data-original-text" e) with
           | Some original =>
               Replace [Element i
                          (set_style []
                             (classRemove "socioio-filtered-text"
                                (removeAttribute "data-original-text" e)))
                          (setTextContent original)]
           | None => Descend (set_style [] (classRemove "socioio-filtered-text" e))
           end
         else Descend e).

Definition restoreOriginalContent (d : document) : document :=
  let b1 := removeAll (fun _ e => isSocioNode e) (body d) in
  let b2 := restoreImages b1 in
  let b3 := restoreText b2 in
  let b4 := removeAll (fun _ e => contains "socioio-overlay" e) b3 in
  Document b4 (nextId d).

(** ** The availability flag *)

(** [checkBackendStatus] up to its return, as far as the globals go: the
    flag is set before the ping is sent. *)
Definition checkBackendStatus_start (s : pstate) : pstate * request :=
  (set_backendRunning true s, Request (API_BASE_URL +:+ "/ping") "" "").

(** The callbacks of the ping, as far as the flag goes (the scans they
    start do not assign it): [then] sets it, [catch] leaves it. *)
Definition checkBackendStatus_resume (pingOk : bool) (s : pstate) : pstate :=
  if pingOk then set_backendRunning true s else s.

(** The message [backendStatusChanged], as far as the flag goes. *)
Definition backendStatusChanged (running : bool) (s : pstate) : pstate :=
  set_backendRunning running s.

(** The message [toggleProtection] / [setEnabled]: the flag, and the page
    restored when protection goes from on to off (the scan that starts when
    it goes from off to on is not part of the model). *)
Definition toggleProtection (enabled : bool) (d : document) (s : pstate)
  : document * pstate :=
  let previousState := isEnabled s in
  let s' := set_isEnabled enabled s in
  if negb enabled && previousState then (restoreOriginalContent d, s') else (d, s').

(** ** Elements the script has not marked

    The classes by which [restoreOriginalContent] and
    [addModerationIndicator] pick the nodes they remove or rewrite with
    their subtree. *)
Definition markerClasses : list string :=
  ["socioio-blocked-image"; "socioio-image-overlay"; "socioio-image-wrapper";
   INDICATOR_CLASS; "socioio-overlay"; "socioio-filtered-text"].

Definition unmarked (e : edata) : Prop :=
  forall c, In c markerClasses -> c ∉ classList e.

(** The state in which a filter of [processTextElement] leaves a text
    element whose saved text is [original]: the element carries the class
    of filtered texts and no other marker class, and [data-original-text]
    holds [original], which is not empty. *)
Definition filteredWith (original : string) (e : edata) : Prop :=
  contains "socioio-filtered-text" e = true /\
  (forall c, In c markerClasses -> c <> "socioio-filtered-text" -> contains c e = false) /\
  getAttribute "data-original-text" e = Some original /\ original <> "".

(** ** Whole words

    What it means that a text holds a word as a whole word, whatever the
    case of its letters: the text is cut in three, the middle part is the
    word up to the case, and no character of a word ([\w]) touches it on
    either side. *)

Fixpoint lastChar (s : string) : option ascii :=
  match s with
  | EmptyString => None
  | String c EmptyString => Some c
  | String _ s' => lastChar s'
  end.

(** The character before a position: the last one of what was read, or the
    one before that. *)
Definition lastOr (prev : option ascii) (s : string) : option ascii :=
  match lastChar s with Some c => Some c | None => prev end.

Definition notWord (o : option ascii) : Prop :=
  from_option Js.isWordChar false o = false.

Definition holdsWord (word text : string) : Prop :=
  exists pre mid post,
    text = pre +:+ mid +:+ post /\ Js.toLowerCase mid = word /\
    notWord (lastChar pre) /\ notWord (Js.head post).

Fixpoint allChars (P : ascii -> bool) (s : string) : bool :=
  match s with
  | EmptyString => true
  | String c s' => P c && allChars P s'
  end.

(** The shape of the listed words: small ASCII letters and spaces, with a
    letter at both ends. *)
Definition smallLetter (c : ascii) : bool := Js.between 97 122 c.

Definition plainWord (w : string) : bool :=
  allChars (fun c => smallLetter c || Ascii.eqb c " ") w
  && from_option smallLetter false (Js.head w)
  && from_option smallLetter false (lastChar w).

(** The 256 characters. *)
Definition allAscii : list ascii := map ascii_of_nat (seq 0 256).

(** ** Sample states and pages *)

Definition sample_items : list item :=
  map (fun k => Item Text k None) (seq 1 12).

(** A batch is in flight and twelve items wait. *)
Definition busy_state : pstate :=
  PState true true true sample_items ∅ ∅ [[(Item Image 0 None, Pending)]] [].

(** Nothing in flight, twelve items wait. *)
Definition idle_state : pstate :=
  PState true true false sample_items ∅ ∅ [] [].

Definition plainElement (tag : string) : edata :=
  EData tag [] ∅ [] 0 0 0 0.

(** An image of natural and rendered size [w] x [h_]. *)
Definition imageElement (source : string) (w h_ : nat) : edata :=
  EData "IMG" [] {[ "src" := source ]} [] w h_ w h_.

(** Two paragraphs in a block, a small image and a large one. *)
Definition sample_page : document :=
  Document
    [Element 5 (plainElement "DIV")
       [Element 1 (plainElement "P") [TextNode "  Oh SHIT, that is bad "];
        Element 2 (plainElement "P") [TextNode "I hate everyone, kill them all"]];
     Element 3 (imageElement "http://example.com/icon.png" 40 40) [];
     Element 4 (imageElement "http://example.com/photo.jpg" 400 300) []]
    100.

Definition sample_href : string := "http://example.com/".

(** The addresses of the samples are written in full: resolved, each one
    is what is written. *)
Definition asWritten : Resolver := fun written => written.

(** No indicator is close to any element. *)
Definition nowhere (i h : nat) : bool := false.

(** A batch starts, its ten promises settle (the last one by a rejection),
    the fan-in completes and the timer of the next batch fires. *)
Definition sample_trace : list event :=
  [EvInvoke; EvInvoke] ++
  map (fun i => EvSettle 0 i true) (seq 0 9) ++
  [EvSetEnabled true; EvSettle 0 9 false; EvAllSettled 0; EvTimer 0].

(** * More of the content script *)

(** ** Runs of the dispatcher *)

(** The items that a trace pushes, in order. *)
Fixpoint pushed (tr : list event) : list item :=
  match tr with
  | [] => []
  | EvPush it :: tr' => it :: pushed tr'
  | _ :: tr' => pushed tr'
  end.

(** The items of the batches that a log shows starting, in order. *)
Fixpoint started (log : list obs) : list item :=
  match log with
  | [] => []
  | ObsStart batch :: log' => batch ++ started log'
  | ObsDone _ :: log' => started log'
  end.

(** Does the trace enable the pipeline, does it settle a promise? *)
Definition enables (e : event) : bool :=
  match e with EvSetEnabled true => true | _ => false end.

Definition settles (e : event) : bool :=
  match e with EvSettle _ _ _ => true | _ => false end.

Definition hasPending (B : list (item * promise)) : bool :=
  existsb (fun p => negb (settled p.2)) B.

(** Calls, pushes and a message that disables: nothing in it enables the
    pipeline or settles a promise. *)
Definition disabled_trace : list event :=
  [EvInvoke; EvPush (Item Image 20 None); EvInvoke; EvSetEnabled false;
   EvPush (Item Text 21 None); EvInvoke].

(** A page whose only paragraph holds a listed word and 4 characters. *)
Definition short_page : document :=
  Document [Element 1 (plainElement "P") [TextNode " shit "]] 10.

(** ** Images: what the sweeps look at *)

(** The tests of the loop of [applyImmediateBlurToAllImages], as the loop
    computes them on the address [img.src]: [isFromSafeSource], and
    [mightBeSensitive || isSensitivePage]. *)
Definition isFromSafeSource {R : Resolver} (e : edata) : bool :=
  existsb (fun source => Js.includes source (Js.toLowerCase (src e))) safeImageSources.

Definition isSensitive {R : Resolver} (href : string) (e : edata) : bool :=
  existsb (fun keyword => Js.includes keyword (Js.toLowerCase (src e))
                          || Js.includes keyword (Js.toLowerCase (alt e)))
          sensitiveKeywords
  || existsb (fun keyword => Js.includes keyword (Js.toLowerCase href)) sensitiveKeywords.

(** The data of the first element with identity [h]. *)
Definition nodeData (o : option node) : option edata :=
  match o with
  | Some (Element _ e _) => Some e
  | _ => None
  end.

Definition elementData (h : nat) (l : list node) : option edata :=
  nodeData (findF h l).

(** The two tests of the loop of [addImagesToProcessingQueue] on an image
    with data [e]: the image has no source, or it carries the class of
    processed elements, and the loop goes on to the next image. *)
Definition passedOver {R : Resolver} (e : edata) : bool :=
  bool_decide (src e = "") || contains EXCLUSION_CLASS e.

(** The items that the dispatcher has taken and whose batch is not
    complete, then the items that wait in the queue. *)
Definition inHand (s : pstate) : list item :=
  concat (map (fun b => b.*1) (fanins s)) ++ processingQueue s.

(** The item is for the element [h]. *)
Definition about (h : nat) (it : item) : bool := Nat.eqb (element it) h.

Definition handles (l : list node) : list nat :=
  omap (fun n => match n with Element i _ _ => Some i | TextNode _ => None end) l.

(** ** Images: [scanImagesForModeration] *)

Section Loaded.

(** [img.complete], for the image of each handle, when the scan runs. *)
Variable complete : nat -> bool.

(** The body of the loop of [processBatch] for the image [h]; the third
    component collects the requests sent. *)
Definition scanImage {R : Resolver} (href : string) (st : document * pstate * list request)
    (h : nat)
  : document * pstate * list request :=
  let '(d, s, sent) := st in
  match findF h (body d) with
  | Some (Element _ e _) =>
      if complete h && Nat.ltb 0 (naturalWidth e) then
        if bool_decide (h ∈ imageElementsProcessed s) then st
        else
          let '(d', r) := processImage_start href h d s in
          (d', set_imageElementsProcessed ({[h]} ∪ imageElementsProcessed s) s,
           sent ++ match r with Some q => [q] | None => [] end)
      else st
  | _ => st
  end.

(** [processBatch(startIndex)]: five images, then either the timer of the
    next batch (its start index is returned) or
    [addImagesToProcessingQueue(images)]. *)
Definition processBatch {R : Resolver} (href : string) (images : list nat) (startIndex : nat)
    (d : document) (s : pstate) : document * pstate * list request * option nat :=
  let endIndex := Nat.min (startIndex + 5) (length images) in
  let '(d1, s1, sent) :=
    foldl (scanImage href) (d, s, []) (take (endIndex - startIndex) (drop startIndex images)) in
  if Nat.ltb endIndex (length images) then (d1, s1, sent, Some endIndex)
  else let '(d2, s2) := addImagesToProcessingQueue images d1 s1 in (d2, s2, sent, None).

(** [scanImagesForModeration()] up to its return. *)
Definition scanImagesForModeration {R : Resolver} (href : string) (d : document) (s : pstate)
  : document * pstate * list request * option nat :=
  if isEnabled s then
    processBatch href
      (handles (selectF (fun e => bool_decide (tagName e = "IMG")
                                  && negb (contains EXCLUSION_CLASS e)) (body d)))
      0 d s
  else (d, s, [], None).

(** [processImage] goes past its two early returns for the image, when
    the loop of [processBatch] comes to it. *)
Definition analysedNow (s : pstate) (h : nat) (e : edata) : bool :=
  complete h && Nat.ltb 0 (naturalWidth e)
  && negb (bool_decide (h ∈ imageElementsProcessed s))
  && negb (Nat.ltb (width e) 100 || Nat.ltb (height e) 100).

End Loaded.

(** A large image with a plain source and one whose source holds a
    sensitive keyword. *)
Definition plain_image : edata := imageElement "http://example.com/photo.jpg" 400 300.
Definition sensitive_image : edata := imageElement "http://example.com/nsfw/1.jpg" 400 300.

(** ** Identities of the elements of a page *)

(** The identities of the elements of a subtree, in document order.  In a
    page each element has an identity of its own. *)
Fixpoint ids (n : node) : list nat :=
  match n with
  | TextNode _ => []
  | Element i _ ks => i :: flat_map ids ks
  end.

Definition idsF (l : list node) : list nat := flat_map ids l.

#[global] Instance edata_eq_dec : EqDecision edata.
Proof. solve_decision. Defined.

(** A verdict for which [processImage] blurs the image. *)
Definition blurs (r : imageReply) : bool :=
  match r with
  | ImgData (Some v) => bool_decide (v = "unsafe") || bool_decide (v = "questionable")
  | _ => false
  end.

(** Some mark that [restoreOriginalContent] looks for. *)
Definition isMarked (e : edata) : bool :=
  isSocioNode e || isBlurredImage e || contains "socioio-filtered-text" e
  || contains "socioio-overlay" e.

(** A blurred image that [restoreOriginalContent] would still change, and
    an element that gives it something to do. *)
Definition blurLeft (e : edata) : bool :=
  isBlurredImage e && negb (bool_decide (restoreImage e = e)).

Definition restorable (e : edata) : bool :=
  isSocioNode e || contains "socioio-overlay" e || contains "socioio-filtered-text" e
  || blurLeft e.

(** The classes by which the script marks what it has filtered. *)
Definition filterClasses : list string :=
  markerClasses ++ ["socioio-filtered-image"].

(** ** Images that arrive later: [processNewImage] *)

(** The list of [applyImmediateImageBlur]. *)
Definition safeSourcesOnArrival : list string :=
  ["wikipedia.org"; "wikimedia.org"; "github.com"; "googleusercontent.com/a/";
   "gravatar.com"].



(** [applyImmediateImageBlur(imageElement)], as far as the page goes (the
    message that updates the counters is left out). *)
Definition applyImmediateImageBlur {R : Resolver} (e : edata) : edata :=
  if Nat.ltb (naturalWidth e) 50 || Nat.ltb (naturalHeight e) 50 then e
  else if existsb (fun source => Js.includes source (Js.toLowerCase (src e)))
                  safeSourcesOnArrival then e
  else
    let e1 := set_style (setProperty "filter" "blur(20px)" (style e)) e in
    let e2 := set_style (setProperty "border" "3px solid red" (style e1)) e1 in
    setAttribute "data-socioio-filtered" "true" e2.

(** [processNewImage(imageElement)] for an image of the page, up to the
    call of [processElement]; the boolean tells whether that call is made. *)
Definition processNewImage {R : Resolver} (h : nat) (d : document) (s : pstate)
  : document * pstate * bool :=
  if negb (isEnabled s) then (d, s, false)
  else
    match findF h (body d) with
    | Some (Element _ e _) =>
        if contains EXCLUSION_CLASS e || bool_decide (h ∈ imageElementsProcessed s)
        then (d, s, false)
        else if bool_decide (src e = "") then (d, s, false)
        else
          (Document
             (modify h (fun e ks =>
                          (applyImmediateImageBlur (classAdd EXCLUSION_CLASS e), ks))
                     (body d))
             (nextId d),
           set_imageElementsProcessed ({[h]} ∪ imageElementsProcessed s) s,
           true)
    | _ => (d, s, false)
    end.

(** ** Colours: [darkenColor] *)

Definition hexValue (c : ascii) : option Z :=
  if Js.between 48 57 c then Some (Z.of_nat (Js.code c) - 48)%Z
  else if Js.between 97 102 c then Some (Z.of_nat (Js.code c) - 87)%Z
  else if Js.between 65 70 c then Some (Z.of_nat (Js.code c) - 55)%Z
  else None.

(** The number that the longest prefix of hexadecimal digits writes; [acc]
    is what the digits read so far give, [None] before the first one. *)
Fixpoint hexPrefix (acc : option Z) (s : string) : option Z :=
  match s with
  | String c s' =>
      match hexValue c with
      | Some v => hexPrefix (Some (16 * default 0%Z acc + v)%Z) s'
      | None => acc
      end
  | EmptyString => acc
  end.

(** [parseInt(s, 16)]: white space, a sign, [0x] or [0X], then digits;
    [None] is [NaN]. *)
Definition parseInt16 (s : string) : option Z :=
  let s1 := Js.trimStart s in
  let '(sign, s2) :=
    match s1 with
    | String c r =>
        if Ascii.eqb c "-" then ((-1)%Z, r)
        else if Ascii.eqb c "+" then (1%Z, r) else (1%Z, s1)
    | EmptyString => (1%Z, s1)
    end in
  let s3 :=
    match s2 with
    | String a (String x r) =>
        if Ascii.eqb a "0" && (Ascii.eqb x "x" || Ascii.eqb x "X") then r else s2
    | _ => s2
    end in
  (fun n => (sign * n)%Z) <$> hexPrefix None s3.

Definition hexDigit (n : Z) : ascii :=
  ascii_of_nat (Z.to_nat (if (n <? 10)%Z then 48 + n else 87 + n)%Z).

Fixpoint hexDigits (fuel : nat) (n : Z) : string :=
  match fuel with
  | O => ""
  | S fuel' =>
      if (n <? 16)%Z then String (hexDigit n) ""
      else hexDigits fuel' (n / 16)%Z +:+ String (hexDigit (n mod 16)%Z) ""
  end.

(** [n.toString(16)] for an integer [n >= 0]. *)
Definition toString16 (n : Z) : string :=
  hexDigits (S (Z.to_nat (Z.log2 n))) n.

(** [s.padStart(2, '0')]. *)
Definition padStart2 (s : string) : string :=
  match String.length s with
  | 0 => "00"
  | 1 => "0" +:+ s
  | _ => s
  end.

(** [Math.max(0, Math.floor(c * (100 - percent) / 100))], for an integer
    [percent]. *)
Definition darkenChannel (percent : Z) (c : option Z) : option Z :=
  (fun r => Z.max 0 (r * (100 - percent) / 100)) <$> c.

Definition showChannel (c : option Z) : string :=
  padStart2 (match c with Some n => toString16 n | None => "NaN" end).

(** The three numbers that [darkenColor] reads in the colour. *)
Definition channels (color : string) : option Z * option Z * option Z :=
  (parseInt16 (Js.substring 1 3 color),
   parseInt16 (Js.substring 3 5 color),
   parseInt16 (Js.substring 5 7 color)).

Definition darkenColor (color : string) (percent : Z) : string :=
  if Js.startsWith "#" color then
    let '(r, g, b) := channels color in
    "#" +:+ showChannel (darkenChannel percent r)
        +:+ showChannel (darkenChannel percent g)
        +:+ showChannel (darkenChannel percent b)
  else color.

Definition isHexDigit (c : ascii) : bool :=
  match hexValue c with Some _ => true | None => false end.

(** [#] and six hexadecimal digits. *)
Definition isHexColor (s : string) : bool :=
  match s with
  | String h (String a (String b (String c (String d (String e (String f EmptyString)))))) =>
      Ascii.eqb h "#" && forallb isHexDigit [a; b; c; d; e; f]
  | _ => false
  end.

(** The checks behind the properties of [darkenColor], for two digits and
    for one number. *)
Definition pairChecked (a b : ascii) : bool :=
  implb (isHexDigit a && isHexDigit b)
    match parseInt16 (String a (String b "")) with
    | Some v =>
        (0 <=? v)%Z && (v <=? 255)%Z
        && String.eqb (showChannel (Some v)) (String (Js.lower a) (String (Js.lower b) ""))
    | None => false
    end.

Definition numberChecked (v : Z) : bool :=
  match showChannel (Some v) with
  | String a (String b EmptyString) =>
      isHexDigit a && isHexDigit b
      && match parseInt16 (String a (String b "")) with
         | Some w => (w =? v)%Z
         | None => false
         end
  | _ => false
  end.

(** ** The periodic scans

    [window.socioIntervalScan] and [window.socioIntervalImageScan] hold the
    handles of the two periodic scans; [running] lists the intervals that
    have been set and not cleared, [nextInterval] is the handle that the next
    [setInterval] returns (handles are not 0). *)
Record intervals := Intervals {
  socioIntervalScan : option nat;
  socioIntervalImageScan : option nat;
  running : list nat;
  nextInterval : nat
}.

(** The handles that the script can still clear. *)
Definition held (t : intervals) : list nat :=
  option_list (socioIntervalScan t) ++ option_list (socioIntervalImageScan t).

(** [if (!window.socioIntervalScan) window.socioIntervalScan =
    setInterval(...)], and the same for the image scan. *)
Definition startScan (t : intervals) : intervals :=
  match socioIntervalScan t with
  | Some _ => t
  | None =>
      Intervals (Some (nextInterval t)) (socioIntervalImageScan t)
                (running t ++ [nextInterval t]) (S (nextInterval t))
  end.

Definition startImageScan (t : intervals) : intervals :=
  match socioIntervalImageScan t with
  | Some _ => t
  | None =>
      Intervals (socioIntervalScan t) (Some (nextInterval t))
                (running t ++ [nextInterval t]) (S (nextInterval t))
  end.

(** [if (window.socioIntervalScan) { clearInterval(...); ... = null }]. *)
Definition stopScan (t : intervals) : intervals :=
  match socioIntervalScan t with
  | Some i =>
      Intervals None (socioIntervalImageScan t)
                (filter (fun j => j <> i) (running t)) (nextInterval t)
  | None => t
  end.

Definition stopImageScan (t : intervals) : intervals :=
  match socioIntervalImageScan t with
  | Some i =>
      Intervals (socioIntervalScan t) None
                (filter (fun j => j <> i) (running t)) (nextInterval t)
  | None => t
  end.

(** The message [toggleProtection] / [setEnabled], as far as the flag and
    the intervals go. *)
Definition toggleIntervals (enabled : bool) (st : pstate * intervals) : pstate * intervals :=
  let '(s, t) := st in
  let previousState := isEnabled s in
  let s' := set_isEnabled enabled s in
  if enabled && negb previousState then (s', startImageScan (startScan t))
  else if negb enabled && previousState then (s', stopImageScan (stopScan t))
  else (s', t).

(** The callback of the timer that [initialize] arms when the stored flag
    is not [false]: both handles are assigned anew. *)
Definition delayedStart (t : intervals) : intervals :=
  Intervals (Some (nextInterval t)) (Some (S (nextInterval t)))
            (running t ++ [nextInterval t; S (nextInterval t)])
            (S (S (nextInterval t))).

Inductive scanEvent :=
| Toggle (enabled : bool)
| DelayedStart.

Definition scanStep (st : pstate * intervals) (ev : scanEvent) : pstate * intervals :=
  match ev with
  | Toggle enabled => toggleIntervals enabled st
  | DelayedStart => (st.1, delayedStart st.2)
  end.

(** The intervals running are those whose handles are held. *)
Definition inHandIntervals (t : intervals) : Prop :=
  NoDup (running t) /\ (forall i, i ∈ running t <-> i ∈ held t) /\
  NoDup (held t) /\ (forall i, i ∈ running t -> i < nextInterval t).

(** ** The observer and [debounce]

    [debounce(func, wait)] returns a function with a variable [timeout] of
    its own: [cells] holds these variables with the timer each one names,
    [pendingTimers] the timers set and not cleared, with their delays. *)
Record timerHeap := TimerHeap {
  cells : list (option nat);
  pendingTimers : list (nat * nat);
  nextTimer : nat
}.

(** [debounce(func, wait)]: the new function is known by its cell. *)
Definition debounce (th : timerHeap) : nat * timerHeap :=
  (length (cells th), TimerHeap (cells th ++ [None]) (pendingTimers th) (nextTimer th)).

(** A call of the function that [debounce] returned:
    [clearTimeout(timeout); timeout = setTimeout(..., wait)]. *)
Definition callDebounced (cell wait : nat) (th : timerHeap) : timerHeap :=
  let cleared :=
    match cells th !! cell with
    | Some (Some timer) => filter (fun p => p.1 <> timer) (pendingTimers th)
    | _ => pendingTimers th
    end in
  TimerHeap (<[cell := Some (nextTimer th)]> (cells th))
            (cleared ++ [(nextTimer th, wait)])
            (S (nextTimer th)).

(** The end of the callback of the first observer of [setupObserver]:
    [if (hasNewText || mutations.length > 0) debounce(..., wait)()]. *)
Definition observerCallback (wait : nat) (th : timerHeap)
    (cb : bool * bool * nat) : timerHeap :=
  let '(enabled, hasNewText, mutations) := cb in
  if negb enabled then th
  else if hasNewText || Nat.ltb 0 mutations
  then let '(cell, th1) := debounce th in callDebounced cell wait th1
  else th.

(** No interval set, the state before any scan is started. *)
Definition no_intervals : intervals := Intervals None None [] 1.

Definition no_timers : timerHeap := TimerHeap [] [] 1.

(** ** The history of filtered content: [saveFilterHistory] *)

Record historyItem := HistoryItem {
  itemType : string;
  preview : string;
  originalContent : string;
  itemReasons : list string;
  timestamp : string;
  itemUrl : string;
  domain : string
}.

(** One call: its arguments ([reasons] is [None] when it is not an array)
    and what the call reads around it, [new Date().toISOString()],
    [window.location.href] and the host name of that address. *)
Record saveCall := SaveCall {
  callType : string;
  callContent : string;
  callReasons : option (list string);
  now : string;
  href : string;
  hostname : string
}.

(** [Array.isArray(reasons) ? reasons.filter(r => r) : ['Filtered content']]. *)
Definition validReasons (reasons : option (list string)) : list string :=
  match reasons with
  | Some rs => List.filter (fun r => negb (String.eqb r "")) rs
  | None => ["Filtered content"]
  end.

Definition historyPreview (type content : string) : string :=
  if String.eqb type "image"
  then "Image URL: " +:+ Js.substring 0 50 content +:+ "..."
  else Js.substring 0 100 content
       +:+ (if Nat.ltb 100 (String.length content) then "..." else "").

(** [chrome.storage.local], as far as the key [filterHistory] goes: the list
    stored ([[]] stands for no list), and the requests of the script that
    the store has not answered yet, each with what its callback holds: a
    read with the item of the call that asked for it, a write with the list
    to store. *)
Inductive storageRequest :=
| GetHistory (newItem : historyItem)
| SetHistory (history : list historyItem).

Record storage := Storage {
  filterHistory : list historyItem;
  waiting : list storageRequest
}.

(** [saveFilterHistory(type, content, reasons)] up to its return: the item
    is made and the read is asked for. *)
Definition saveFilterHistory (c : saveCall) (st : storage) : storage :=
  if String.eqb (callContent c) "" then st
  else
    let historyItem :=
      HistoryItem (callType c) (historyPreview (callType c) (callContent c))
                  (callContent c) (validReasons (callReasons c))
                  (now c) (href c) (hostname c) in
    Storage (filterHistory st) (waiting st ++ [GetHistory historyItem]).

(** The callback of [chrome.storage.local.get] for the item [newItem], run
    on the list [stored] that the store gives it: the list that it asks the
    store to write. *)
Definition historyRead (newItem : historyItem) (stored : list historyItem)
  : list historyItem :=
  let history := newItem :: stored in
  if Nat.ltb 100 (length history) then take 100 history else history.

(** The store answers the request in place [k] of those that wait.  A read
    runs its callback on the list stored at that moment, and the write that
    the callback asks for waits in its turn; a write replaces the list
    stored.  (The store refuses no request.) *)
Definition answer (k : nat) (st : storage) : storage :=
  match waiting st !! k with
  | Some (GetHistory newItem) =>
      Storage (filterHistory st)
              (delete k (waiting st)
               ++ [SetHistory (historyRead newItem (filterHistory st))])
  | Some (SetHistory history) => Storage history (delete k (waiting st))
  | None => st
  end.

(** A call whose read and whose write are answered before the script asks
    the store for anything else. *)
Definition savedInTurn (st : storage) (c : saveCall) : storage :=
  answer 0 (answer 0 (saveFilterHistory c st)).

(** Two calls in one turn: both reads wait before the store answers the
    first one, then the store answers the four requests in the order in
    which they were made. *)
Definition savedTogether (st : storage) (c1 c2 : saveCall) : storage :=
  let asked := saveFilterHistory c2 (saveFilterHistory c1 st) in
  answer 0 (answer 0 (answer 0 (answer 0 asked))).

(** The contents that a run of calls saves, the last one first. *)
Definition savedContents (calls : list saveCall) : list string :=
  rev (List.filter (fun x => negb (String.eqb x "")) (map callContent calls)).

(** ** The batches of the first sweep, one after the other *)

(** The batches of [applyImmediateBlurToAllImages] when each timer fires
    before anything else runs: [None] when [fuel] batches do not reach the
    end of the list. *)
Fixpoint runImageBatches {R : Resolver} (fuel : nat) (href : string) (images : list node)
    (startIndex : nat) (s : pstate) : option pstate :=
  match fuel with
  | O => None
  | S fuel' =>
      match processImageBatch href images startIndex s with
      | (s', Some endIndex) => runImageBatches fuel' href images endIndex s'
      | (s', None) => Some s'
      end
  end.

(** ** [processElementsWithDelay]: the check and the push

    The check of the processed set is in the callback of the timer of a
    batch, the push in a timer that this callback arms. *)
Definition seen (ty : itype) (h : nat) (s : pstate) : bool :=
  match ty with
  | Text => bool_decide (h ∈ textElementsProcessed s)
  | Image => bool_decide (h ∈ imageElementsProcessed s)
  end.

(** The callback of the timer of the batch that starts at index [i]: the
    timers it arms, each with its delay and its element.  It writes
    nothing. *)
Definition checkBatch (ty : itype) (elements : list nat) (i : nat) (s : pstate)
  : list (nat * nat) :=
  omap (fun j =>
          match elements !! j with
          | Some h => if seen ty h s then None else Some ((j mod 5) * 50, h)
          | None => None
          end)
       (seq i (Nat.min (i + 5) (length elements) - i)).

(** The callback of the timer armed for one element. *)
Definition pushElement (ty : itype) (h : nat) (st : document * pstate)
  : document * pstate :=
  let '(d, s) := st in
  let s1 := push (Item ty h None) s in
  let s2 :=
    match ty with
    | Text => set_textElementsProcessed ({[h]} ∪ textElementsProcessed s1) s1
    | Image => set_imageElementsProcessed ({[h]} ∪ imageElementsProcessed s1) s1
    end in
  (Document (modify h (fun e ks => (classAdd EXCLUSION_CLASS e, ks)) (body d)) (nextId d),
   s2).

(** ** A schedule that empties the queue

    Every promise of the batch in flight settles ([ok] tells which ones
    fulfil), the callback of [Promise.allSettled] runs, then the timer of
    the next batch fires; [n] is the number of items that the batch in
    flight and the queue hold together. *)
Definition settleAll (ok : nat -> bool) (k : nat) : list event :=
  map (fun i => EvSettle 0 i (ok i)) (seq 0 k).

Fixpoint drainFrom (fuel : nat) (ok : nat -> bool) (n : nat) : list event :=
  match fuel with
  | O => []
  | S fuel' =>
      settleAll ok (Nat.min BATCH_SIZE n)
      ++ EvAllSettled 0
      :: (if Nat.leb n BATCH_SIZE then []
          else EvTimer 0 :: drainFrom fuel' ok (n - BATCH_SIZE))
  end.

Definition drain (ok : nat -> bool) (n : nat) : list event :=
  if Nat.eqb n 0 then [] else EvInvoke :: drainFrom n ok n.

(** * Properties *)

(** ** The dispatcher *)

Lemma processNextBatch_guarded (s : pstate) :
  currentlyProcessing s = true \/ processingQueue s = [] \/ isEnabled s = false ->
  processNextBatch s = s.
Proof.
  intros H. unfold processNextBatch.
  destruct (currentlyProcessing s) eqn:Hc; [reflexivity|].
  destruct (processingQueue s) as [|it q] eqn:Hq; [reflexivity|].
  destruct (isEnabled s) eqn:He; [|reflexivity].
  destruct H as [H|[H|H]]; discriminate.
Qed.

Lemma processNextBatch_started (s : pstate) :
  processNextBatch s <> s ->
  currentlyProcessing s = false /\ isEnabled s = true /\ processingQueue s <> [] /\
  processNextBatch s =
    PState (isEnabled s) (backendRunning s) true (drop BATCH_SIZE (processingQueue s))
           (textElementsProcessed s) (imageElementsProcessed s)
           (fanins s ++ [map (fun it => (it, Pending)) (take BATCH_SIZE (processingQueue s))])
           (timers s).
Proof.
  intros H. unfold processNextBatch in *.
  destruct (currentlyProcessing s) eqn:Hc; simpl in H; [done|].
  destruct (processingQueue s) as [|it q] eqn:Hq; simpl in H; [done|].
  destruct (isEnabled s) eqn:He; simpl in H; [|done].
  simpl. rewrite Hq. split_and!; [done..|].
  unfold set_fanins, set_processingQueue, set_currentlyProcessing. simpl.
  by rewrite He.
Qed.

(** What one call of [processNextBatch] shows: nothing and the same flag,
    or one start out of the idle state. *)
Lemma invoke_single_flight (s s' : pstate) (o : list obs) :
  single_flight s -> invoke s = (s', o) ->
  single_flight s' /\
  ((o = [] /\ currentlyProcessing s' = currentlyProcessing s) \/
   (exists batch, o = [ObsStart batch] /\ currentlyProcessing s = false
                  /\ currentlyProcessing s' = true)).
Proof.
  intros Hs Hi. unfold invoke in Hi.
  destruct (decide (processNextBatch s = s)) as [Heq|Hne].
  - rewrite Heq in Hi.
    rewrite bool_decide_eq_false_2 in Hi by lia.
    assert (o = []) as -> by (destruct (last (fanins s)); congruence).
    assert (s' = s) as -> by (destruct (last (fanins s)); congruence).
    split; [done|]. by left.
  - destruct (processNextBatch_started s Hne) as (Hc & _ & _ & Heq).
    unfold single_flight in Hs. rewrite Hc in Hs.
    apply nil_length_inv in Hs.
    rewrite Heq in Hi. simpl in Hi. rewrite Hs in Hi. simpl in Hi.
    inversion Hi; subst; clear Hi.
    split; [done|]. right. eauto.
Qed.

Lemma step_single_flight (s s' : pstate) (e : event) (o : list obs) :
  single_flight s -> step s e = Some (s', o) ->
  single_flight s' /\
  ((o = [] /\ currentlyProcessing s' = currentlyProcessing s) \/
   (exists batch, o = [ObsStart batch] /\ currentlyProcessing s = false
                  /\ currentlyProcessing s' = true) \/
   (exists batch b, o = [ObsDone batch] /\ e = EvAllSettled b
                  /\ currentlyProcessing s = true /\ currentlyProcessing s' = false)).
Proof.
  intros Hs Hst. destruct e; simpl in Hst.
  - assert (invoke s = (s', o)) as Hi by congruence.
    destruct (invoke_single_flight _ _ _ Hs Hi) as [? [?|?]]; eauto.
  - destruct (timers s !! k); [|done].
    assert (invoke (set_timers (delete k (timers s)) s) = (s', o)) as Hi by congruence.
    assert (single_flight (set_timers (delete k (timers s)) s)) as Hs' by exact Hs.
    destruct (invoke_single_flight _ _ _ Hs' Hi) as [? [?|?]]; eauto.
  - destruct (fanins s !! b) as [B|] eqn:HB; [|done]. simpl in Hst.
    destruct (settle_in i ok B) as [B'|]; [|done]. simpl in Hst.
    inversion Hst; subst; clear Hst. split; [|by left].
    unfold single_flight in *. simpl. by rewrite length_insert.
  - destruct (fanins s !! b) as [B|] eqn:HB; [|done]. simpl in Hst.
    destruct (forallb _ B); [|done].
    inversion Hst; subst; clear Hst.
    apply lookup_lt_Some in HB. unfold single_flight in Hs.
    destruct (currentlyProcessing s) eqn:Hc; [|lia].
    assert (length (delete b (fanins s)) = 0) as Hd.
    { destruct (fanins s) as [|B0 [|B1 f]]; simpl in *; try lia.
      destruct b; simpl in *; [done|lia]. }
    split.
    + unfold single_flight, batchComplete. simpl.
      destruct (Nat.ltb 0 (length (processingQueue s))); simpl; exact Hd.
    + right. right. exists (B.*1), b. repeat split; try done.
      unfold batchComplete. simpl.
      by destruct (Nat.ltb 0 (length (processingQueue s))).
  - inversion Hst; subst. split; [exact Hs|by left].
  - inversion Hst; subst. split; [exact Hs|by left].
Qed.

Lemma run_single_flight (tr : list event) (s s' : pstate) (log : list obs) :
  single_flight s -> run s tr = Some (s', log) ->
  single_flight s' /\ alternates (negb (currentlyProcessing s)) log = true.
Proof.
  revert s s' log. induction tr as [|e tr IH]; intros s s' log Hs Hr; simpl in Hr.
  - inversion Hr; subst. done.
  - destruct (step s e) as [[s1 o1]|] eqn:Hst; [|done]. simpl in Hr.
    destruct (run s1 tr) as [[s2 o2]|] eqn:Hr1; [|done]. simpl in Hr.
    inversion Hr; subst; clear Hr.
    destruct (step_single_flight _ _ _ _ Hs Hst) as [Hs1 Ho].
    destruct (IH _ _ _ Hs1 Hr1) as [Hs2 Ha]. split; [done|].
    destruct Ho as [[-> Hc]|[(batch & -> & Hc & Hc1)|(batch & b & -> & _ & Hc & Hc1)]].
    + simpl. by rewrite <- Hc.
    + simpl. rewrite Hc. simpl. by rewrite Hc1 in Ha.
    + simpl. rewrite Hc. simpl. by rewrite Hc1 in Ha.
Qed.

(** C1. In a state where a dispatch cycle is running, or the queue is
    empty, or the pipeline is disabled, a call of [processNextBatch] changes
    nothing: no batch starts (no new fan-in, no start observed) and the
    queue keeps its length and its contents. *)
Theorem processNextBatch_noop (s : pstate) :
  currentlyProcessing s = true \/ processingQueue s = [] \/ isEnabled s = false ->
  processNextBatch s = s /\
  fanins (processNextBatch s) = fanins s /\
  processingQueue (processNextBatch s) = processingQueue s /\
  length (processingQueue (processNextBatch s)) = length (processingQueue s) /\
  invoke s = (s, []).
Proof.
  intros H. pose proof (processNextBatch_guarded s H) as Heq.
  rewrite Heq. split_and!; try reflexivity.
  unfold invoke. rewrite Heq.
  rewrite bool_decide_eq_false_2 by lia.
  by destruct (last (fanins s)).
Qed.

Lemma processNextBatch_noop_witness :
  currentlyProcessing busy_state = true /\
  processNextBatch busy_state = busy_state /\
  length (processingQueue (processNextBatch busy_state)) = 12.
Proof.
  split; [reflexivity|].
  destruct (processNextBatch_noop busy_state) as (H1 & _ & _ & H4 & _).
  - left. reflexivity.
  - split; [exact H1|]. rewrite H4. reflexivity.
Defined.

Lemma take_drop_batch {A} (n : nat) (q : list A) :
  q <> [] -> 0 < n ->
  q = take n q ++ drop n q /\ 0 < length (take n q) <= n /\
  (length (take n q) = n \/ drop n q = []).
Proof.
  intros Hq Hn. split; [by rewrite take_drop|].
  rewrite length_take. split.
  - destruct q; [done|]. simpl. lia.
  - destruct (decide (n <= length q)) as [Hle|Hgt]; [left; lia|].
    right. apply drop_ge. lia.
Qed.

Lemma fst_pending (l : list item) : (map (fun it => (it, Pending)) l).*1 = l.
Proof. induction l as [|it l IH]; [done|]. cbn. f_equal. exact IH. Qed.

(** C2. Along every run of the dispatcher from an idle state: starts and
    completions of batches alternate, so a batch never starts before the
    fan-in of the one before has completed; a batch that starts takes the
    first 10 items of the queue at most, in order (all of them when fewer
    wait), with one pending promise for each; the completion callback runs
    only when every promise of the batch has settled, and only it clears the
    flag; it arms the timer of the next batch exactly when items wait. *)
Theorem dispatch_cycles_sequential (s0 s : pstate) (tr : list event) (log : list obs) :
  currentlyProcessing s0 = false -> fanins s0 = [] ->
  run s0 tr = Some (s, log) ->
  alternates true log = true /\
  length (fanins s) = (if currentlyProcessing s then 1 else 0) /\
  (processNextBatch s <> s ->
     fanins s = [] /\
     exists batch,
       processingQueue s = batch ++ processingQueue (processNextBatch s) /\
       0 < length batch <= 10 /\
       (length batch = 10 \/ processingQueue (processNextBatch s) = []) /\
       fanins (processNextBatch s) = [map (fun it => (it, Pending)) batch] /\
       invoke s = (processNextBatch s, [ObsStart batch]) /\
       currentlyProcessing (processNextBatch s) = true) /\
  (forall b s' o, step s (EvAllSettled b) = Some (s', o) ->
     exists B,
       fanins s = [B] /\ Forall (fun p => settled p.2 = true) B /\
       o = [ObsDone (B.*1)] /\
       currentlyProcessing s = true /\ currentlyProcessing s' = false /\
       fanins s' = [] /\ processingQueue s' = processingQueue s /\
       timers s' = timers s ++
                   (if bool_decide (processingQueue s = []) then [] else [BATCH_DELAY])) /\
  (forall e s' o, step s e = Some (s', o) ->
     currentlyProcessing s = true -> currentlyProcessing s' = false ->
     exists b, e = EvAllSettled b).
Proof.
  intros Hc0 Hf0 Hrun.
  assert (single_flight s0) as Hs0 by (unfold single_flight; by rewrite Hc0, Hf0).
  destruct (run_single_flight _ _ _ _ Hs0 Hrun) as [Hs Halt].
  rewrite Hc0 in Halt. split; [exact Halt|]. split; [exact Hs|].
  split; [|split].
  - intros Hne. destruct (processNextBatch_started s Hne) as (Hc & He & Hq & Heq).
    unfold single_flight in Hs. rewrite Hc in Hs. apply nil_length_inv in Hs.
    split; [exact Hs|]. exists (take BATCH_SIZE (processingQueue s)).
    destruct (take_drop_batch BATCH_SIZE (processingQueue s) Hq) as (H1 & H2 & H3);
      [unfold BATCH_SIZE; lia|].
    unfold invoke. rewrite Heq. simpl. rewrite Hs. simpl.
    rewrite fst_pending.
    unfold BATCH_SIZE in *. split_and!; try done; try lia.
  - intros b s' o Hst. simpl in Hst.
    destruct (fanins s !! b) as [B|] eqn:HB; [|done]. simpl in Hst.
    destruct (forallb _ B) eqn:HfB; [|done].
    inversion Hst; subst; clear Hst.
    unfold single_flight in Hs.
    pose proof (lookup_lt_Some _ _ _ HB) as Hlt.
    destruct (currentlyProcessing s) eqn:Hc; [|lia].
    destruct (fanins s) as [|B0 [|B1 f]] eqn:Hf; simpl in *; try lia.
    destruct b; simpl in *; [|lia]. inversion HB; subst.
    exists B.
    assert (Forall (fun p => settled p.2 = true) B) as HF.
    { apply Forall_forall. intros p Hp.
      rewrite forallb_forall in HfB. apply HfB. by apply list_elem_of_In. }
    unfold batchComplete; simpl.
    destruct (processingQueue s) as [|it q] eqn:Hq; simpl; split_and!; try done.
    by rewrite app_nil_r.
  - intros e s' o Hst Hc Hc'.
    destruct (step_single_flight _ _ _ _ Hs Hst)
      as [_ [[_ H]|[(batch & _ & H & _)|(batch & b & _ & -> & _)]]]; [congruence..|eauto].
Qed.

Lemma dispatch_cycles_sequential_witness :
  exists s log,
    run idle_state sample_trace = Some (s, log) /\
    log = [ObsStart (take 10 sample_items); ObsDone (take 10 sample_items);
           ObsStart (drop 10 sample_items)] /\
    alternates true log = true /\
    length (fanins s) = (if currentlyProcessing s then 1 else 0).
Proof.
  destruct (run idle_state sample_trace) as [[s log]|] eqn:Hrun;
    [|vm_compute in Hrun; discriminate].
  exists s, log.
  destruct (dispatch_cycles_sequential idle_state s sample_trace log
              eq_refl eq_refl Hrun) as (H1 & H2 & _).
  vm_compute in Hrun. inversion Hrun; subst.
  split_and!; [reflexivity|reflexivity|exact H1|exact H2].
Defined.

(** ** Strings *)

#[local] Arguments String.append !_ _ / : simpl nomatch.

Lemma allAscii_complete (c : ascii) : In c allAscii.
Proof.
  unfold allAscii. apply in_map_iff. exists (nat_of_ascii c). split.
  - apply ascii_nat_embedding.
  - apply in_seq. pose proof (nat_ascii_bounded c). lia.
Qed.

Lemma forall_ascii (P : ascii -> bool) :
  forallb P allAscii = true -> forall c, P c = true.
Proof. intros H c. rewrite forallb_forall in H. apply H, allAscii_complete. Qed.

Lemma lower_idempotent (c : ascii) : Js.lower (Js.lower c) = Js.lower c.
Proof.
  apply Ascii.eqb_eq. revert c.
  apply (forall_ascii (fun c => Ascii.eqb (Js.lower (Js.lower c)) (Js.lower c))).
  vm_compute. reflexivity.
Qed.

Lemma isWordChar_lower (c : ascii) : Js.isWordChar (Js.lower c) = Js.isWordChar c.
Proof.
  apply Bool.eqb_prop. revert c.
  apply (forall_ascii (fun c => Bool.eqb (Js.isWordChar (Js.lower c)) (Js.isWordChar c))).
  vm_compute. reflexivity.
Qed.

(** A small letter or a space matches, under flag [i], a character that
    [toLowerCase] leaves alone only when the two are equal. *)
Lemma canonicalize_rigid (a b : ascii) :
  smallLetter a || Ascii.eqb a " " = true -> Js.lower b = b ->
  Js.canonicalize a = Js.canonicalize b -> a = b.
Proof.
  intros Ha Hb Hc. apply Ascii.eqb_eq.
  assert (implb ((smallLetter a || Ascii.eqb a " ")
                 && Ascii.eqb (Js.lower b) b
                 && Ascii.eqb (Js.canonicalize a) (Js.canonicalize b))
                (Ascii.eqb a b) = true) as H.
  { revert b Hb Hc.
    revert a Ha.
    assert (forall a, forallb (fun b =>
              implb ((smallLetter a || Ascii.eqb a " ")
                     && Ascii.eqb (Js.lower b) b
                     && Ascii.eqb (Js.canonicalize a) (Js.canonicalize b))
                    (Ascii.eqb a b)) allAscii = true) as Hall.
    { apply (forall_ascii (fun a => forallb (fun b =>
              implb ((smallLetter a || Ascii.eqb a " ")
                     && Ascii.eqb (Js.lower b) b
                     && Ascii.eqb (Js.canonicalize a) (Js.canonicalize b))
                    (Ascii.eqb a b)) allAscii)).
      vm_compute. reflexivity. }
    intros a _ b _ _. specialize (Hall a). rewrite forallb_forall in Hall.
    apply Hall, allAscii_complete. }
  rewrite Ha in H. apply Ascii.eqb_eq in Hb, Hc. rewrite Hb, Hc in H. exact H.
Qed.

Lemma smallLetter_word (c : ascii) : smallLetter c = true -> Js.isWordChar c = true.
Proof. intros H. unfold Js.isWordChar. unfold smallLetter in H. by rewrite H. Qed.

Lemma app_nil_r_string (s : string) : s +:+ "" = s.
Proof. induction s as [|c s IH]; simpl; [done|]. by rewrite IH. Qed.

Lemma toLowerCase_app (a b : string) :
  Js.toLowerCase (a +:+ b) = Js.toLowerCase a +:+ Js.toLowerCase b.
Proof. induction a as [|x a IH]; simpl; [done|]. by rewrite IH. Qed.

Lemma toLowerCase_app_inv (t x y : string) :
  Js.toLowerCase t = x +:+ y ->
  exists a b, t = a +:+ b /\ Js.toLowerCase a = x /\ Js.toLowerCase b = y.
Proof.
  revert t. induction x as [|c x IH]; intros t H; simpl in H.
  - exists "", t. done.
  - destruct t as [|d t]; simpl in H; [done|].
    inversion H as [[Hc Ht]]. destruct (IH t Ht) as (a & b & -> & Ha & Hb).
    exists (String d a), b. simpl. rewrite Ha, Hb. done.
Qed.

Lemma toLowerCase_lowered (t : string) :
  allChars (fun b => Ascii.eqb (Js.lower b) b) (Js.toLowerCase t) = true.
Proof.
  induction t as [|c t IH]; simpl; [done|].
  rewrite lower_idempotent, Ascii.eqb_refl. exact IH.
Qed.

Lemma head_toLowerCase (t : string) :
  notWord (Js.head (Js.toLowerCase t)) <-> notWord (Js.head t).
Proof.
  destruct t as [|c t]; simpl; [done|]. unfold notWord. simpl.
  by rewrite isWordChar_lower.
Qed.

Lemma lastChar_toLowerCase (t : string) :
  notWord (lastChar (Js.toLowerCase t)) <-> notWord (lastChar t).
Proof.
  induction t as [|c t IH]; simpl; [done|].
  destruct t as [|d t]; simpl in *.
  - unfold notWord. simpl. by rewrite isWordChar_lower.
  - exact IH.
Qed.

Lemma lastChar_cons (c : ascii) (s : string) : is_Some (lastChar (String c s)).
Proof.
  revert c. induction s as [|d s IH]; intros c; [by eexists|].
  change (lastChar (String c (String d s))) with (lastChar (String d s)). apply IH.
Qed.

Lemma lastOr_cons (prev : option ascii) (c : ascii) (s : string) :
  lastOr prev (String c s) = lastOr (Some c) s.
Proof.
  unfold lastOr. destruct s as [|d s]; [done|].
  change (lastChar (String c (String d s))) with (lastChar (String d s)).
  by destruct (lastChar_cons d s) as [x ->].
Qed.

(** [matchLiteral] on a text that [toLowerCase] leaves alone. *)
Lemma matchLiteral_spec (w s rest : string) (prev last : option ascii) :
  allChars (fun c => smallLetter c || Ascii.eqb c " ") w = true ->
  allChars (fun b => Ascii.eqb (Js.lower b) b) s = true ->
  Js.matchLiteral prev w s = Some (last, rest) <->
  s = w +:+ rest /\ last = lastOr prev w.
Proof.
  revert s prev. induction w as [|a w IH]; intros s prev Hw Hs; simpl.
  - unfold lastOr. simpl. split; [intros [= -> ->]; done|intros [-> ->]; done].
  - simpl in Hw. apply andb_prop in Hw as [Ha Hw].
    destruct s as [|b s]; [split; [done|intros [? _]; done]|].
    simpl in Hs. apply andb_prop in Hs as [Hb Hs]. apply Ascii.eqb_eq in Hb.
    rewrite lastOr_cons.
    destruct (Ascii.eqb (Js.canonicalize a) (Js.canonicalize b)) eqn:Hab.
    + apply Ascii.eqb_eq in Hab.
      pose proof (canonicalize_rigid a b Ha Hb Hab) as ->.
      rewrite (IH s (Some b) Hw Hs). split.
      * intros [-> ->]. done.
      * intros [[= ->] ->]. done.
    + split; [done|]. intros [[= -> _] _].
      rewrite Ascii.eqb_refl in Hab. done.
Qed.

Lemma plainWord_inv (w : string) :
  plainWord w = true ->
  allChars (fun c => smallLetter c || Ascii.eqb c " ") w = true /\
  (exists c w', w = String c w' /\ Js.isWordChar c = true) /\
  (exists c, lastChar w = Some c /\ Js.isWordChar c = true).
Proof.
  unfold plainWord. intros H.
  apply andb_prop in H as [H H3]. apply andb_prop in H as [H1 H2].
  split; [exact H1|]. split.
  - destruct w as [|c w']; simpl in H2; [done|]. eauto using smallLetter_word.
  - destruct (lastChar w) as [c|]; simpl in H3; [|done]. eauto using smallLetter_word.
Qed.

Lemma matchHere_spec (w s : string) (prev : option ascii) :
  plainWord w = true ->
  allChars (fun b => Ascii.eqb (Js.lower b) b) s = true ->
  Js.matchHere prev w s = true <->
  exists post, s = w +:+ post /\ notWord prev /\ notWord (Js.head post).
Proof.
  intros Hw Hs.
  destruct (plainWord_inv w Hw) as (Hall & (c & w' & Hcw & Hc) & (l & Hl & Hlw)).
  unfold Js.matchHere. split.
  - intros H. apply andb_prop in H as [Hb1 H].
    destruct (Js.matchLiteral prev w s) as [[last rest]|] eqn:Hm; [|done].
    apply (matchLiteral_spec w s rest prev last Hall Hs) in Hm as [-> ->].
    exists rest. split; [done|].
    unfold lastOr in H. rewrite Hl in H.
    rewrite Hcw in Hb1. simpl in Hb1. unfold Js.wordBoundary in *. simpl in *.
    rewrite Hc in Hb1. rewrite Hlw in H. unfold notWord.
    destruct (from_option Js.isWordChar false prev); [done|].
    destruct (from_option Js.isWordChar false (Js.head rest)); done.
  - intros (post & -> & Hp & Hn).
    assert (Js.matchLiteral prev w (w +:+ post) = Some (lastOr prev w, post)) as ->.
    { apply (matchLiteral_spec w _ post prev _ Hall Hs). done. }
    unfold lastOr. rewrite Hl. rewrite Hcw. simpl.
    unfold Js.wordBoundary. simpl. rewrite Hc, Hlw.
    unfold notWord in *. rewrite Hp, Hn. done.
Qed.

Lemma allChars_tail (P : ascii -> bool) (c : ascii) (s : string) :
  allChars P (String c s) = true -> allChars P s = true.
Proof. simpl. intros H. by apply andb_prop in H as [_ H]. Qed.

Lemma searchFrom_spec (w s : string) (prev : option ascii) :
  plainWord w = true ->
  allChars (fun b => Ascii.eqb (Js.lower b) b) s = true ->
  Js.searchFrom prev w s = true <->
  exists pre post, s = pre +:+ w +:+ post /\
                   notWord (lastOr prev pre) /\ notWord (Js.head post).
Proof.
  intros Hw. revert prev. induction s as [|c s IH]; intros prev Hs.
  - simpl. rewrite orb_false_r. rewrite (matchHere_spec w "" prev Hw Hs). split.
    + intros (post & H & Hp & Hn). exists "", post. done.
    + intros (pre & post & H & Hp & Hn).
      destruct pre; [|done]. exists post. done.
  - simpl. rewrite orb_true_iff.
    rewrite (matchHere_spec w _ prev Hw Hs).
    rewrite (IH (Some c) (allChars_tail _ _ _ Hs)). split.
    + intros [(post & H & Hp & Hn)|(pre & post & H & Hp & Hn)].
      * exists "", post. done.
      * exists (String c pre), post. simpl. rewrite H, lastOr_cons. done.
    + intros (pre & post & H & Hp & Hn). destruct pre as [|d pre].
      * left. exists post. done.
      * right. simpl in H. inversion H; subst. rewrite lastOr_cons in Hp.
        exists pre, post. done.
Qed.

(** The regular expression of the fallback, on the lowered text, finds
    exactly the whole words. *)
Lemma testWholeWord_holdsWord (w text : string) :
  plainWord w = true ->
  Js.testWholeWord w (Js.toLowerCase text) = true <-> holdsWord w text.
Proof.
  intros Hw. unfold Js.testWholeWord.
  rewrite (searchFrom_spec w _ None Hw (toLowerCase_lowered text)).
  destruct (plainWord_inv w Hw) as (Hall & _ & _).
  unfold holdsWord. split.
  - intros (pre & post & H & Hp & Hn).
    apply toLowerCase_app_inv in H as (a & b & -> & Ha & Hb).
    apply toLowerCase_app_inv in Hb as (m & p & -> & Hm & Hb).
    exists a, m, p. split; [done|]. split; [done|].
    subst. unfold lastOr in Hp.
    split; [|by apply head_toLowerCase].
    apply lastChar_toLowerCase. by destruct (lastChar (Js.toLowerCase a)).
  - intros (pre & mid & post & -> & Hm & Hp & Hn).
    exists (Js.toLowerCase pre), (Js.toLowerCase post).
    rewrite !toLowerCase_app, Hm. split; [done|].
    split; [|by apply head_toLowerCase].
    apply lastChar_toLowerCase in Hp. unfold lastOr.
    by destruct (lastChar (Js.toLowerCase pre)).
Qed.

(** ** The text fallback *)

Lemma listed_words_plain :
  forallb plainWord (profanityWords ++ hateWords) = true.
Proof. vm_compute. reflexivity. Qed.

Lemma fallback_detects (text : string) :
  isProfanity (Js.toLowerCase text) || isHateSpeech (Js.toLowerCase text) = true <->
  exists w, In w (profanityWords ++ hateWords) /\ holdsWord w text.
Proof.
  unfold isProfanity, isHateSpeech. rewrite <- existsb_app, existsb_exists.
  pose proof listed_words_plain as Hp. rewrite forallb_forall in Hp.
  split; intros (w & Hw & H); exists w; (split; [exact Hw|]);
    by apply (testWholeWord_holdsWord w text (Hp w Hw)).
Qed.

Lemma fallbackReasons_nonempty (lowerText : string) :
  isProfanity lowerText || isHateSpeech lowerText = true ->
  fallbackReasons lowerText <> [].
Proof.
  unfold fallbackReasons. intros H.
  destruct (isProfanity lowerText); [done|].
  destruct (isHateSpeech lowerText); done.
Qed.

Lemma processTextElement_start_eligible (s : pstate) (href : string) (h : nat)
    (d : document) (n : node) :
  findF h (body d) = Some n ->
  5 <= String.length (Js.trim (textContent n)) ->
  processTextElement_start s href h d =
    (Document (modify h (fun e ks =>
                 (setAttribute "data-original-text" (Js.trim (textContent n)) e, ks))
                 (body d)) (nextId d),
     inr (Js.trim (textContent n),
          Request (API_BASE_URL +:+ "/analyze_text") (Js.trim (textContent n)) href)).
Proof.
  intros Hf Hlen. unfold processTextElement_start. rewrite Hf.
  destruct (Js.trim (textContent n)) as [|c t] eqn:Ht; [simpl in Hlen; lia|].
  rewrite bool_decide_eq_false_2 by done.
  destruct (Nat.ltb_spec (String.length (String c t)) 5) as [Hlt|_]; [lia|].
  reflexivity.
Qed.

(** The fallback of [analyzeTextContent], which nothing calls, works
    otherwise: it finds "ass" inside "class". *)
Lemma analyzeTextContent_fallback_substring :
  analyzeTextContent_fallback "I passed the class"
  = ("remove", ["Profanity detected (client-side fallback)"]) /\
  ~ holdsWord "ass" "I passed the class".
Proof.
  split; [vm_compute; reflexivity|].
  intros H. apply (testWholeWord_holdsWord "ass") in H; [|vm_compute; reflexivity].
  vm_compute in H. discriminate.
Qed.

(** C3. When the request of [processTextElement] fails, the outcome for
    a text is decided by whole words, whatever the case of the letters: the
    fallback filters the element (verdict [remove], with a reason) when the
    text holds one of the listed profanity or hate words as a whole word,
    and keeps it, with the page as it is, when the text holds none.  For an
    element of the page with 5 characters or more, that is what the whole
    function does with the trimmed text of the element. *)
Theorem fallback_whole_word (near : nat -> nat -> bool) (s : pstate) (h : nat)
    (text : string) (d : document) :
  let listed := exists w, In w (profanityWords ++ hateWords) /\ holdsWord w text in
  let res := processTextElement_resume near s h text Failed d in
  (listed ->
     exists reasons,
       reasons <> [] /\
       res = (applyTextFilter near h "[Content filtered - click indicator to view]"
                reasons d,
              filtered "remove" reasons)) /\
  (~ listed -> res = (d, kept)) /\
  (forall href d0 n,
     findF h (body d0) = Some n ->
     5 <= String.length (Js.trim (textContent n)) ->
     text = Js.trim (textContent n) ->
     d = (processTextElement_start s href h d0).1 ->
     processTextElement near s href h (fun _ => Failed) d0 = res).
Proof.
  intros listed res. subst res.
  pose proof (fallback_detects text) as Hdet. fold listed in Hdet.
  unfold processTextElement_resume.
  destruct (isProfanity (Js.toLowerCase text) || isHateSpeech (Js.toLowerCase text)) eqn:Hb.
  - split_and!.
    + intros _. exists (fallbackReasons (Js.toLowerCase text)).
      split; [by apply fallbackReasons_nonempty|done].
    + intros Hn. exfalso. apply Hn, Hdet. done.
    + intros href d0 n Hf Hlen -> ->.
      unfold processTextElement.
      rewrite (processTextElement_start_eligible s href h d0 n Hf Hlen). simpl.
      by rewrite Hb.
  - split_and!.
    + intros Hl. apply Hdet in Hl. done.
    + done.
    + intros href d0 n Hf Hlen -> ->.
      unfold processTextElement.
      rewrite (processTextElement_start_eligible s href h d0 n Hf Hlen). simpl.
      by rewrite Hb.
Qed.

(** ** The page: structural lemmas *)

Lemma node_induction (P : node -> Prop) :
  (forall s, P (TextNode s)) ->
  (forall i e ks, Forall P ks -> P (Element i e ks)) ->
  forall n, P n.
Proof.
  intros Ht He. fix IH 1. intros [s|i e ks]; [apply Ht|].
  apply He. induction ks as [|k ks IHks]; constructor; [apply IH|exact IHks].
Qed.

Lemma find_Element (h i : nat) (e : edata) (ks : list node) :
  find h (Element i e ks) =
  if bool_decide (i = h) then Some (Element i e ks) else findF h ks.
Proof. reflexivity. Qed.

Lemma rw_Element (f : nat -> edata -> list node -> action) (i : nat) (e : edata)
    (ks : list node) :
  rw f (Element i e ks) =
  match f i e ks with
  | Replace r => r
  | Descend e' => [Element i e' (rwF f ks)]
  end.
Proof. reflexivity. Qed.

Lemma select_Element (p : edata -> bool) (i : nat) (e : edata) (ks : list node) :
  select p (Element i e ks) = (if p e then [Element i e ks] else []) ++ selectF p ks.
Proof. reflexivity. Qed.

Lemma findF_cons (h : nat) (k : node) (l : list node) :
  findF h (k :: l) = match find h k with Some x => Some x | None => findF h l end.
Proof. reflexivity. Qed.

Lemma rwF_cons (f : nat -> edata -> list node -> action) (k : node) (l : list node) :
  rwF f (k :: l) = rw f k ++ rwF f l.
Proof. reflexivity. Qed.

Lemma selectF_cons (p : edata -> bool) (k : node) (l : list node) :
  selectF p (k :: l) = select p k ++ selectF p l.
Proof. reflexivity. Qed.

Lemma findF_app (h : nat) (l1 l2 : list node) :
  findF h (l1 ++ l2) =
  match findF h l1 with Some x => Some x | None => findF h l2 end.
Proof.
  induction l1 as [|k l1 IH]; [done|].
  rewrite <- app_comm_cons, !findF_cons. destruct (find h k); [done|exact IH].
Qed.

Lemma selectF_app (p : edata -> bool) (l1 l2 : list node) :
  selectF p (l1 ++ l2) = selectF p l1 ++ selectF p l2.
Proof.
  induction l1 as [|k l1 IH]; [done|].
  rewrite <- app_comm_cons, !selectF_cons, IH. by rewrite app_assoc.
Qed.

Lemma located_findF (ok : edata -> Prop) (h : nat) (d : list node) (e : edata)
    (ks : list node) :
  located ok h d e ks -> findF h d = Some (Element h e ks).
Proof.
  induction 1 as [e ks rest|i a kids rest e ks Hi Ha Hl IH|n rest e ks Hn Hl IH].
  - rewrite findF_cons, find_Element. by rewrite bool_decide_eq_true_2.
  - rewrite findF_cons, find_Element. rewrite bool_decide_eq_false_2 by done.
    by rewrite IH.
  - rewrite findF_cons, Hn. exact IH.
Qed.

Lemma located_app (ok : edata -> Prop) (h : nat) (l1 l2 : list node) (e : edata)
    (ks : list node) :
  findF h l1 = None -> located ok h l2 e ks -> located ok h (l1 ++ l2) e ks.
Proof.
  intros Hn Hl. induction l1 as [|k l1 IH]; [exact Hl|].
  rewrite findF_cons in Hn. destruct (find h k) eqn:Hk; [done|].
  rewrite <- app_comm_cons. apply located_next; [exact Hk|]. by apply IH.
Qed.

Section Rewriting.

Variable f : nat -> edata -> list node -> action.
Variable h : nat.

(** What [f] puts in the place of an element without [h] is without [h]. *)
Hypothesis replace_fresh :
  forall i e ks r,
    f i e ks = Replace r -> find h (Element i e ks) = None -> findF h r = None.

Lemma rw_find_none (n : node) : find h n = None -> findF h (rw f n) = None.
Proof.
  induction n as [s|i e ks IH] using node_induction; intros Hn; [done|].
  rewrite rw_Element. destruct (f i e ks) as [r|e'] eqn:Hf.
  - by apply (replace_fresh i e ks).
  - rewrite find_Element in Hn. destruct (bool_decide (i = h)) eqn:Hi; [done|].
    rewrite findF_cons, find_Element, Hi.
    assert (findF h (rwF f ks) = None) as ->; [|done].
    clear Hf. induction ks as [|k ks IHks]; [done|].
    rewrite findF_cons in Hn. destruct (find h k) eqn:Hk; [done|].
    inversion IH as [|? ? Hk' Hks']; subst.
    rewrite rwF_cons, findF_app, (Hk' Hk). by apply IHks.
Qed.

Variables ok ok' : edata -> Prop.

(** [f] goes through the ancestors of [h]. *)
Hypothesis through :
  forall i a ks, i <> h -> ok a -> exists a', f i a ks = Descend a' /\ ok' a'.

Lemma rwF_located (d : list node) (e e' : edata) (ks ks' r : list node) :
  rw f (Element h e ks) = Element h e' ks' :: r ->
  located ok h d e ks -> located ok' h (rwF f d) e' ks'.
Proof.
  intros Hrw Hl.
  induction Hl as [e ks rest|i a kids rest e ks Hi Ha Hl IH|n rest e ks Hn Hl IH].
  - rewrite rwF_cons, Hrw. apply located_here.
  - rewrite rwF_cons, rw_Element.
    destruct (through i a kids Hi Ha) as (a' & -> & Ha').
    apply located_down; [exact Hi|exact Ha'|]. by apply IH.
  - rewrite rwF_cons. apply located_app; [by apply rw_find_none|]. by apply IH.
Qed.

End Rewriting.

Lemma modify_located (ok : edata -> Prop) (h : nat)
    (g : edata -> list node -> edata * list node) (d : list node) (e : edata)
    (ks : list node) :
  located ok h d e ks -> located ok h (modify h g d) (g e ks).1 (g e ks).2.
Proof.
  intros Hl. unfold modify.
  eapply (rwF_located _ h) with (ok := ok) (ok' := ok) (r := []); [| |  |exact Hl].
  - intros i a ks0 r Hf Hn. rewrite find_Element in Hn.
    destruct (bool_decide (i = h)); done.
  - intros i a ks0 Hi Ha. exists a. by rewrite bool_decide_eq_false_2.
  - rewrite rw_Element, bool_decide_eq_true_2 by done. by destruct (g e ks).
Qed.

Lemma insertAfter_located (ok : edata -> Prop) (h : nat) (x : node) (d : list node)
    (e : edata) (ks : list node) :
  located ok h d e ks -> located ok h (insertAfter h x d) e ks.
Proof.
  intros Hl. unfold insertAfter.
  eapply (rwF_located _ h) with (ok := ok) (ok' := ok) (r := [x]); [| | |exact Hl].
  - intros i a ks0 r Hf Hn. rewrite find_Element in Hn.
    destruct (bool_decide (i = h)); done.
  - intros i a ks0 Hi Ha. exists a. by rewrite bool_decide_eq_false_2.
  - rewrite rw_Element, bool_decide_eq_true_2 by done. done.
Qed.

Lemma removeAll_located (ok : edata -> Prop) (h : nat) (p : nat -> edata -> bool)
    (d : list node) (e : edata) (ks : list node) :
  (forall i a, i <> h -> ok a -> p i a = false) -> p h e = false ->
  located ok h d e ks -> located ok h (removeAll p d) e (removeAll p ks).
Proof.
  intros Hok Hp Hl. unfold removeAll.
  eapply (rwF_located _ h) with (ok := ok) (ok' := ok) (r := []); [| |  |exact Hl].
  - intros i a ks0 r Hf Hn. destruct (p i a); by inversion Hf.
  - intros i a ks0 Hi Ha. exists a. by rewrite (Hok i a Hi Ha).
  - rewrite rw_Element, Hp. done.
Qed.

(** The children written by [el.textContent = s] hold no element: the
    loops over elements leave them alone. *)
Lemma rwF_setTextContent (f : nat -> edata -> list node -> action) (s : string) :
  rwF f (setTextContent s) = setTextContent s.
Proof. unfold setTextContent. by destruct (bool_decide (s = "")). Qed.

Lemma removeAll_located_text (ok : edata -> Prop) (h : nat) (p : nat -> edata -> bool)
    (d : list node) (e : edata) (s : string) :
  (forall i a, i <> h -> ok a -> p i a = false) -> p h e = false ->
  located ok h d e (setTextContent s) ->
  located ok h (removeAll p d) e (setTextContent s).
Proof.
  intros Hok Hp Hl.
  pose proof (removeAll_located ok h p d e (setTextContent s) Hok Hp Hl) as H.
  unfold removeAll in H at 2. by rewrite rwF_setTextContent in H.
Qed.

(** Classes and attributes under the writes of the script. *)
Lemma contains_classAdd (c c' : string) (e : edata) :
  contains c (classAdd c' e) = contains c e || bool_decide (c = c').
Proof.
  unfold classAdd, contains. destruct (bool_decide (c' ∈ classList e)) eqn:Hc'.
  - apply bool_decide_eq_true in Hc'.
    destruct (bool_decide (c = c')) eqn:Hcc; [|by rewrite orb_false_r].
    apply bool_decide_eq_true in Hcc as ->. by rewrite bool_decide_eq_true_2.
  - simpl. destruct (bool_decide (c ∈ classList e)) eqn:Hc; simpl.
    + apply bool_decide_eq_true in Hc. apply bool_decide_eq_true_2.
      apply elem_of_app. by left.
    + apply bool_decide_eq_false in Hc. apply bool_decide_ext.
      rewrite elem_of_app, list_elem_of_singleton. tauto.
Qed.

Lemma contains_classRemove (c c' : string) (e : edata) :
  contains c (classRemove c' e) = contains c e && negb (bool_decide (c = c')).
Proof.
  unfold classRemove, contains. simpl.
  destruct (bool_decide (c = c')) eqn:Hcc.
  - apply bool_decide_eq_true in Hcc as ->. rewrite andb_false_r.
    apply bool_decide_eq_false_2. rewrite list_elem_of_filter. tauto.
  - apply bool_decide_eq_false in Hcc. rewrite andb_true_r.
    apply bool_decide_ext. rewrite list_elem_of_filter. tauto.
Qed.

Lemma getAttribute_classAdd (k c : string) (e : edata) :
  getAttribute k (classAdd c e) = getAttribute k e.
Proof. unfold classAdd. by destruct (contains c e). Qed.

Lemma unmarked_contains (e : edata) (c : string) :
  unmarked e -> In c markerClasses -> contains c e = false.
Proof. intros Hu Hc. apply bool_decide_eq_false_2. by apply Hu. Qed.

Lemma find_located (h : nat) (n x : node) :
  find h n = Some x ->
  exists e ks, x = Element h e ks /\
               forall rest, located (fun _ => True) h (n :: rest) e ks.
Proof.
  revert x. induction n as [s|i a kids IH] using node_induction; intros x Hx; [done|].
  rewrite find_Element in Hx. destruct (bool_decide (i = h)) eqn:Hi.
  - apply bool_decide_eq_true in Hi as ->. inversion Hx; subst.
    exists a, kids. split; [done|]. intros rest. apply located_here.
  - apply bool_decide_eq_false in Hi.
    assert (exists e ks, x = Element h e ks /\ located (fun _ => True) h kids e ks)
      as (e & ks & -> & Hl).
    { clear Hi. induction kids as [|k kids IHk]; [done|].
      inversion IH as [|? ? Hk Hkids]; subst.
      rewrite findF_cons in Hx. destruct (find h k) as [y|] eqn:Hfk.
      - inversion Hx; subst. destruct (Hk x eq_refl) as (e & ks & -> & Hl). eauto.
      - destruct (IHk Hkids Hx) as (e & ks & -> & Hl).
        exists e, ks. split; [done|]. by apply located_next. }
    exists e, ks. split; [done|]. intros rest. by apply located_down.
Qed.

Lemma findF_located (h : nat) (d : list node) (x : node) :
  findF h d = Some x ->
  exists e ks, x = Element h e ks /\ located (fun _ => True) h d e ks.
Proof.
  induction d as [|n d IH]; intros Hx; [done|].
  rewrite findF_cons in Hx. destruct (find h n) as [y|] eqn:Hn.
  - inversion Hx; subst. destruct (find_located h n x Hn) as (e & ks & -> & Hl). eauto.
  - destruct (IH Hx) as (e & ks & -> & Hl). exists e, ks.
    split; [done|]. by apply located_next.
Qed.

(** *** [processTextElement] and the place of its element *)

Lemma processTextElement_start_located (ok : edata -> Prop) (s : pstate)
    (href : string) (h : nat) (d : document) (e : edata) (ks : list node) :
  located ok h (body d) e ks ->
  5 <= String.length (Js.trim (textContentF ks)) ->
  exists d1,
    processTextElement_start s href h d =
      (d1, inr (Js.trim (textContentF ks),
                Request (API_BASE_URL +:+ "/analyze_text") (Js.trim (textContentF ks)) href))
    /\ nextId d1 = nextId d
    /\ located ok h (body d1)
               (setAttribute "data-original-text" (Js.trim (textContentF ks)) e) ks.
Proof.
  intros Hl Hlen. pose proof (located_findF _ _ _ _ _ Hl) as Hf.
  rewrite (processTextElement_start_eligible s href h d _ Hf Hlen).
  eexists. split; [reflexivity|]. split; [reflexivity|].
  exact (modify_located ok h
           (fun e0 ks0 =>
              (setAttribute "data-original-text" (Js.trim (textContentF ks)) e0, ks0))
           _ _ _ Hl).
Qed.

Lemma applyTextFilter_located (ok : edata -> Prop) (near : nat -> nat -> bool) (h : nat)
    (shown : string) (reasons : list string) (d : document) (e : edata)
    (ks : list node) :
  (forall a, ok a -> contains INDICATOR_CLASS a = false) ->
  contains INDICATOR_CLASS e = false ->
  located ok h (body d) e ks ->
  located ok h (body (applyTextFilter near h shown reasons d))
          (classAdd "socioio-filtered-text" e) (setTextContent shown).
Proof.
  intros Hok He Hl. unfold applyTextFilter, addModerationIndicator. simpl.
  apply insertAfter_located.
  pose proof (modify_located ok h
                (fun e _ => (classAdd "socioio-filtered-text" e, setTextContent shown))
                _ _ _ Hl) as Hl1.
  simpl in Hl1.
  assert (located ok h
            (removeAll (fun i e => contains INDICATOR_CLASS e && near i h)
               (modify h (fun e _ => (classAdd "socioio-filtered-text" e,
                                      setTextContent shown)) (body d)))
            (classAdd "socioio-filtered-text" e)
            (removeAll (fun i e => contains INDICATOR_CLASS e && near i h)
               (setTextContent shown))) as Hl2.
  { apply (removeAll_located ok h (fun i e => contains INDICATOR_CLASS e && near i h)).
    - intros i a _ Ha. by rewrite (Hok a Ha).
    - rewrite contains_classAdd, He. done.
    - exact Hl1. }
  unfold removeAll in Hl2 at 2. rewrite rwF_setTextContent in Hl2. exact Hl2.
Qed.

(** *** [restoreOriginalContent] and the place of a filtered element *)

Lemma classList_restoreImage (e : edata) :
  classList (restoreImage e) = classList (classRemove "socioio-filtered-image" e).
Proof. unfold restoreImage. by destruct (truthy _). Qed.

Lemma contains_restoreImage (c : string) (e : edata) :
  contains c (restoreImage e) =
  contains c e && negb (bool_decide (c = "socioio-filtered-image")).
Proof.
  rewrite <- contains_classRemove. unfold contains.
  by rewrite classList_restoreImage.
Qed.

Lemma getAttribute_restoreImage (e : edata) :
  getAttribute "data-original-text" (restoreImage e) = getAttribute "data-original-text" e.
Proof.
  unfold restoreImage, getAttribute. destruct (truthy _); simpl.
  - rewrite lookup_delete_ne by done. rewrite lookup_insert_ne by done.
    by rewrite lookup_delete_ne.
  - by rewrite lookup_delete_ne.
Qed.

Lemma unmarked_restoreImage (e : edata) : unmarked e -> unmarked (restoreImage e).
Proof.
  intros Hu c Hc Hin. apply (Hu c Hc).
  rewrite classList_restoreImage in Hin. unfold classRemove in Hin. simpl in Hin.
  apply list_elem_of_filter in Hin. tauto.
Qed.

Lemma firstBlurredChild_find_none (h : nat) (ks : list node) (x : node) :
  findF h ks = None -> firstBlurredChild ks = Some x -> find h x = None.
Proof.
  induction ks as [|k ks IH]; intros Hn Hx; [done|].
  rewrite findF_cons in Hn. destruct (find h k) eqn:Hk; [done|].
  destruct k as [t|j ej kj]; simpl in Hx; [by apply IH|].
  destruct (isBlurredImage ej); [|by apply IH].
  inversion Hx; subst. rewrite find_Element in Hk |- *.
  by destruct (bool_decide (j = h)).
Qed.

Lemma restoreImages_located (h : nat) (d : list node) (e : edata) (ks : list node) :
  contains "socioio-image-wrapper" e = false ->
  located unmarked h d e ks ->
  located unmarked h (restoreImages d)
          (if isBlurredImage e then restoreImage e else e) (restoreImages ks).
Proof.
  intros Hw Hl. unfold restoreImages.
  eapply (rwF_located _ h) with (ok := unmarked) (ok' := unmarked) (r := []);
    [| | |exact Hl].
  - intros i a ks0 r Hf Hn.
    destruct (contains "socioio-image-wrapper" a); [|done].
    destruct (firstBlurredChild ks0) as [img|] eqn:Hfb; [|done].
    inversion Hf; subst. rewrite find_Element in Hn.
    destruct (bool_decide (i = h)); [done|].
    rewrite findF_cons. by rewrite (firstBlurredChild_find_none h ks0 img Hn Hfb).
  - intros i a ks0 Hi Ha.
    rewrite (unmarked_contains a "socioio-image-wrapper" Ha) by (simpl; tauto).
    eexists. split; [reflexivity|].
    destruct (isBlurredImage a); [by apply unmarked_restoreImage|done].
  - rewrite rw_Element, Hw. done.
Qed.

Lemma restoreText_located (h : nat) (d : list node) (e : edata) (ks : list node)
    (original : string) :
  contains "socioio-filtered-text" e = true ->
  truthy (getAttribute "data-original-text" e) = Some original ->
  located unmarked h d e ks ->
  located unmarked h (restoreText d)
          (set_style [] (classRemove "socioio-filtered-text"
                           (removeAttribute "data-original-text" e)))
          (setTextContent original).
Proof.
  intros Hc Ht Hl. unfold restoreText.
  eapply (rwF_located _ h) with (ok := unmarked) (ok' := unmarked) (r := []);
    [| | |exact Hl].
  - intros i a ks0 r Hf Hn. rewrite find_Element in Hn.
    destruct (bool_decide (i = h)) eqn:Hi; [done|].
    destruct (contains "socioio-filtered-text" a); [|done].
    destruct (truthy (getAttribute "data-original-text" a)) as [t|]; [|done].
    inversion Hf; subst. rewrite findF_cons, find_Element, Hi.
    unfold setTextContent. by destruct (bool_decide (t = "")).
  - intros i a ks0 Hi Ha.
    rewrite (unmarked_contains a "socioio-filtered-text" Ha) by (simpl; tauto).
    eauto.
  - rewrite rw_Element, Hc, Ht. done.
Qed.

(** *** Nodes of a class after the loops *)

Lemma selectF_nil_cons (p : edata -> bool) (k : node) (l : list node) :
  selectF p (k :: l) = [] <-> select p k = [] /\ selectF p l = [].
Proof. rewrite selectF_cons. split; [by apply app_eq_nil|by intros [-> ->]]. Qed.

Lemma select_nil_Element (p : edata -> bool) (i : nat) (e : edata) (ks : list node) :
  select p (Element i e ks) = [] <-> p e = false /\ selectF p ks = [].
Proof.
  rewrite select_Element. destruct (p e); simpl; [split; [done|intros [? _]; done]|].
  tauto.
Qed.

Section Select.

Variable p : edata -> bool.
Variable f : nat -> edata -> list node -> action.

Hypothesis keeps_none :
  forall i e ks,
    p e = false -> selectF p ks = [] ->
    match f i e ks with
    | Replace r => selectF p r = []
    | Descend e' => p e' = false
    end.

Lemma rw_select_nil (n : node) : select p n = [] -> selectF p (rw f n) = [].
Proof.
  induction n as [s|i e ks IH] using node_induction; intros Hn; [done|].
  apply select_nil_Element in Hn as [He Hks].
  rewrite rw_Element. pose proof (keeps_none i e ks He Hks) as Hf.
  destruct (f i e ks) as [r|e']; [exact Hf|].
  apply selectF_nil_cons. split; [|done].
  apply select_nil_Element. split; [exact Hf|].
  clear Hf. induction ks as [|k ks IHks]; [done|].
  apply selectF_nil_cons in Hks as [Hk Hks].
  inversion IH as [|? ? Hk' Hks']; subst.
  rewrite rwF_cons, selectF_app, (Hk' Hk), (IHks Hks' Hks). done.
Qed.

Lemma rwF_select_nil (l : list node) : selectF p l = [] -> selectF p (rwF f l) = [].
Proof.
  induction l as [|k l IH]; intros Hn; [done|].
  apply selectF_nil_cons in Hn as [Hk Hl].
  by rewrite rwF_cons, selectF_app, (rw_select_nil k Hk), (IH Hl).
Qed.

End Select.

Lemma removeAll_select_nil (p q : edata -> bool) (l : list node) :
  (forall e, p e = true -> q e = true) ->
  selectF p (removeAll (fun _ e => q e) l) = [].
Proof.
  intros Hpq. unfold removeAll.
  assert (forall n, selectF p (rw (fun _ e _ => if q e then Replace [] else Descend e) n)
                    = []) as Hn.
  { induction n as [s|i e ks IH] using node_induction; [done|].
    rewrite rw_Element. destruct (q e) eqn:Hq; [done|].
    apply selectF_nil_cons. split; [|done]. apply select_nil_Element. split.
    - destruct (p e) eqn:Hp; [|done]. rewrite (Hpq e Hp) in Hq. done.
    - induction ks as [|k ks IHks]; [done|].
      inversion IH as [|? ? Hk Hks]; subst.
      by rewrite rwF_cons, selectF_app, Hk, (IHks Hks). }
  induction l as [|k l IH]; [done|].
  by rewrite rwF_cons, selectF_app, Hn, IH.
Qed.

Lemma firstBlurredChild_select_nil (c : string) (ks : list node) (x : node) :
  selectF (contains c) ks = [] -> firstBlurredChild ks = Some x ->
  select (contains c) x = [].
Proof.
  induction ks as [|k ks IH]; intros Hn Hx; [done|].
  apply selectF_nil_cons in Hn as [Hk Hks].
  destruct k as [t|j ej kj]; simpl in Hx; [by apply IH|].
  destruct (isBlurredImage ej); [|by apply IH].
  inversion Hx; subst. apply select_nil_Element in Hk as [Hej Hkj].
  apply select_nil_Element. split; [|done].
  by rewrite contains_restoreImage, Hej.
Qed.

(** After [restoreOriginalContent] no node has the class of the
    indicators. *)
Lemma restoreOriginalContent_no_indicator (d : document) :
  selectF (contains INDICATOR_CLASS) (body (restoreOriginalContent d)) = [].
Proof.
  unfold restoreOriginalContent. simpl.
  apply rwF_select_nil.
  { intros i e ks He Hks. by destruct (contains "socioio-overlay" e). }
  apply rwF_select_nil.
  { intros i e ks He Hks. destruct (contains "socioio-filtered-text" e); [|done].
    destruct (truthy (getAttribute "data-original-text" e)) as [t|].
    - apply selectF_nil_cons. split; [|done]. apply select_nil_Element. split.
      + change (contains INDICATOR_CLASS
                  (classRemove "socioio-filtered-text"
                     (removeAttribute "data-original-text" e)) = false).
        rewrite contains_classRemove.
        change (contains INDICATOR_CLASS (removeAttribute "data-original-text" e))
          with (contains INDICATOR_CLASS e). by rewrite He.
      + unfold setTextContent. by destruct (bool_decide (t = "")).
    - change (contains INDICATOR_CLASS (classRemove "socioio-filtered-text" e) = false).
      by rewrite contains_classRemove, He. }
  apply rwF_select_nil.
  { intros i e ks He Hks.
    assert (contains INDICATOR_CLASS (if isBlurredImage e then restoreImage e else e)
            = false) as He'.
    { destruct (isBlurredImage e); [|done]. by rewrite contains_restoreImage, He. }
    destruct (contains "socioio-image-wrapper" e); [|done].
    destruct (firstBlurredChild ks) as [img|] eqn:Hfb; [|done].
    apply selectF_nil_cons. split; [|done].
    by apply (firstBlurredChild_select_nil INDICATOR_CLASS ks). }
  apply removeAll_select_nil.
  intros e He. unfold isSocioNode. rewrite He. by rewrite !orb_true_r.
Qed.

(** ** Verdicts and the page *)

Lemma processTextElement_resume_cases (near : nat -> nat -> bool) (s : pstate) (h : nat)
    (text : string) (r : reply) (d : document) :
  processTextElement_resume near s h text r d = (d, kept) \/
  exists shown reasons,
    processTextElement_resume near s h text r d =
      (applyTextFilter near h shown reasons d, filtered "remove" reasons).
Proof.
  destruct r as [|action reasons]; simpl.
  - destruct (isProfanity _ || isHateSpeech _); eauto.
  - destruct (bool_decide (action <> Some "allow")); [|by left].
    destruct (bool_decide (action = Some "remove")); eauto.
Qed.

Lemma text_without_listed_word :
  isProfanity (Js.toLowerCase "I hate everyone, kill them all")
  || isHateSpeech (Js.toLowerCase "I hate everyone, kill them all") = false.
Proof. vm_compute. reflexivity. Qed.

(** C4. The hate list holds the phrase "kill all"; the text "I hate
    everyone, kill them all" does not hold it as a whole word (nor any other
    listed word), so when the request fails the fallback keeps the element
    and leaves the page as it is; the words "kill" and "all" of the text,
    apart from each other, do not count.  The fallback of
    [analyzeTextContent] allows the text too. *)
Theorem kill_them_all_kept :
  In "kill all" hateWords /\
  Js.includes "kill" (Js.toLowerCase "I hate everyone, kill them all") = true /\
  Js.includes "all" (Js.toLowerCase "I hate everyone, kill them all") = true /\
  ~ holdsWord "kill all" "I hate everyone, kill them all" /\
  (forall near s h d,
     processTextElement_resume near s h "I hate everyone, kill them all" Failed d
     = (d, kept)) /\
  (forall near s,
     (processTextElement near s sample_href 2 (fun _ => Failed) sample_page).2 = kept) /\
  analyzeTextContent_fallback "I hate everyone, kill them all" = ("allow", []).
Proof.
  split_and!.
  - simpl. tauto.
  - vm_compute. reflexivity.
  - vm_compute. reflexivity.
  - intros H. apply (testWholeWord_holdsWord "kill all") in H; [|vm_compute; reflexivity].
    vm_compute in H. discriminate.
  - intros near s h d. unfold processTextElement_resume.
    by rewrite text_without_listed_word.
  - intros near s. vm_compute. reflexivity.
  - vm_compute. reflexivity.
Qed.

(** The verdict [allow] changes nothing. *)
Lemma allow_verdict_changes_nothing (near : nat -> nat -> bool) (s : pstate) (h : nat)
    (text : string) (reasons : list string) (d : document) :
  processTextElement_resume near s h text (Data (Some "allow") reasons) d = (d, kept).
Proof. reflexivity. Qed.

(** C5, what the code does with the verdict [encrypt]: the reply is not
    [allow], the branch of the other actions is entered, and only [remove]
    is handled there; the element is kept and the page is not changed.  So
    on the sample page, after the whole of [processTextElement] on the first
    paragraph with a service that answers [encrypt], the paragraph shows
    the text it had and no indicator is in the page. *)
Theorem encrypt_verdict_changes_nothing :
  (forall near s h text reasons d,
     processTextElement_resume near s h text (Data (Some "encrypt") reasons) d
     = (d, kept)) /\
  let res := processTextElement nowhere initial_state sample_href 1
               (fun _ => Data (Some "encrypt") ["Sensitive content"]) sample_page in
  res.2 = kept /\
  textContent <$> findF 1 (body sample_page) = Some "  Oh SHIT, that is bad " /\
  textContent <$> findF 1 (body res.1) = Some "  Oh SHIT, that is bad " /\
  selectF (contains "socioio-filtered-text") (body res.1) = [] /\
  selectF (contains INDICATOR_CLASS) (body res.1) = [].
Proof. split; [reflexivity|]. vm_compute. done. Qed.

(** The verdict [remove] replaces the text of the element by the
    placeholder and gives it the class of filtered texts. *)
Lemma remove_verdict_masks (near : nat -> nat -> bool) (s : pstate) (h : nat)
    (text : string) (reasons : list string) (d : document) (e : edata) (ks : list node) :
  located unmarked h (body d) e ks -> unmarked e ->
  let res := processTextElement_resume near s h text (Data (Some "remove") reasons) d in
  res.2 = filtered "remove" reasons /\
  located unmarked h (body res.1)
          (classAdd "socioio-filtered-text" e) (setTextContent (filteredText text)).
Proof.
  intros Hl He. simpl. split; [done|].
  apply (applyTextFilter_located unmarked near h _ reasons d e ks); [| |exact Hl].
  - intros a Ha. apply unmarked_contains; [exact Ha|]. simpl. tauto.
  - apply unmarked_contains; [exact He|]. simpl. tauto.
Qed.

(** ** Small images *)

(** The first sweep skips an image below 50 pixels. *)
Lemma queueImageInitial_small {R : Resolver} (href : string) (s : pstate) (i : nat) (e : edata) :
  naturalWidth e < 50 \/ naturalHeight e < 50 -> queueImageInitial href s i e = s.
Proof.
  intros H. unfold queueImageInitial.
  destruct (Nat.ltb_spec (naturalWidth e) 50); [done|].
  destruct (Nat.ltb_spec (naturalHeight e) 50); [done|]. lia.
Qed.

(** [addImagesToProcessingQueue] looks at the source and at the class of
    an image, not at its size. *)
Lemma addImage_any_size {R : Resolver} (d : document) (s : pstate) (c h : nat) (e : edata)
    (ks : list node) :
  findF h (body d) = Some (Element h e ks) ->
  src e <> "" -> contains EXCLUSION_CLASS e = false ->
  (addImage (d, s, c) h).1.2 = push (Item Image h None) s /\
  (addImage (d, s, c) h).2 = S c.
Proof.
  intros Hf Hsrc Hc. unfold addImage. rewrite Hf.
  rewrite bool_decide_eq_false_2 by done. rewrite Hc. done.
Qed.

(** C9, what the code does with the image of natural width 40 of the sample
    page (an image with a source, not yet marked as processed):
    [addImagesToProcessingQueue] pushes it and, the dispatcher being idle,
    starts the batch that holds it; the callbacks of
    [processElementsWithDelay] push it too.  Only the first sweep,
    [applyImmediateBlurToAllImages], leaves it out. *)
Theorem small_image_enqueued :
  naturalWidth (imageElement "http://example.com/icon.png" 40 40) = 40 /\
  findF 3 (body sample_page)
  = Some (Element 3 (imageElement "http://example.com/icon.png" 40 40) []) /\
  fanins (addImagesToProcessingQueue (R:=asWritten) [3] sample_page initial_state).2
  = [[(Item Image 3 None, Pending)]] /\
  processingQueue
    (addImagesToProcessingQueue (R:=asWritten) [3] sample_page
       (set_isEnabled false initial_state)).2
  = [Item Image 3 None] /\
  processingQueue (queueElementWithDelay Image 3 sample_page initial_state).2
  = [Item Image 3 None] /\
  fanins (applyImmediateBlurToAllImages (R:=asWritten) sample_href sample_page initial_state).1
  = [[(Item Image 4 None, Pending)]] /\
  processingQueue
    (applyImmediateBlurToAllImages (R:=asWritten) sample_href sample_page initial_state).1
  = [].
Proof. vm_compute. done. Qed.

(** ** The saved text *)

(** C10. For an element of the page whose trimmed text has 5 characters
    or more, [processTextElement] writes that text in [data-original-text]
    before it sends its request; whatever the reply, an element that is
    kept leaves the page as it was at that point, so it carries the
    attribute, and the verdict [allow] keeps it.  A filtered element
    carries the attribute too, as long as it is still in the page (it is
    not inside an indicator that the new indicator displaces). *)
Theorem original_text_saved (near : nat -> nat -> bool) (s : pstate) (href : string)
    (h : nat) (d : document) (e : edata) (ks : list node) :
  findF h (body d) = Some (Element h e ks) ->
  5 <= String.length (Js.trim (textContentF ks)) ->
  let text := Js.trim (textContentF ks) in
  exists d1 req,
    processTextElement_start s href h d = (d1, inr (text, req)) /\
    content req = text /\
    (exists e1, findF h (body d1) = Some (Element h e1 ks) /\
                getAttribute "data-original-text" e1 = Some text) /\
    (forall r, (processTextElement_resume near s h text r d1).2 = kept ->
               (processTextElement_resume near s h text r d1).1 = d1) /\
    (forall reasons,
       processTextElement_resume near s h text (Data (Some "allow") reasons) d1
       = (d1, kept)) /\
    (forall r,
       located (fun a => contains INDICATOR_CLASS a = false) h (body d) e ks ->
       contains INDICATOR_CLASS e = false ->
       exists e2 ks2,
         findF h (body (processTextElement_resume near s h text r d1).1)
         = Some (Element h e2 ks2) /\
         getAttribute "data-original-text" e2 = Some text).
Proof.
  intros Hf Hlen text.
  destruct (findF_located h (body d) _ Hf) as (e0 & ks0 & Heq & Hl).
  inversion Heq; subst e0 ks0; clear Heq.
  destruct (processTextElement_start_located _ s href h d e ks Hl Hlen)
    as (d1 & Hst & Hid & Hl1).
  exists d1, (Request (API_BASE_URL +:+ "/analyze_text") text href).
  assert (getAttribute "data-original-text" (setAttribute "data-original-text" text e)
          = Some text) as Hget.
  { unfold getAttribute. simpl. by rewrite lookup_insert_eq. }
  split; [exact Hst|]. split; [done|]. split_and!.
  - exists (setAttribute "data-original-text" text e).
    split; [by apply (located_findF _ _ _ _ _ Hl1)|exact Hget].
  - intros r Hk.
    destruct (processTextElement_resume_cases near s h text r d1)
      as [->|(shown & rs & Hfil)]; [done|].
    rewrite Hfil in Hk. discriminate.
  - reflexivity.
  - intros r Hli He.
    destruct (processTextElement_resume_cases near s h text r d1)
      as [->|(shown & rs & ->)]; simpl.
    + eexists _, _. split; [by apply (located_findF _ _ _ _ _ Hl1)|exact Hget].
    + assert (located (fun a => contains INDICATOR_CLASS a = false) h (body d1)
                (setAttribute "data-original-text" text e) ks) as Hl2.
      { destruct (processTextElement_start_located _ s href h d e ks Hli Hlen)
          as (d1' & Hst' & _ & Hl'). rewrite Hst in Hst'. by inversion Hst'; subst. }
      pose proof (applyTextFilter_located _ near h shown rs d1
                    (setAttribute "data-original-text" text e) ks
                    (fun a Ha => Ha) He Hl2) as Hl3.
      eexists _, _. split; [by apply (located_findF _ _ _ _ _ Hl3)|].
      by rewrite getAttribute_classAdd.
Qed.

Lemma original_text_saved_witness :
  exists d1 req,
    processTextElement_start initial_state sample_href 2 sample_page
    = (d1, inr ("I hate everyone, kill them all", req)) /\
    (exists e1, findF 2 (body d1)
                = Some (Element 2 e1 [TextNode "I hate everyone, kill them all"]) /\
                getAttribute "data-original-text" e1
                = Some "I hate everyone, kill them all") /\
    (exists e2 ks2,
       findF 2 (body (processTextElement_resume nowhere initial_state 2
                        "I hate everyone, kill them all"
                        (Data (Some "remove") ["flagged"]) d1).1)
       = Some (Element 2 e2 ks2) /\
       getAttribute "data-original-text" e2 = Some "I hate everyone, kill them all").
Proof.
  destruct (original_text_saved nowhere initial_state sample_href 2 sample_page
              (plainElement "P") [TextNode "I hate everyone, kill them all"])
    as (d1 & req & Hst & _ & He1 & _ & _ & Hr).
  - reflexivity.
  - vm_compute. lia.
  - exists d1, req. split; [exact Hst|]. split; [exact He1|].
    apply (Hr (Data (Some "remove") ["flagged"])); [|reflexivity].
    apply located_down; [done|reflexivity|].
    apply located_next; [reflexivity|]. apply located_here.
Defined.

Lemma fallback_whole_word_witness :
  exists reasons d',
    reasons <> [] /\
    processTextElement nowhere initial_state sample_href 1 (fun _ => Failed) sample_page
    = (d', filtered "remove" reasons).
Proof.
  destruct (fallback_whole_word nowhere initial_state 1 "Oh SHIT, that is bad"
              (processTextElement_start initial_state sample_href 1 sample_page).1)
    as (Hyes & _ & Hwhole).
  destruct Hyes as (reasons & Hne & Heq).
  - exists "shit". split; [simpl; tauto|].
    exists "Oh ", "SHIT", ", that is bad". split_and!; reflexivity.
  - exists reasons. eexists. split; [exact Hne|].
    rewrite (Hwhole sample_href sample_page
               (Element 1 (plainElement "P") [TextNode "  Oh SHIT, that is bad "])
               eq_refl).
    + exact Heq.
    + vm_compute. lia.
    + reflexivity.
    + reflexivity.
Defined.

(** ** A verdict that arrives after the pipeline was disabled *)

(** The claim C7 fails on the sample page: the request for the first
    paragraph is sent while the pipeline is enabled, the verdict [remove]
    arrives when [isEnabled] is [false], and the text of the paragraph is
    replaced all the same. *)
Lemma late_verdict_applied_when_disabled :
  let s_off := set_isEnabled false initial_state in
  let started := processTextElement_start initial_state sample_href 1 sample_page in
  let after := processTextElement_resume nowhere s_off 1 "Oh SHIT, that is bad"
                 (Data (Some "remove") ["Profanity"]) started.1 in
  isEnabled s_off = false /\
  started.2 = inr ("Oh SHIT, that is bad",
                   Request (API_BASE_URL +:+ "/analyze_text") "Oh SHIT, that is bad"
                           sample_href) /\
  textContent <$> findF 1 (body started.1) = Some "  Oh SHIT, that is bad " /\
  textContent <$> findF 1 (body after.1) = Some "[Content filtered]" /\
  after.2 = filtered "remove" ["Profanity"] /\
  after.1 <> started.1.
Proof.
  split_and!; try (vm_compute; reflexivity).
  intros H. apply (f_equal (fun d => textContent <$> findF 1 (body d))) in H.
  vm_compute in H. discriminate.
Qed.

(** C7 as amended.  While the pipeline is disabled no dispatch cycle
    starts, and the change from enabled to disabled restores the page; but
    the second part of [processTextElement] does not read [isEnabled]: a
    verdict that arrives while the pipeline is disabled is applied as it is
    when the pipeline is enabled, and the verdict [remove] then masks the
    element. *)
Theorem verdict_applied_whatever_the_flag (near : nat -> nat -> bool) (s : pstate)
    (h : nat) (text : string) (reasons : list string) (d : document) (e : edata)
    (ks : list node) :
  located unmarked h (body d) e ks -> unmarked e ->
  let off := set_isEnabled false s in
  processNextBatch off = off /\
  (isEnabled s = true -> toggleProtection false d s = (restoreOriginalContent d, off)) /\
  (forall r, processTextElement_resume near off h text r d
             = processTextElement_resume near (set_isEnabled true s) h text r d) /\
  (processTextElement_resume near off h text (Data (Some "remove") reasons) d).2
  = filtered "remove" reasons /\
  located unmarked h
    (body (processTextElement_resume near off h text (Data (Some "remove") reasons) d).1)
    (classAdd "socioio-filtered-text" e) (setTextContent (filteredText text)).
Proof.
  intros Hl He off. split_and!.
  - apply processNextBatch_guarded. right. right. reflexivity.
  - intros Hen. unfold toggleProtection. rewrite Hen. reflexivity.
  - reflexivity.
  - reflexivity.
  - by apply (remove_verdict_masks near off h text reasons d e ks).
Qed.

Lemma sample_located_1 :
  located unmarked 1 (body sample_page) (plainElement "P")
          [TextNode "  Oh SHIT, that is bad "].
Proof.
  apply located_down; [done| |apply located_here].
  intros c _ Hc. by apply elem_of_nil in Hc.
Defined.

Lemma sample_unmarked (tag : string) : unmarked (plainElement tag).
Proof. intros c _ Hc. by apply elem_of_nil in Hc. Defined.

Lemma verdict_applied_whatever_the_flag_witness :
  findF 1 (body (processTextElement_resume nowhere (set_isEnabled false initial_state) 1
                   "Oh SHIT, that is bad" (Data (Some "remove") ["Profanity"])
                   sample_page).1)
  = Some (Element 1 (classAdd "socioio-filtered-text" (plainElement "P"))
            [TextNode "[Content filtered]"]).
Proof.
  destruct (verdict_applied_whatever_the_flag nowhere initial_state 1
              "Oh SHIT, that is bad" ["Profanity"] sample_page (plainElement "P")
              [TextNode "  Oh SHIT, that is bad "] sample_located_1 (sample_unmarked "P"))
    as (_ & _ & _ & _ & Hl).
  exact (located_findF _ _ _ _ _ Hl).
Defined.

(** ** The availability flag *)

(** The claim C8 fails on the sample page: the flag says that the service
    is not available, and [processTextElement] sends its request all the
    same and acts on the reply (the fallback would have kept the
    paragraph); and after a ping that failed the flag is [true]. *)
Lemma request_sent_when_flag_false :
  let s := set_backendRunning false initial_state in
  backendRunning s = false /\
  (processTextElement_start s sample_href 2 sample_page).2
  = inr ("I hate everyone, kill them all",
         Request (API_BASE_URL +:+ "/analyze_text") "I hate everyone, kill them all"
                 sample_href) /\
  (processTextElement nowhere s sample_href 2
     (fun _ => Data (Some "remove") ["flagged by the service"]) sample_page).2
  = filtered "remove" ["flagged by the service"] /\
  (processTextElement nowhere s sample_href 2 (fun _ => Failed) sample_page).2 = kept /\
  backendRunning (checkBackendStatus_resume false (checkBackendStatus_start s).1) = true.
Proof. vm_compute. done. Qed.

Lemma processImage_start_offline {R : Resolver} (href : string) (h : nat) (d : document)
    (s : pstate) :
  backendRunning s = false -> (processImage_start href h d s).2 = None.
Proof.
  intros Hb. unfold processImage_start.
  destruct (findF h (body d)) as [[t|i e ks]|]; [done| |done].
  destruct (contains EXCLUSION_CLASS e); [done|].
  destruct (Nat.ltb (width e) 100 || Nat.ltb (height e) 100); [done|].
  by rewrite Hb.
Qed.

(** C8 as amended.  The periodic check sets the flag to [true] before the
    ping, and the flag is [true] after it whatever the ping gives; the
    message [backendStatusChanged] sets the flag to the value it carries.
    [processTextElement] does not read the flag:
    for an element of the page with 5 characters or more it sends the
    request to the service whatever the flag, acts on the reply when there
    is one (the word lists play no part then) and uses the fallback only
    when the request fails.  When the flag is [false], [processImage]
    sends no request. *)
Theorem availability_flag_not_consulted {R : Resolver} (near : nat -> nat -> bool) (s : pstate)
    (href : string) (h : nat) (d : document) (e : edata) (ks : list node) :
  findF h (body d) = Some (Element h e ks) ->
  5 <= String.length (Js.trim (textContentF ks)) ->
  let text := Js.trim (textContentF ks) in
  (forall pingOk,
     backendRunning (checkBackendStatus_resume pingOk (checkBackendStatus_start s).1)
     = true) /\
  (forall running, backendRunning (backendStatusChanged running s) = running) /\
  (forall b,
     (processTextElement_start (set_backendRunning b s) href h d).2
     = inr (text, Request (API_BASE_URL +:+ "/analyze_text") text href)) /\
  (forall b service,
     processTextElement near (set_backendRunning b s) href h service d
     = processTextElement near s href h service d) /\
  (forall action reasons d',
     (processTextElement_resume near s h text (Data action reasons) d').2
     = if bool_decide (action = Some "remove") then filtered "remove" reasons else kept) /\
  (forall img, (processImage_start href img d (set_backendRunning false s)).2 = None).
Proof.
  intros Hf Hlen text. split_and!.
  - intros []; reflexivity.
  - reflexivity.
  - intros b. by rewrite (processTextElement_start_eligible _ href h d _ Hf Hlen).
  - reflexivity.
  - intros action reasons d'. simpl.
    destruct (bool_decide (action = Some "remove")) eqn:Ha.
    + apply bool_decide_eq_true in Ha as ->. reflexivity.
    + by destruct (bool_decide (action <> Some "allow")).
  - intros img. by apply processImage_start_offline.
Qed.

Lemma availability_flag_not_consulted_witness :
  (processTextElement_start (set_backendRunning false initial_state) sample_href 2
     sample_page).2
  = inr ("I hate everyone, kill them all",
         Request (API_BASE_URL +:+ "/analyze_text") "I hate everyone, kill them all"
                 sample_href).
Proof.
  destruct (availability_flag_not_consulted (R:=asWritten) nowhere initial_state sample_href 2
              sample_page (plainElement "P") [TextNode "I hate everyone, kill them all"])
    as (_ & _ & H & _).
  - reflexivity.
  - vm_compute. lia.
  - exact (H false).
Defined.

(** ** Restoring after a filter *)

Lemma processTextElement_filtered_inv (near : nat -> nat -> bool) (s : pstate)
    (href : string) (h : nat) (service : request -> reply) (d d1 d2 : document)
    (text : string) (req : request) (action : string) (reasons : list string) :
  processTextElement_start s href h d = (d1, inr (text, req)) ->
  processTextElement near s href h service d = (d2, filtered action reasons) ->
  exists shown, d2 = applyTextFilter near h shown reasons d1.
Proof.
  intros Hst Hp. unfold processTextElement in Hp. rewrite Hst in Hp.
  destruct (processTextElement_resume_cases near s h text (service req) d1)
    as [Hk|(shown & rs & Hfil)].
  - rewrite Hk in Hp. discriminate.
  - rewrite Hfil in Hp. inversion Hp; subst. eauto.
Qed.

(** The claim C6 fails on the sample page: the first paragraph is filtered
    and restored, and its text is not the text it had (the white space at
    its ends is lost). *)
Lemma restore_loses_white_space :
  let filteredPage :=
    processTextElement nowhere initial_state sample_href 1
      (fun _ => Data (Some "remove") ["Profanity"]) sample_page in
  filteredPage.2 = filtered "remove" ["Profanity"] /\
  textContent <$> findF 1 (body sample_page) = Some "  Oh SHIT, that is bad " /\
  textContent <$> findF 1 (body filteredPage.1) = Some "[Content filtered]" /\
  textContent <$> findF 1 (body (restoreOriginalContent filteredPage.1))
  = Some "Oh SHIT, that is bad" /\
  textContent <$> findF 1 (body (restoreOriginalContent filteredPage.1))
  <> textContent <$> findF 1 (body sample_page).
Proof.
  split_and!; try (vm_compute; reflexivity).
  intros H. vm_compute in H. discriminate.
Qed.

(** The restore of a page where a text element stands filtered, with no
    marked element above it: the element holds the saved text again,
    whatever its children were. *)
Lemma restore_filtered_text (h : nat) (original : string) (d : document) (e : edata)
    (ks : list node) :
  located unmarked h (body d) e ks -> filteredWith original e ->
  exists e',
    located unmarked h (body (restoreOriginalContent d)) e' [TextNode original] /\
    contains "socioio-filtered-text" e' = false /\
    getAttribute "data-original-text" e' = None.
Proof.
  intros H0 (Hft & Hc & Hget & Hne).
  assert (forall a c, unmarked a -> In c markerClasses -> contains c a = false) as Hca
      by (intros a c Ha; by apply unmarked_contains).
  unfold restoreOriginalContent. simpl.
  (* first loop *)
  pose proof (removeAll_located unmarked h (fun _ e => isSocioNode e) (body d) e ks) as H1.
  specialize (H1 ltac:(intros i a _ Ha; unfold isSocioNode;
                       by rewrite !(Hca a _ Ha) by (simpl; tauto))).
  specialize (H1 ltac:(unfold isSocioNode; by rewrite !Hc by (simpl; tauto || done)) H0).
  (* second loop *)
  set (e3 := if isBlurredImage e then restoreImage e else e).
  pose proof (restoreImages_located h _ e _
                (Hc "socioio-image-wrapper" ltac:(simpl; tauto) ltac:(done)) H1) as H2.
  fold e3 in H2.
  assert (contains "socioio-filtered-text" e3 = true) as Hft3.
  { unfold e3. destruct (isBlurredImage e); [|exact Hft].
    by rewrite contains_restoreImage, Hft. }
  assert (contains "socioio-overlay" e3 = false) as Hov3.
  { unfold e3. destruct (isBlurredImage e).
    - rewrite contains_restoreImage. by rewrite Hc by (simpl; tauto || done).
    - by rewrite Hc by (simpl; tauto || done). }
  assert (getAttribute "data-original-text" e3 = Some original) as Hget3.
  { unfold e3. destruct (isBlurredImage e); [|done]. by rewrite getAttribute_restoreImage. }
  (* third loop *)
  set (e4 := set_style [] (classRemove "socioio-filtered-text"
                             (removeAttribute "data-original-text" e3))).
  assert (located unmarked h
            (restoreText (restoreImages (removeAll (fun _ e => isSocioNode e) (body d))))
            e4 (setTextContent original)) as H3.
  { eapply (restoreText_located h _ e3 _ original); [exact Hft3| |exact H2].
    rewrite Hget3. simpl. by rewrite bool_decide_eq_false_2. }
  assert (forall c, contains c e4
                    = contains c e3 && negb (bool_decide (c = "socioio-filtered-text")))
    as Hc4.
  { intros c. unfold e4.
    change (contains c (set_style [] ?x)) with (contains c x).
    by rewrite contains_classRemove. }
  (* fourth loop *)
  exists e4. split_and!.
  - replace [TextNode original] with (setTextContent original)
      by (unfold setTextContent; by rewrite bool_decide_eq_false_2).
    apply removeAll_located_text; [| |exact H3].
    + intros i a _ Ha. by apply Hca; [|simpl; tauto].
    + by rewrite Hc4, Hov3.
  - rewrite Hc4. by rewrite andb_false_r.
  - unfold e4, getAttribute. simpl. by rewrite lookup_delete_eq.
Qed.

(** C6 as amended.  A text element that carries no mark of the script, and
    has no marked element above it, is filtered by a call of
    [processTextElement]: the call leaves it with the class of filtered
    texts and with its trimmed text saved in [data-original-text].
    Whenever the restore then runs on a page where the element is in that
    state and has no marked element above it, whatever else the page holds,
    the restore gives the element the saved trimmed text, and that text
    only (which is the text before the filter when that had no white space
    at its ends); the element loses the class of filtered texts and the
    saved attribute, and no indicator is left in the page. *)
Theorem restore_after_text_filter (near : nat -> nat -> bool) (s : pstate)
    (href : string) (h : nat) (service : request -> reply) (d d1 : document)
    (e : edata) (ks : list node) (reasons : list string) :
  located unmarked h (body d) e ks -> unmarked e ->
  5 <= String.length (Js.trim (textContentF ks)) ->
  processTextElement near s href h service d = (d1, filtered "remove" reasons) ->
  let text := Js.trim (textContentF ks) in
  (exists e1 ks1, located unmarked h (body d1) e1 ks1 /\ filteredWith text e1) /\
  (forall (d' : document) (e1 : edata) (ks1 : list node),
     located unmarked h (body d') e1 ks1 -> filteredWith text e1 ->
     let d2 := restoreOriginalContent d' in
     exists e',
       findF h (body d2) = Some (Element h e' [TextNode text]) /\
       textContent (Element h e' [TextNode text]) = text /\
       (Js.trim (textContentF ks) = textContentF ks ->
        textContent (Element h e' [TextNode text]) = textContent (Element h e ks)) /\
       contains "socioio-filtered-text" e' = false /\
       getAttribute "data-original-text" e' = None /\
       selectF (contains INDICATOR_CLASS) (body d2) = []).
Proof.
  intros Hl He Hlen Hp text. split.
  - destruct (processTextElement_start_located unmarked s href h d e ks Hl Hlen)
      as (d0 & Hst & _ & Hl0).
    destruct (processTextElement_filtered_inv near s href h service d d0 d1 _ _ _ _ Hst Hp)
      as (shown & ->).
    set (e0 := setAttribute "data-original-text" text e) in *.
    assert (forall c, In c markerClasses -> contains c e0 = false) as Hc
        by (intros c; by apply (unmarked_contains e)).
    exists (classAdd "socioio-filtered-text" e0), (setTextContent shown). split.
    + apply (applyTextFilter_located unmarked near h shown reasons d0 e0 ks);
        [|by apply Hc; simpl; tauto|exact Hl0].
      intros a Ha. apply unmarked_contains; [done|]. simpl. tauto.
    + split_and!.
      * rewrite contains_classAdd. by rewrite bool_decide_eq_true_2, orb_true_r.
      * intros c Hin Hne. rewrite contains_classAdd, (Hc c Hin).
        by rewrite bool_decide_eq_false_2.
      * rewrite getAttribute_classAdd. unfold e0, getAttribute. simpl.
        by rewrite lookup_insert_eq.
      * intros Hempty. unfold text in Hempty. rewrite Hempty in Hlen. simpl in Hlen. lia.
  - intros d' e1 ks1 Hl1 Hf1 d2.
    destruct (restore_filtered_text h text d' e1 ks1 Hl1 Hf1) as (e' & Hl' & Hft & Hattr).
    exists e'. split_and!.
    + exact (located_findF _ _ _ _ _ Hl').
    + simpl. apply app_nil_r_string.
    + intros Htrim. simpl. rewrite app_nil_r_string. exact Htrim.
    + exact Hft.
    + exact Hattr.
    + apply restoreOriginalContent_no_indicator.
Qed.

Lemma restore_after_text_filter_witness :
  exists e',
    findF 1 (body (restoreOriginalContent
                     (processTextElement nowhere initial_state sample_href 1
                        (fun _ => Data (Some "remove") ["Profanity"]) sample_page).1))
    = Some (Element 1 e' [TextNode "Oh SHIT, that is bad"]).
Proof.
  destruct (restore_after_text_filter nowhere initial_state sample_href 1
              (fun _ => Data (Some "remove") ["Profanity"]) sample_page
              (processTextElement nowhere initial_state sample_href 1
                 (fun _ => Data (Some "remove") ["Profanity"]) sample_page).1
              (plainElement "P") [TextNode "  Oh SHIT, that is bad "] ["Profanity"]
              sample_located_1 (sample_unmarked "P"))
    as ((e1 & ks1 & Hl1 & Hf1) & Hrestore).
  - vm_compute. lia.
  - reflexivity.
  - destruct (Hrestore _ e1 ks1 Hl1 Hf1) as (e' & Hf & _).
    exists e'. exact Hf.
Defined.

(** A filtered image (the slip left out of C6 as amended).  The large image
    of the sample page is analysed, found unsafe and blurred: it moves into
    a wrapper with its overlay.  The first loop of the restore removes the
    wrapper with what it holds, so that the loop that would take the image
    out of its wrapper does not find it: the image is not in the page any
    more. *)
Lemma filtered_image_lost_by_restore :
  let started := processImage_start (R:=asWritten) sample_href 4 sample_page initial_state in
  let blurred := processImage_resume 4 (ImgData (Some "unsafe")) started.1 in
  started.2 = Some (Request (API_BASE_URL +:+ "/analyze_image")
                            "http://example.com/photo.jpg" sample_href) /\
  length (selectF (contains "socioio-image-wrapper") (body blurred)) = 1 /\
  is_Some (findF 4 (body blurred)) /\
  findF 4 (body (restoreOriginalContent blurred)) = None.
Proof.
  split_and!; try (vm_compute; reflexivity).
  vm_compute. by eexists.
Qed.

(** * More properties *)

(** ** Runs of the dispatcher *)

Lemma started_app (l1 l2 : list obs) : started (l1 ++ l2) = started l1 ++ started l2.
Proof.
  induction l1 as [|[b|b] l1 IH]; simpl; [done| |done].
  by rewrite IH, app_assoc.
Qed.

Lemma invoke_conserves (s s' : pstate) (o : list obs) :
  invoke s = (s', o) -> started o ++ processingQueue s' = processingQueue s.
Proof.
  intros Hi. destruct (decide (processNextBatch s = s)) as [Heq|Hne].
  - unfold invoke in Hi. rewrite Heq in Hi.
    rewrite bool_decide_eq_false_2 in Hi by lia.
    destruct (last (fanins s)); inversion Hi; subst; done.
  - destruct (processNextBatch_started s Hne) as (_ & _ & _ & Heq).
    unfold invoke in Hi. rewrite Heq in Hi. simpl in Hi.
    rewrite last_snoc in Hi. rewrite length_app in Hi. simpl in Hi.
    rewrite bool_decide_eq_true_2 in Hi by lia.
    inversion Hi; subst; clear Hi. simpl.
    rewrite fst_pending, app_nil_r. apply take_drop.
Qed.

Lemma invoke_guarded (s : pstate) :
  currentlyProcessing s = true \/ processingQueue s = [] \/ isEnabled s = false ->
  invoke s = (s, []).
Proof.
  intros H. unfold invoke. rewrite (processNextBatch_guarded s H).
  rewrite bool_decide_eq_false_2 by lia. by destruct (last (fanins s)).
Qed.

Lemma step_conserves (s s' : pstate) (e : event) (o : list obs) :
  step s e = Some (s', o) ->
  started o ++ processingQueue s' = processingQueue s ++ pushed [e].
Proof.
  intros Hst. destruct e; simpl in Hst; simpl; rewrite ?app_nil_r.
  - apply invoke_conserves. congruence.
  - destruct (timers s !! k); [|done].
    assert (invoke (set_timers (delete k (timers s)) s) = (s', o)) as Hi by congruence.
    by apply invoke_conserves in Hi.
  - destruct (fanins s !! b) as [B|]; [|done]. simpl in Hst.
    destruct (settle_in i ok B); [|done]. by inversion Hst; subst.
  - destruct (fanins s !! b) as [B|]; [|done]. simpl in Hst.
    destruct (forallb _ B); [|done]. inversion Hst; subst. simpl.
    unfold batchComplete. simpl. by destruct (Nat.ltb 0 _).
  - by inversion Hst; subst.
  - by inversion Hst; subst.
Qed.

Lemma pushed_cons (e : event) (tr : list event) : pushed (e :: tr) = pushed [e] ++ pushed tr.
Proof. by destruct e. Qed.

(** X1. Along every run of the dispatcher no item is lost, doubled or
    overtaken: the items of the batches started, in the order of their start,
    followed by the items still in the queue, are the items that were in the
    queue at first followed by the items pushed, in the order of the
    pushes. *)
Theorem queue_is_fifo (s0 s : pstate) (tr : list event) (log : list obs) :
  run s0 tr = Some (s, log) ->
  started log ++ processingQueue s = processingQueue s0 ++ pushed tr.
Proof.
  revert s0 s log. induction tr as [|e tr IH]; intros s0 s log Hr; simpl in Hr.
  - inversion Hr; subst. simpl. by rewrite app_nil_r.
  - destruct (step s0 e) as [[s1 o1]|] eqn:Hst; [|done]. simpl in Hr.
    destruct (run s1 tr) as [[s2 o2]|] eqn:Hr1; [|done]. simpl in Hr.
    inversion Hr; subst; clear Hr.
    rewrite started_app, pushed_cons, <- app_assoc, (IH _ _ _ Hr1).
    rewrite !app_assoc. f_equal. by apply step_conserves.
Qed.

Lemma queue_is_fifo_witness :
  exists s log,
    run idle_state sample_trace = Some (s, log) /\
    started log ++ processingQueue s = sample_items.
Proof.
  destruct (run idle_state sample_trace) as [[s log]|] eqn:Hrun;
    [|vm_compute in Hrun; discriminate].
  exists s, log. split; [reflexivity|].
  rewrite (queue_is_fifo idle_state s sample_trace log Hrun). reflexivity.
Defined.

(** X2. While the pipeline is disabled the dispatcher starts nothing:
    along a run that begins disabled and holds no message enabling it, no
    batch starts, whatever calls and timers come, and the queue keeps all
    it had and all that is pushed. *)
Theorem disabled_starts_nothing (s0 s : pstate) (tr : list event) (log : list obs) :
  isEnabled s0 = false -> existsb enables tr = false ->
  run s0 tr = Some (s, log) ->
  started log = [] /\ isEnabled s = false /\
  processingQueue s = processingQueue s0 ++ pushed tr.
Proof.
  intros He Htr Hr.
  assert (started log = [] /\ isEnabled s = false) as [Hs He'].
  { revert s0 s log He Htr Hr.
    induction tr as [|e tr IH]; intros s0 s log He Htr Hr; simpl in Hr.
    - by inversion Hr; subst.
    - simpl in Htr. apply orb_false_elim in Htr as [Hen Htr].
      destruct (step s0 e) as [[s1 o1]|] eqn:Hst; [|done]. simpl in Hr.
      destruct (run s1 tr) as [[s2 o2]|] eqn:Hr1; [|done]. simpl in Hr.
      inversion Hr; subst; clear Hr.
      assert (started o1 = [] /\ isEnabled s1 = false) as [Ho1 He1].
      { destruct e; simpl in Hst.
        - rewrite (invoke_guarded s0 (or_intror (or_intror He))) in Hst.
          by inversion Hst; subst.
        - destruct (timers s0 !! k); [|done].
          rewrite (invoke_guarded (set_timers (delete k (timers s0)) s0)
                     (or_intror (or_intror He))) in Hst.
          by inversion Hst; subst.
        - destruct (fanins s0 !! b) as [B|]; [|done]. simpl in Hst.
          destruct (settle_in i ok B); [|done]. by inversion Hst; subst.
        - destruct (fanins s0 !! b) as [B|]; [|done]. simpl in Hst.
          destruct (forallb _ B); [|done]. inversion Hst; subst. split; [done|].
          unfold batchComplete. simpl. by destruct (Nat.ltb 0 _).
        - by inversion Hst; subst.
        - destruct v; [done|]. by inversion Hst; subst. }
      destruct (IH _ _ _ He1 Htr Hr1) as [Ho2 He2].
      by rewrite started_app, Ho1, Ho2. }
  split; [exact Hs|]. split; [exact He'|].
  pose proof (queue_is_fifo _ _ _ _ Hr) as Hq. by rewrite Hs in Hq.
Qed.

Lemma disabled_starts_nothing_witness :
  exists s log,
    run (set_isEnabled false idle_state) disabled_trace = Some (s, log) /\
    started log = [] /\
    processingQueue s = sample_items ++ [Item Image 20 None; Item Text 21 None].
Proof.
  destruct (run (set_isEnabled false idle_state) disabled_trace) as [[s log]|] eqn:Hrun;
    [|vm_compute in Hrun; discriminate].
  exists s, log. split; [reflexivity|].
  destruct (disabled_starts_nothing (set_isEnabled false idle_state) s disabled_trace log
              eq_refl eq_refl Hrun) as (H1 & _ & H3).
  split; [exact H1|]. rewrite H3. reflexivity.
Defined.

(** X3. A promise that does not settle holds the dispatcher: when a batch
    is in flight with a pending promise, along every run in which no promise
    settles the flag stays set, no batch starts or completes, and every item
    pushed waits in the queue. *)
Theorem pending_promise_blocks (s0 s : pstate) (tr : list event) (log : list obs) :
  currentlyProcessing s0 = true -> forallb hasPending (fanins s0) = true ->
  existsb settles tr = false ->
  run s0 tr = Some (s, log) ->
  log = [] /\ currentlyProcessing s = true /\ fanins s = fanins s0 /\
  processingQueue s = processingQueue s0 ++ pushed tr.
Proof.
  intros Hc Hp Htr Hr.
  assert (log = [] /\ currentlyProcessing s = true /\ fanins s = fanins s0)
    as (Hl & Hc' & Hf).
  { revert s0 s log Hc Hp Htr Hr.
    induction tr as [|e tr IH]; intros s0 s log Hc Hp Htr Hr; simpl in Hr.
    - by inversion Hr; subst.
    - simpl in Htr. apply orb_false_elim in Htr as [Hse Htr].
      destruct (step s0 e) as [[s1 o1]|] eqn:Hst; [|done]. simpl in Hr.
      destruct (run s1 tr) as [[s2 o2]|] eqn:Hr1; [|done]. simpl in Hr.
      inversion Hr; subst; clear Hr.
      assert (o1 = [] /\ currentlyProcessing s1 = true /\ fanins s1 = fanins s0)
        as (Ho1 & Hc1 & Hf1).
      { destruct e; simpl in Hst.
        - rewrite (invoke_guarded s0 (or_introl Hc)) in Hst. by inversion Hst; subst.
        - destruct (timers s0 !! k); [|done].
          rewrite (invoke_guarded (set_timers (delete k (timers s0)) s0)
                     (or_introl Hc)) in Hst.
          by inversion Hst; subst.
        - done.
        - destruct (fanins s0 !! b) as [B|] eqn:HB; [|done]. simpl in Hst.
          rewrite forallb_forall in Hp.
          assert (hasPending B = true) as HpB.
          { apply Hp. apply list_elem_of_In. by eapply list_elem_of_lookup_2. }
          assert (forallb (fun p => settled p.2) B = false) as Hn.
          { unfold hasPending in HpB. apply existsb_exists in HpB as (p & Hin & Hneg).
            apply not_true_is_false. intros Hall. rewrite forallb_forall in Hall.
            rewrite (Hall p Hin) in Hneg. done. }
          by rewrite Hn in Hst.
        - by inversion Hst; subst.
        - by inversion Hst; subst. }
      rewrite <- Hf1 in Hp.
      destruct (IH _ _ _ Hc1 Hp Htr Hr1) as (Ho2 & Hc2 & Hf2).
      subst. split; [done|]. split; [done|]. congruence. }
  split; [exact Hl|]. split; [exact Hc'|]. split; [exact Hf|].
  pose proof (queue_is_fifo _ _ _ _ Hr) as Hq. by rewrite Hl in Hq.
Qed.

Lemma pending_promise_blocks_witness :
  exists s,
    run busy_state disabled_trace = Some (s, []) /\
    currentlyProcessing s = true /\
    processingQueue s = sample_items ++ [Item Image 20 None; Item Text 21 None].
Proof.
  destruct (run busy_state disabled_trace) as [[s log]|] eqn:Hrun;
    [|vm_compute in Hrun; discriminate].
  destruct (pending_promise_blocks busy_state s disabled_trace log
              eq_refl eq_refl eq_refl Hrun) as (-> & H2 & _ & H4).
  exists s. split; [reflexivity|]. split; [exact H2|]. rewrite H4. reflexivity.
Defined.

(** ** Placeholders and skipped elements *)

Lemma length_append (a b : string) :
  String.length (a +:+ b) = String.length a + String.length b.
Proof. induction a as [|c a IH]; simpl; [done|]. by rewrite IH. Qed.

Lemma length_substring_le (n m : nat) (s : string) :
  String.length (String.substring n m s) <= m.
Proof.
  revert n m. induction s as [|c s IH]; intros n m.
  - destruct n, m; simpl; lia.
  - destruct n as [|n]; simpl.
    + destruct m as [|m]; simpl; [lia|]. specialize (IH 0 m). lia.
    + apply IH.
Qed.

Lemma length_substring (n m : nat) (s : string) :
  n + m <= String.length s -> String.length (String.substring n m s) = m.
Proof.
  revert n m. induction s as [|c s IH]; intros n m H; simpl in H.
  - destruct n, m; simpl; lia.
  - destruct n as [|n]; simpl.
    + destruct m as [|m]; simpl; [done|]. rewrite (IH 0 m); lia.
    + apply IH. lia.
Qed.

(** [substring 0 m] is a prefix and [substring n (length - n)] a suffix. *)
Lemma substring_prefix (m : nat) (s : string) :
  exists rest, s = String.substring 0 m s +:+ rest.
Proof.
  revert m. induction s as [|c s IH]; intros m.
  - exists "". by destruct m.
  - destruct m as [|m]; simpl.
    + by exists (String c s).
    + destruct (IH m) as [rest Hr]. exists rest. by rewrite <- Hr.
Qed.

Lemma substring_suffix (n : nat) (s : string) :
  n <= String.length s ->
  exists front, s = front +:+ String.substring n (String.length s - n) s.
Proof.
  revert n. induction s as [|c s IH]; intros n H; simpl in H.
  - exists "". by destruct n.
  - destruct n as [|n].
    + exists "". simpl. destruct (substring_prefix (String.length s) s) as [rest Hr].
      assert (rest = "") as ->.
      { apply (f_equal String.length) in Hr. rewrite length_append in Hr.
        rewrite length_substring in Hr by lia. destruct rest; simpl in *; [done|lia]. }
      rewrite app_nil_r_string in Hr. by rewrite <- Hr.
    + destruct (IH n) as [front Hf]; [lia|]. exists (String c front).
      simpl. by rewrite <- Hf.
Qed.

Lemma beforeFirst_prefix (sep : ascii) (s : string) :
  exists rest, s = Js.beforeFirst sep s +:+ rest.
Proof.
  induction s as [|c s [rest IH]]; [by exists ""|]. simpl.
  destruct (Ascii.eqb c sep); [by exists (String c s)|].
  exists rest. simpl. by rewrite <- IH.
Qed.

Lemma append_assoc (a b c : string) : (a +:+ b) +:+ c = a +:+ b +:+ c.
Proof. induction a as [|x a IH]; simpl; [done|]. by rewrite IH. Qed.

Lemma substring_app_exact (first rest : string) :
  String.substring 0 (String.length first) (first +:+ rest) = first.
Proof.
  induction first as [|c first IH]; simpl; [by destruct rest|]. by rewrite IH.
Qed.

Lemma startsWith_app (p a b : string) :
  Js.startsWith p a = true -> Js.startsWith p (a +:+ b) = true.
Proof.
  revert a. induction p as [|x p IH]; intros a H; [done|].
  destruct a as [|y a]; simpl in *; [done|].
  apply andb_prop in H as [-> H]. simpl. by apply IH.
Qed.

Lemma includes_app (p a b : string) :
  Js.includes p a = true -> Js.includes p (a +:+ b) = true.
Proof.
  induction a as [|y a IH]; simpl; intros H.
  - rewrite orb_false_r in H. destruct p; [|done]. by destruct b.
  - apply orb_prop in H as [H|H].
    + change (Js.startsWith p (String y a +:+ b)
              || Js.includes p (a +:+ b) = true).
      by rewrite (startsWith_app p (String y a) b H).
    + rewrite (IH H). by rewrite orb_true_r.
Qed.

Lemma includes_beforeFirst (sep : ascii) (s : string) :
  Js.includes (String sep "") (Js.beforeFirst sep s) = false.
Proof.
  induction s as [|c s IH]; [done|]. simpl.
  destruct (Ascii.eqb c sep) eqn:Hc; [done|]. simpl.
  rewrite Ascii.eqb_sym, Hc. simpl. exact IH.
Qed.

(** X4. The placeholder of a removed text shows little of the text and
    is short, however long the text: nothing of a text below 30 characters;
    the first 10 and the last 10 characters of a text below 100, around a
    fixed notice; otherwise a start of the text of 50 characters at most,
    cut before the first full stop if that comes first.  It never has more
    than 84 characters. *)
Theorem filteredText_hides (text : string) :
  String.length (filteredText text) <= 84 /\
  (String.length text < 30 -> filteredText text = "[Content filtered]") /\
  (30 <= String.length text < 100 ->
   exists first middle last,
     text = first +:+ middle +:+ last /\
     String.length first = 10 /\ String.length last = 10 /\
     filteredText text = first +:+ "... [Content filtered] ..." +:+ last) /\
  (100 <= String.length text ->
   exists shown rest ending,
     text = shown +:+ rest /\ String.length shown <= 50 /\
     (ending = "" \/ ending = "...") /\
     Js.includes "." shown = false /\
     filteredText text
     = shown +:+ ending +:+ String "010" (String "010" "[Additional content filtered]")).
Proof.
  unfold filteredText.
  destruct (Nat.ltb_spec (String.length text) 30) as [H30|H30].
  { split_and!; [simpl; lia|done|lia|lia]. }
  destruct (Nat.ltb_spec (String.length text) 100) as [H100|H100].
  - unfold Js.substring, Js.substringFrom.
    destruct (substring_suffix (String.length text - 10) text) as [front Hfr]; [lia|].
    remember (String.substring (String.length text - 10)
                (String.length text - (String.length text - 10)) text) as last eqn:Hlast.
    assert (String.length last = 10) as Hl.
    { rewrite Hlast. rewrite length_substring; lia. }
    assert (String.length front = String.length text - 10) as Hfl.
    { apply (f_equal String.length) in Hfr. rewrite length_append in Hfr. lia. }
    destruct (substring_prefix 10 front) as [middle Hm].
    remember (String.substring 0 10 front) as first eqn:Hfirst.
    assert (String.length first = 10) as Hf
        by (rewrite Hfirst; apply length_substring; lia).
    assert (text = first +:+ middle +:+ last) as Htext
        by (by rewrite Hfr, Hm, append_assoc).
    assert (String.substring 0 (10 - 0) text = first) as ->.
    { rewrite Htext. simpl Nat.sub. rewrite <- Hf at 1. apply substring_app_exact. }
    split_and!.
    + rewrite !length_append, Hf, Hl. simpl. lia.
    + lia.
    + intros _. exists first, middle, last. done.
    + lia.
  - remember (Js.beforeFirst "." text) as firstSentence eqn:Hfs.
    assert (Js.includes "." firstSentence = false) as Hdot
        by (rewrite Hfs; apply includes_beforeFirst).
    destruct (beforeFirst_prefix "." text) as [rest1 Hr1]. rewrite <- Hfs in Hr1.
    destruct (Nat.ltb_spec 50 (String.length firstSentence)) as [H50|H50].
    + unfold Js.substring. simpl Nat.sub.
      destruct (substring_prefix 50 firstSentence) as [rest2 Hr2].
      remember (String.substring 0 50 firstSentence) as shown eqn:Hshown.
      assert (String.length shown = 50) as Hlen
          by (rewrite Hshown; apply length_substring; lia).
      split_and!.
      * rewrite !length_append, Hlen. simpl. lia.
      * lia.
      * lia.
      * intros _. exists shown, (rest2 +:+ rest1), "...".
        split_and!.
        -- by rewrite Hr1, Hr2, append_assoc.
        -- lia.
        -- by right.
        -- destruct (Js.includes "." shown) eqn:Hi; [|done].
           rewrite Hr2, (includes_app "." shown rest2 Hi) in Hdot. done.
        -- by rewrite append_assoc.
    + split_and!.
      * rewrite !length_append. simpl. lia.
      * lia.
      * lia.
      * intros _. exists firstSentence, rest1, "". split_and!; try done. by left.
Qed.

(** X5. An element that is not in the page, or whose trimmed text has
    fewer than 5 characters, is skipped before any request is made: the
    service is not asked, so its answer plays no part, and the page is not
    changed (no attribute is written).  A short text that holds a listed
    word, "shit" say, is skipped as well. *)
Theorem short_text_is_skipped (near : nat -> nat -> bool) (s : pstate) (href : string)
    (h : nat) (d : document) :
  findF h (body d) = None \/
  (exists n, findF h (body d) = Some n /\ String.length (Js.trim (textContent n)) < 5) ->
  exists reason,
    In reason ["element_not_connected"; "no_text"; "text_too_short"] /\
    (processTextElement_start s href h d).2 = inl (skipped reason) /\
    forall service, processTextElement near s href h service d = (d, skipped reason).
Proof.
  intros [Hn|(n & Hn & Hlen)]; unfold processTextElement, processTextElement_start;
    rewrite Hn.
  - exists "element_not_connected". simpl. tauto.
  - destruct (bool_decide (Js.trim (textContent n) = "")) eqn:He.
    + exists "no_text". simpl. tauto.
    + destruct (Nat.ltb_spec (String.length (Js.trim (textContent n))) 5); [|lia].
      exists "text_too_short". simpl. tauto.
Qed.

Lemma short_text_is_skipped_witness :
  processTextElement nowhere initial_state sample_href 1
    (fun _ => Data (Some "remove") ["Profanity"]) short_page
  = (short_page, skipped "text_too_short").
Proof.
  destruct (short_text_is_skipped nowhere initial_state sample_href 1 short_page)
    as (reason & _ & Hst & Hall).
  - right. exists (Element 1 (plainElement "P") [TextNode " shit "]).
    split; [reflexivity|]. vm_compute. lia.
  - assert (reason = "text_too_short") as -> by (vm_compute in Hst; congruence).
    apply Hall.
Defined.

(** X6. Processing an element a second time writes the saved text anew,
    from what the element shows then: when the element was filtered, that is
    the placeholder.  The text saved at the first filter is gone, and after
    a verdict that keeps the element the restore gives the element the
    placeholder, not its first text. *)
Theorem second_processing_loses_saved_text (near : nat -> nat -> bool) (s : pstate)
    (href : string) (h : nat) (shown : string) (reasons reasons' : list string)
    (d : document) (e : edata) (ks : list node) :
  located unmarked h (body d) e ks -> unmarked e ->
  5 <= String.length (Js.trim shown) ->
  let filteredPage := applyTextFilter near h shown reasons d in
  let again :=
    processTextElement near s href h (fun _ => Data (Some "allow") reasons') filteredPage in
  again.2 = kept /\
  (exists e1,
     findF h (body again.1) = Some (Element h e1 (setTextContent shown)) /\
     getAttribute "data-original-text" e1 = Some (Js.trim shown)) /\
  (exists e2,
     findF h (body (restoreOriginalContent again.1))
     = Some (Element h e2 [TextNode (Js.trim shown)])).
Proof.
  intros Hl He Hlen filteredPage again.
  assert (forall a, unmarked a -> contains INDICATOR_CLASS a = false) as Hind.
  { intros a Ha. apply unmarked_contains; [exact Ha|]. simpl. tauto. }
  pose proof (applyTextFilter_located unmarked near h shown reasons d e ks
                Hind (Hind e He) Hl) as H1. fold filteredPage in H1.
  assert (shown <> "") as Hne by (intros ->; simpl in Hlen; lia).
  assert (textContentF (setTextContent shown) = shown) as Htc.
  { unfold setTextContent. rewrite bool_decide_eq_false_2 by done.
    simpl. apply app_nil_r_string. }
  destruct (processTextElement_start_located unmarked s href h filteredPage _ _ H1)
    as (d1 & Hst & _ & H2); [by rewrite Htc|].
  rewrite Htc in Hst, H2.
  assert (again = (d1, kept)) as Hag.
  { unfold again, processTextElement. rewrite Hst. reflexivity. }
  rewrite Hag. simpl. split; [done|]. split.
  - eexists. split; [exact (located_findF _ _ _ _ _ H2)|].
    unfold getAttribute. simpl. by rewrite lookup_insert_eq.
  - (* the restore sees a filtered element whose saved text is the placeholder *)
    set (e1 := setAttribute "data-original-text" (Js.trim shown)
                 (classAdd "socioio-filtered-text" e)) in *.
    assert (forall c, In c markerClasses -> c <> "socioio-filtered-text" ->
                      contains c e1 = false) as Hc1.
    { intros c Hin Hc.
      change (contains c (classAdd "socioio-filtered-text" e) = false).
      rewrite contains_classAdd, (unmarked_contains e c He Hin).
      by rewrite bool_decide_eq_false_2. }
    assert (contains "socioio-filtered-text" e1 = true) as Hft.
    { change (contains "socioio-filtered-text" (classAdd "socioio-filtered-text" e) = true).
      rewrite contains_classAdd. by rewrite orb_true_r. }
    assert (Js.trim shown <> "") as Htne by (intros Heq; rewrite Heq in Hlen; simpl in Hlen; lia).
    unfold restoreOriginalContent. simpl.
    assert (located unmarked h (removeAll (fun _ e => isSocioNode e) (body d1)) e1
              (setTextContent shown)) as R1.
    { apply removeAll_located_text; [| |exact H2].
      - intros i a _ Ha. unfold isSocioNode.
        by rewrite !(unmarked_contains a _ Ha) by (simpl; tauto).
      - unfold isSocioNode. by rewrite !Hc1 by (simpl; tauto || done). }
    set (e3 := if isBlurredImage e1 then restoreImage e1 else e1).
    assert (located unmarked h
              (restoreImages (removeAll (fun _ e => isSocioNode e) (body d1)))
              e3 (setTextContent shown)) as R2.
    { pose proof (restoreImages_located h _ e1 (setTextContent shown)
                    (Hc1 "socioio-image-wrapper" ltac:(simpl; tauto) ltac:(done)) R1) as H.
      unfold restoreImages in H at 2. by rewrite rwF_setTextContent in H. }
    assert (contains "socioio-filtered-text" e3 = true) as Hft3.
    { unfold e3. destruct (isBlurredImage e1); [|exact Hft].
      by rewrite contains_restoreImage, Hft. }
    assert (contains "socioio-overlay" e3 = false) as Hov3.
    { unfold e3. destruct (isBlurredImage e1).
      - rewrite contains_restoreImage. by rewrite Hc1 by (simpl; tauto || done).
      - by rewrite Hc1 by (simpl; tauto || done). }
    assert (getAttribute "data-original-text" e3 = Some (Js.trim shown)) as Hget3.
    { unfold e3. destruct (isBlurredImage e1).
      - rewrite getAttribute_restoreImage. unfold e1, getAttribute. simpl.
        by rewrite lookup_insert_eq.
      - unfold e1, getAttribute. simpl. by rewrite lookup_insert_eq. }
    set (e4 := set_style [] (classRemove "socioio-filtered-text"
                               (removeAttribute "data-original-text" e3))).
    assert (located unmarked h
              (restoreText (restoreImages (removeAll (fun _ e => isSocioNode e) (body d1))))
              e4 (setTextContent (Js.trim shown))) as R3.
    { apply (restoreText_located h _ e3 (setTextContent shown) (Js.trim shown));
        [exact Hft3| |exact R2].
      rewrite Hget3. simpl. by rewrite bool_decide_eq_false_2. }
    exists e4.
    apply (located_findF unmarked).
    replace [TextNode (Js.trim shown)] with (setTextContent (Js.trim shown))
      by (unfold setTextContent; by rewrite bool_decide_eq_false_2).
    apply removeAll_located_text; [| |exact R3].
    + intros i a _ Ha. by apply unmarked_contains; [|simpl; tauto].
    + unfold e4. change (contains "socioio-overlay" (set_style [] ?x))
        with (contains "socioio-overlay" x).
      rewrite contains_classRemove.
      change (contains "socioio-overlay" (removeAttribute "data-original-text" e3))
        with (contains "socioio-overlay" e3). by rewrite Hov3.
Qed.

Lemma second_processing_loses_saved_text_witness :
  exists e2,
    findF 1 (body (restoreOriginalContent
                     (processTextElement nowhere initial_state sample_href 1
                        (fun _ => Data (Some "allow") [])
                        (applyTextFilter nowhere 1 "[Content filtered]" ["Profanity"]
                           sample_page)).1))
    = Some (Element 1 e2 [TextNode "[Content filtered]"]).
Proof.
  destruct (second_processing_loses_saved_text nowhere initial_state sample_href 1
              "[Content filtered]" ["Profanity"] [] sample_page (plainElement "P")
              [TextNode "  Oh SHIT, that is bad "] sample_located_1 (sample_unmarked "P"))
    as (_ & _ & He2).
  - vm_compute. lia.
  - exact He2.
Defined.

(** ** Images: the first sweep *)

Lemma queueImageInitial_eq {R : Resolver} (href : string) (s : pstate) (i : nat) (e : edata) :
  queueImageInitial href s i e
  = if Nat.ltb (naturalWidth e) 50 || Nat.ltb (naturalHeight e) 50 then s
    else if isFromSafeSource e then s
    else if isSensitive href e
    then set_imageElementsProcessed ({[i]} ∪ imageElementsProcessed s)
           (push (Item Image i (Some "high")) s)
    else if bool_decide (i ∈ imageElementsProcessed s) then s
    else set_imageElementsProcessed ({[i]} ∪ imageElementsProcessed s)
           (push (Item Image i None) s).
Proof. reflexivity. Qed.

Lemma queueImageInitial_cases {R : Resolver} (href : string) (s : pstate) (i : nat) (e : edata) :
  (queueImageInitial href s i e = s) \/
  (50 <= naturalWidth e /\ 50 <= naturalHeight e /\ isFromSafeSource e = false /\
   exists p,
     queueImageInitial href s i e
     = set_imageElementsProcessed ({[i]} ∪ imageElementsProcessed s)
         (push (Item Image i p) s)).
Proof.
  rewrite queueImageInitial_eq.
  destruct (Nat.ltb_spec (naturalWidth e) 50) as [|Hw]; [by left|].
  destruct (Nat.ltb_spec (naturalHeight e) 50) as [|Hh]; [by left|].
  cbn [orb]. destruct (isFromSafeSource e) eqn:Hs; [by left|].
  destruct (isSensitive href e).
  - right. eauto 10.
  - destruct (bool_decide (i ∈ imageElementsProcessed s)); [by left|]. right. eauto 10.
Qed.

(** X7. The loop of the first sweep ([applyImmediateBlurToAllImages])
    only adds to the queue, and what it adds are images of the list it is
    given that measure 50 pixels or more each way and whose address, as
    the page resolves it, holds no listed safe source; each one is in the
    set of processed images afterwards, and the set loses nothing. *)
Theorem first_sweep_queues_large_images {R : Resolver} (href : string)
    (images : list node) (s : pstate) :
  let s' := foldl (queueNodeInitial href) s images in
  imageElementsProcessed s ⊆ imageElementsProcessed s' /\
  exists added,
    processingQueue s' = processingQueue s ++ added /\
    Forall (fun it =>
              type it = Image /\ element it ∈ imageElementsProcessed s' /\
              exists e ks,
                In (Element (element it) e ks) images /\
                50 <= naturalWidth e /\ 50 <= naturalHeight e /\
                isFromSafeSource e = false) added.
Proof.
  revert s. induction images as [|n images IH]; intros s; simpl.
  - split; [done|]. exists []. by rewrite app_nil_r.
  - destruct (IH (queueNodeInitial href s n)) as (Hsub & added & Hq & Hall).
    assert (imageElementsProcessed s ⊆ imageElementsProcessed (queueNodeInitial href s n)
            /\ exists first,
                 processingQueue (queueNodeInitial href s n) = processingQueue s ++ first /\
                 Forall (fun it =>
                           type it = Image /\
                           element it ∈ imageElementsProcessed (queueNodeInitial href s n) /\
                           exists e ks, n = Element (element it) e ks /\
                             50 <= naturalWidth e /\ 50 <= naturalHeight e /\
                             isFromSafeSource e = false) first)
      as (Hsub1 & first & Hq1 & Hall1).
    { destruct n as [t|i e ks]; simpl.
      - split; [done|]. exists []. by rewrite app_nil_r.
      - destruct (queueImageInitial_cases href s i e)
          as [->|(Hw & Hh & Hs & p & ->)].
        + split; [done|]. exists []. by rewrite app_nil_r.
        + simpl. split; [apply union_subseteq_r|]. exists [Item Image i p].
          split; [done|]. constructor; [|constructor]. simpl. split; [done|].
          split; [apply elem_of_union_l, elem_of_singleton; done|]. eauto 10. }
    split; [by etrans|]. exists (first ++ added). split.
    + by rewrite Hq, Hq1, app_assoc.
    + apply Forall_app. split.
      * eapply Forall_impl; [exact Hall1|]. simpl.
        intros it (Ht & Hin & e & ks & -> & Hrest). split; [done|].
        split; [exact (Hsub _ Hin)|]. exists e, ks. split; [by left|exact Hrest].
      * eapply Forall_impl; [exact Hall|]. simpl.
        intros it (Ht & Hin & e & ks & Hi & Hrest). split; [done|].
        split; [done|]. exists e, ks. split; [by right|exact Hrest].
Qed.

(** X8. The first sweep remembers ordinary images, not sensitive ones.  A
    large image whose address, as the page resolves it, holds no listed
    safe source is queued once when neither that address, its alternative
    text nor the address of the page holds a sensitive keyword: a second
    pass over it changes nothing.  When one of them does, every pass queues
    the image again, with high priority, whether or not it is in the set of
    processed images. *)
Theorem sensitive_images_are_queued_again {R : Resolver} (href : string) (s : pstate) (i : nat)
    (e : edata) :
  50 <= naturalWidth e -> 50 <= naturalHeight e -> isFromSafeSource e = false ->
  let once := queueImageInitial href s i e in
  let twice := queueImageInitial href once i e in
  (isSensitive href e = false ->
     twice = once /\
     (i ∉ imageElementsProcessed s ->
      processingQueue once = processingQueue s ++ [Item Image i None])) /\
  (isSensitive href e = true ->
     processingQueue twice
     = processingQueue s ++ [Item Image i (Some "high"); Item Image i (Some "high")]).
Proof.
  intros Hw Hh Hs once twice. subst twice once. rewrite !queueImageInitial_eq.
  destruct (Nat.ltb_spec (naturalWidth e) 50); [lia|].
  destruct (Nat.ltb_spec (naturalHeight e) 50); [lia|]. cbn [orb].
  rewrite Hs. destruct (isSensitive href e); split; try done.
  - intros _. simpl. by rewrite <- app_assoc.
  - intros _. split.
    + destruct (bool_decide (i ∈ imageElementsProcessed s)) eqn:Hi.
      * by rewrite Hi.
      * simpl. rewrite bool_decide_eq_true_2; [done|].
        apply elem_of_union_l, elem_of_singleton. done.
    + intros Hni. by rewrite bool_decide_eq_false_2.
Qed.

Lemma sensitive_images_are_queued_again_witness :
  processingQueue
    (queueImageInitial (R:=asWritten) sample_href
       (queueImageInitial (R:=asWritten) sample_href initial_state 7 sensitive_image)
       7 sensitive_image)
  = [Item Image 7 (Some "high"); Item Image 7 (Some "high")] /\
  queueImageInitial (R:=asWritten) sample_href
    (queueImageInitial (R:=asWritten) sample_href initial_state 7 plain_image) 7 plain_image
  = queueImageInitial (R:=asWritten) sample_href initial_state 7 plain_image.
Proof.
  destruct (sensitive_images_are_queued_again (R:=asWritten) sample_href initial_state 7
              sensitive_image)
    as [_ Hs]; [vm_compute; lia|vm_compute; lia|reflexivity|].
  destruct (sensitive_images_are_queued_again (R:=asWritten) sample_href initial_state 7
              plain_image)
    as [Hp _]; [vm_compute; lia|vm_compute; lia|reflexivity|].
  split; [exact (Hs eq_refl)|exact (proj1 (Hp eq_refl))].
Defined.

(** ** A write to one element leaves the data of the others *)

Section DataWrite.

Variables (h h' : nat) (u : edata -> edata).

Let F : nat -> edata -> list node -> action :=
  fun i e ks =>
    if bool_decide (i = h')
    then let '(e', ks') := (u e, ks) in Replace [Element i e' ks']
    else Descend e.

Let U : edata -> edata := if bool_decide (h = h') then u else id.

Lemma nodeData_found (l : list node) (x : node) :
  findF h l = Some x -> exists e, nodeData (Some x) = Some e.
Proof. intros Hx. destruct (findF_located h l x Hx) as (e & ks & -> & _). by exists e. Qed.

Lemma nodeData_findF_kids (ks : list node) :
  Forall (fun n => nodeData (findF h (rw F n)) = U <$> nodeData (find h n)) ks ->
  nodeData (findF h (rwF F ks)) = U <$> nodeData (findF h ks).
Proof.
  induction 1 as [|k ks Hk _ IH]; [done|].
  rewrite rwF_cons, findF_app, findF_cons.
  destruct (find h k) as [x|] eqn:Hx.
  - destruct (find_located h k x Hx) as (a & kk & -> & _). simpl in Hk.
    destruct (findF h (rw F k)) as [y|]; [exact Hk|done].
  - destruct (findF h (rw F k)) as [y|] eqn:Hy; [|exact IH].
    destruct (nodeData_found _ _ Hy) as (a & Ha). rewrite Ha in Hk. done.
Qed.

Lemma nodeData_find_rw (n : node) :
  nodeData (findF h (rw F n)) = U <$> nodeData (find h n).
Proof.
  induction n as [s|i e ks IH] using node_induction; [done|].
  rewrite rw_Element, find_Element. unfold F at 1, U.
  destruct (bool_decide (i = h')) eqn:Hi'.
  - apply bool_decide_eq_true in Hi' as ->. rewrite findF_cons, find_Element.
    destruct (bool_decide (h' = h)) eqn:Hi.
    + apply bool_decide_eq_true in Hi as ->. by rewrite bool_decide_eq_true_2.
    + apply bool_decide_eq_false in Hi. rewrite bool_decide_eq_false_2 by done.
      destruct (findF h ks) as [[t|j a kk]|]; done.
  - apply bool_decide_eq_false in Hi'. rewrite findF_cons, find_Element.
    destruct (bool_decide (i = h)) eqn:Hi.
    + apply bool_decide_eq_true in Hi as ->. by rewrite bool_decide_eq_false_2.
    + pose proof (nodeData_findF_kids ks IH) as Hks. unfold U in Hks.
      destruct (findF h (rwF F ks)); exact Hks.
Qed.

Lemma elementData_modify (l : list node) :
  elementData h (modify h' (fun e ks => (u e, ks)) l) = U <$> elementData h l.
Proof.
  apply (nodeData_findF_kids l). apply Forall_forall. intros n _. apply nodeData_find_rw.
Qed.

End DataWrite.

(** ** Images: [addImagesToProcessingQueue] *)

Lemma addImage_eq {R : Resolver} (d : document) (s : pstate) (c h : nat) :
  addImage (d, s, c) h
  = if from_option passedOver true (elementData h (body d)) then (d, s, c)
    else (Document (modify h (fun e ks => (classAdd EXCLUSION_CLASS e, ks)) (body d))
                   (nextId d),
          push (Item Image h None) s, S c).
Proof.
  unfold addImage, passedOver, elementData, nodeData.
  destruct (findF h (body d)) as [[t|i e ks]|]; try done. cbn [from_option].
  destruct (bool_decide (src e = "")); [done|]. simpl.
  by destruct (contains EXCLUSION_CLASS e).
Qed.

Lemma skips_marked {R : Resolver} (d : document) (h h' : nat) :
  from_option passedOver true
    (elementData h (modify h' (fun e ks => (classAdd EXCLUSION_CLASS e, ks)) (body d)))
  = from_option passedOver true (elementData h (body d)) || bool_decide (h = h').
Proof.
  rewrite elementData_modify.
  destruct (elementData h (body d)) as [e|]; [|done].
  cbn [from_option fmap option_fmap option_map].
  destruct (bool_decide (h = h')); [|by rewrite orb_false_r].
  unfold passedOver, src. rewrite getAttribute_classAdd, contains_classAdd.
  rewrite (bool_decide_eq_true_2 (EXCLUSION_CLASS = EXCLUSION_CLASS)) by done.
  by rewrite !orb_true_r.
Qed.

Lemma set_processingQueue_twice (q q' : list item) (s : pstate) :
  set_processingQueue q (set_processingQueue q' s) = set_processingQueue q s.
Proof. reflexivity. Qed.

Lemma set_processingQueue_same (s : pstate) : set_processingQueue (processingQueue s) s = s.
Proof. by destruct s. Qed.

Lemma elem_of_cons_bool (h h' : nat) (l : list nat) :
  bool_decide (h ∈ h' :: l) = bool_decide (h = h') || bool_decide (h ∈ l).
Proof.
  destruct (bool_decide (h = h')) eqn:H1; simpl.
  - apply bool_decide_eq_true in H1 as ->. apply bool_decide_eq_true_2, list_elem_of_here.
  - apply bool_decide_eq_false in H1. apply bool_decide_ext.
    rewrite elem_of_cons. tauto.
Qed.

Lemma addImages_loop {R : Resolver} (images : list nat) (d : document) (s : pstate) (c h : nat) :
  let r := foldl addImage (d, s, c) images in
  exists added,
    processingQueue r.1.2 = processingQueue s ++ added /\
    set_processingQueue (processingQueue s) r.1.2 = s /\
    r.2 = c + length added /\
    List.filter (about h) added
    = (if from_option passedOver true (elementData h (body d))
          || negb (bool_decide (h ∈ images)) then []
       else [Item Image h None]) /\
    from_option passedOver true (elementData h (body r.1.1))
    = from_option passedOver true (elementData h (body d)) || bool_decide (h ∈ images).
Proof.
  revert d s c. induction images as [|h' rest IH]; intros d s c; cbv zeta; cbn [foldl].
  - exists []. cbn [fst snd]. rewrite app_nil_r, set_processingQueue_same, !orb_false_r, orb_true_r.
    repeat split; try done; simpl; lia.
  - rewrite addImage_eq, elem_of_cons_bool.
    destruct (from_option passedOver true (elementData h' (body d))) eqn:Hp.
    + destruct (IH d s c) as (added & Hq & Hs & Hc & Hf & Hpo). exists added.
      repeat split; try done.
      * rewrite Hf. destruct (bool_decide (h = h')) eqn:Hh; [|done].
        apply bool_decide_eq_true in Hh as ->. by rewrite Hp.
      * rewrite Hpo. destruct (bool_decide (h = h')) eqn:Hh; [|done].
        apply bool_decide_eq_true in Hh as ->. by rewrite Hp.
    + destruct (IH (Document (modify h' (fun e ks => (classAdd EXCLUSION_CLASS e, ks))
                                (body d)) (nextId d))
                   (push (Item Image h' None) s) (S c))
        as (added & Hq & Hs & Hc & Hf & Hpo).
      cbn [body] in Hf, Hpo. rewrite skips_marked in Hf, Hpo.
      exists (Item Image h' None :: added). repeat split.
      * rewrite Hq. simpl. by rewrite <- app_assoc.
      * apply (f_equal (set_processingQueue (processingQueue s))) in Hs.
        rewrite set_processingQueue_twice in Hs. rewrite Hs. unfold push.
        by rewrite set_processingQueue_twice, set_processingQueue_same.
      * rewrite Hc. simpl. lia.
      * simpl. unfold about at 1. simpl.
        destruct (Nat.eqb_spec h' h) as [->|Hne].
        -- rewrite Hf, Hp. rewrite (bool_decide_eq_true_2 (h = h)) by done.
           by rewrite orb_true_r.
        -- rewrite Hf. rewrite (bool_decide_eq_false_2 (h = h')) by done.
           by rewrite orb_false_r.
      * rewrite Hpo. by rewrite orb_assoc.
Qed.

Lemma addImages_noop {R : Resolver} (images : list nat) (d : document) (s : pstate) (c : nat) :
  (forall h, h ∈ images -> from_option passedOver true (elementData h (body d)) = true) ->
  foldl addImage (d, s, c) images = (d, s, c).
Proof.
  induction images as [|h rest IH]; intros Hall; [done|]. cbn [foldl].
  rewrite addImage_eq, (Hall h) by apply list_elem_of_here.
  apply IH. intros h2 Hin. apply Hall. by apply list_elem_of_further.
Qed.

Lemma inHand_processNextBatch (s : pstate) : inHand (processNextBatch s) = inHand s.
Proof.
  destruct (decide (processNextBatch s = s)) as [->|Hne]; [done|].
  destruct (processNextBatch_started s Hne) as (_ & _ & _ & ->).
  unfold inHand. simpl. rewrite map_app, concat_app. simpl.
  rewrite fst_pending, app_nil_r, <- app_assoc. by rewrite take_drop.
Qed.

Lemma addImages_keeps {R : Resolver} (images : list nat) (d : document) (s : pstate)
    (c x : nat) :
  is_Some (elementData x (body d)) ->
  is_Some (elementData x (body (foldl addImage (d, s, c) images).1.1)).
Proof.
  revert d s c. induction images as [|h' rest IH]; intros d s c Hx; cbn [foldl]; [done|].
  rewrite addImage_eq.
  destruct (from_option passedOver true (elementData h' (body d))); [by apply IH|].
  apply IH. cbn [body]. rewrite elementData_modify. by apply fmap_is_Some.
Qed.

(** X9. Given images that are in the page, [addImagesToProcessingQueue]
    queues an image of the page exactly once when the image is in the list,
    has a source and lacks the class of processed elements, and queues
    nothing for it otherwise; the set of processed images plays no part.
    All the images of the list are passed over afterwards, so a second call
    on the same list changes neither the page nor the state it is given.
    (What the loop does with an element that has left the page is not
    covered.) *)
Theorem addImages_queues_once {R : Resolver} (images : list nat) (d : document)
    (s : pstate) (h : nat) (e : edata) :
  (forall i, i ∈ images ->
     exists a, elementData i (body d) = Some a /\ tagName a = "IMG") ->
  elementData h (body d) = Some e ->
  let r := addImagesToProcessingQueue images d s in
  (exists added,
     inHand r.2 = inHand s ++ added /\
     List.filter (about h) added
     = (if passedOver e || negb (bool_decide (h ∈ images)) then []
        else [Item Image h None])) /\
  imageElementsProcessed r.2 = imageElementsProcessed s /\
  (forall i, i ∈ images ->
     exists e1, elementData i (body r.1) = Some e1 /\ passedOver e1 = true) /\
  (forall s2, addImagesToProcessingQueue images r.1 s2 = (r.1, s2)).
Proof.
  intros Hpage He. unfold addImagesToProcessingQueue.
  assert (forall x, x ∈ images ->
            is_Some (elementData x (body (foldl addImage (d, s, 0) images).1.1))) as Hkeep.
  { intros x Hx. apply addImages_keeps. destruct (Hpage x Hx) as (a & -> & _). by eexists. }
  destruct (foldl addImage (d, s, 0) images) as [[d1 s1] c1] eqn:Hr. simpl.
  simpl in Hkeep.
  assert (forall x, from_option passedOver true (elementData x (body d1))
                    = from_option passedOver true (elementData x (body d))
                      || bool_decide (x ∈ images)) as Hpo.
  { intros x. destruct (addImages_loop images d s 0 x) as (a & _ & _ & _ & _ & Hx).
    by rewrite Hr in Hx. }
  destruct (addImages_loop images d s 0 h) as (added & Hq & Hs & Hc & Hf & _).
  rewrite Hr in Hq, Hs, Hc. simpl in Hq, Hs, Hc.
  rewrite He in Hf. cbn [from_option] in Hf.
  assert (inHand s1 = inHand s ++ added) as Hin.
  { unfold inHand. rewrite Hq, app_assoc. by rewrite <- Hs. }
  assert (imageElementsProcessed s1 = imageElementsProcessed s) as Himg by (by rewrite <- Hs).
  split_and!.
  - exists added. split; [|exact Hf].
    destruct (0 <? c1)%nat; [by rewrite inHand_processNextBatch|done].
  - destruct (0 <? c1)%nat; [|done].
    destruct (decide (processNextBatch s1 = s1)) as [->|Hne]; [done|].
    by destruct (processNextBatch_started s1 Hne) as (_ & _ & _ & ->).
  - intros i Hi. destruct (Hkeep i Hi) as [e1 He1]. exists e1. split; [done|].
    pose proof (Hpo i) as Hi'. rewrite He1 in Hi'. cbn [from_option] in Hi'.
    rewrite Hi'. rewrite (bool_decide_eq_true_2 _ Hi). by rewrite orb_true_r.
  - intros s2. rewrite addImages_noop; [done|].
    intros x Hx. rewrite Hpo. rewrite (bool_decide_eq_true_2 _ Hx). by rewrite orb_true_r.
Qed.

Lemma addImages_queues_once_witness :
  List.filter (about 3)
    (inHand (addImagesToProcessingQueue (R:=asWritten) [3; 4] sample_page initial_state).2)
  = [Item Image 3 None].
Proof.
  destruct (addImages_queues_once (R:=asWritten) [3; 4] sample_page initial_state 3
              (imageElement "http://example.com/icon.png" 40 40))
    as ((added & Hin & Hf) & _).
  - intros i Hi. apply elem_of_cons in Hi as [->|Hi]; [by eexists|].
    apply list_elem_of_singleton in Hi as ->. by eexists.
  - reflexivity.
  - rewrite Hin. exact Hf.
Defined.

Lemma addImages_inHand {R : Resolver} (images : list nat) (d : document) (s : pstate) (h : nat) :
  exists added,
    inHand (addImagesToProcessingQueue images d s).2 = inHand s ++ added /\
    List.filter (about h) added
    = (if from_option passedOver true (elementData h (body d))
          || negb (bool_decide (h ∈ images)) then []
       else [Item Image h None]).
Proof.
  unfold addImagesToProcessingQueue.
  destruct (addImages_loop images d s 0 h) as (added & Hq & Hs & _ & Hf & _).
  destruct (foldl addImage (d, s, 0) images) as [[d1 s1] c1]. simpl in *.
  exists added. split; [|exact Hf].
  assert (inHand s1 = inHand s ++ added) as Hin.
  { unfold inHand. rewrite Hq, app_assoc. by rewrite <- Hs. }
  destruct (0 <? c1)%nat; [by rewrite inHand_processNextBatch|done].
Qed.

(** ** Images: [scanImagesForModeration] *)

Lemma contains_markAnalyzing (c : string) (e : edata) :
  contains c (markAnalyzing e) = contains c e || bool_decide (c = EXCLUSION_CLASS).
Proof.
  change (contains c (markAnalyzing e)) with (contains c (classAdd EXCLUSION_CLASS e)).
  apply contains_classAdd.
Qed.

Lemma set_imageElementsProcessed_same (s : pstate) :
  set_imageElementsProcessed (imageElementsProcessed s) s = s.
Proof. by destruct s. Qed.

Section Scan.

Variable complete : nat -> bool.
Variable href : string.
Context {R : Resolver}.

Lemma scanImage_step (d : document) (s : pstate) (sent : list request) (h' : nat) :
  exists d' X sent',
    scanImage complete href (d, s, sent) h' = (d', set_imageElementsProcessed X s, sent ++ sent') /\
    imageElementsProcessed s ⊆ X /\ X ⊆ {[h']} ∪ imageElementsProcessed s /\
    (forall x, x <> h' -> elementData x (body d') = elementData x (body d)) /\
    (forall e, elementData h' (body d) = Some e ->
       if analysedNow complete s h' e && negb (contains EXCLUSION_CLASS e)
       then (exists e1, elementData h' (body d') = Some e1 /\
                        contains EXCLUSION_CLASS e1 = true) /\
            (backendRunning s = true ->
             In (Request (API_BASE_URL +:+ "/analyze_image") (src e) href) sent')
       else d' = d).
Proof.
  assert (exists d' X sent',
            (d, s, sent) = (d', set_imageElementsProcessed X s, sent ++ sent') /\
            imageElementsProcessed s ⊆ X /\ X ⊆ {[h']} ∪ imageElementsProcessed s /\
            (forall x, x <> h' -> elementData x (body d') = elementData x (body d)) /\
            d' = d) as Hsame.
  { exists d, (imageElementsProcessed s), [].
    rewrite set_imageElementsProcessed_same, app_nil_r.
    repeat split; try done. apply union_subseteq_r. }
  unfold scanImage.
  destruct (findF h' (body d)) as [[t|i a ks]|] eqn:Hf.
  - destruct Hsame as (d' & X & sent' & ? & ? & ? & ? & ?). exists d', X, sent'.
    repeat split; try done.
    intros e He; unfold elementData in He; rewrite Hf in He; done.
  - unfold analysedNow.
    destruct (complete h' && (0 <? naturalWidth a)%nat) eqn:Hc.
    2:{ destruct Hsame as (d' & X & sent' & ? & ? & ? & ? & ?). exists d', X, sent'.
        repeat split; try done. intros e He; unfold elementData in He; rewrite Hf in He; injection He as <-. by rewrite Hc. }
    destruct (bool_decide (h' ∈ imageElementsProcessed s)) eqn:Hin.
    { destruct Hsame as (d' & X & sent' & ? & ? & ? & ? & ?). exists d', X, sent'.
      repeat split; try done. intros e He; unfold elementData in He; rewrite Hf in He; injection He as <-. by rewrite Hc. }
    unfold processImage_start. rewrite Hf.
    destruct (contains EXCLUSION_CLASS a) eqn:Hcl.
    { exists d, ({[h']} ∪ imageElementsProcessed s), []. rewrite app_nil_r.
      repeat split; try done; [apply union_subseteq_r|].
      intros e He; unfold elementData in He; rewrite Hf in He; injection He as <-. by rewrite Hcl, andb_false_r. }
    destruct ((width a <? 100)%nat || (height a <? 100)%nat) eqn:Hsm.
    { exists d, ({[h']} ∪ imageElementsProcessed s), []. rewrite app_nil_r.
      repeat split; try done; [apply union_subseteq_r|].
      intros e He; unfold elementData in He; rewrite Hf in He; injection He as <-. by rewrite Hc, Hsm. }
    destruct (backendRunning s) eqn:Hb.
    + eexists _, ({[h']} ∪ imageElementsProcessed s), _. split; [reflexivity|].
      split; [apply union_subseteq_r|]. split; [done|]. split.
      * intros x Hx. simpl.
        rewrite (elementData_modify x h' markAnalyzing).
        rewrite bool_decide_eq_false_2 by done. by destruct (elementData x (body d)).
      * intros e He; unfold elementData in He; rewrite Hf in He; injection He as <-. rewrite Hc, Hsm, Hcl. simpl. split; [|intros _; by left].
        exists (markAnalyzing a). split.
        -- pose proof (elementData_modify h' h' markAnalyzing (body d)) as Hm.
           unfold elementData at 2 in Hm. rewrite Hf in Hm.
           rewrite bool_decide_eq_true_2 in Hm by done. exact Hm.
        -- rewrite contains_markAnalyzing. by rewrite orb_true_r.
    + eexists _, ({[h']} ∪ imageElementsProcessed s), _. split; [reflexivity|].
      split; [apply union_subseteq_r|]. split; [done|]. split.
      * intros x Hx. simpl.
        rewrite (elementData_modify x h'
                   (fun e => removeAttribute "data-socioio-analyzing"
                               (resetStyle (markAnalyzing e)))).
        rewrite bool_decide_eq_false_2 by done. by destruct (elementData x (body d)).
      * intros e He; unfold elementData in He; rewrite Hf in He; injection He as <-. rewrite Hc, Hsm, Hcl. simpl. split; [|done].
        eexists. split.
        -- pose proof (elementData_modify h' h'
                         (fun e => removeAttribute "data-socioio-analyzing"
                                     (resetStyle (markAnalyzing e))) (body d)) as Hm.
           unfold elementData at 2 in Hm. rewrite Hf in Hm.
           rewrite bool_decide_eq_true_2 in Hm by done. exact Hm.
        -- change (contains EXCLUSION_CLASS (markAnalyzing a) = true).
           rewrite contains_markAnalyzing. by rewrite orb_true_r.
  - destruct Hsame as (d' & X & sent' & ? & ? & ? & ? & ?). exists d', X, sent'.
    repeat split; try done.
    intros e He; unfold elementData in He; rewrite Hf in He; done.
Qed.

End Scan.

Section ScanLoop.

Variable complete : nat -> bool.
Variables (href : string) (h : nat) (e : edata).
Context {R : Resolver}.

Let marked (d : document) : Prop :=
  exists e1, elementData h (body d) = Some e1 /\ contains EXCLUSION_CLASS e1 = true.

Let asked (b : bool) (sent : list request) : Prop :=
  b = true -> In (Request (API_BASE_URL +:+ "/analyze_image") (src e) href) sent.

Lemma analysedNow_false_mono (s : pstate) (X : gset nat) :
  analysedNow complete s h e = false -> imageElementsProcessed s ⊆ X ->
  analysedNow complete (set_imageElementsProcessed X s) h e = false.
Proof.
  unfold analysedNow. simpl. intros Ha Hsub.
  destruct (complete h && (0 <? naturalWidth e)%nat); [|done].
  destruct ((width e <? 100)%nat || (height e <? 100)%nat); [by rewrite andb_false_r|].
  destruct (bool_decide (h ∈ imageElementsProcessed s)) eqn:Hin; [|done].
  apply bool_decide_eq_true in Hin. by rewrite (bool_decide_eq_true_2 _ (Hsub _ Hin)).
Qed.

Lemma analysedNow_true_other (s : pstate) (X : gset nat) (h' : nat) :
  analysedNow complete s h e = true -> h <> h' -> X ⊆ {[h']} ∪ imageElementsProcessed s ->
  analysedNow complete (set_imageElementsProcessed X s) h e = true.
Proof.
  unfold analysedNow. simpl. intros Ha Hne Hsub.
  destruct (complete h && (0 <? naturalWidth e)%nat); [|done].
  destruct ((width e <? 100)%nat || (height e <? 100)%nat); [by rewrite andb_false_r in Ha|].
  destruct (bool_decide (h ∈ imageElementsProcessed s)) eqn:Hin; [done|].
  apply bool_decide_eq_false in Hin. rewrite bool_decide_eq_false_2; [done|].
  intros HX. apply Hsub in HX. apply elem_of_union in HX as [HX|HX]; [|done].
  by apply elem_of_singleton in HX.
Qed.

Lemma scan_state (images : list nat) (d : document) (s : pstate) (sent : list request) :
  exists X, (foldl (scanImage complete href) (d, s, sent) images).1.2
            = set_imageElementsProcessed X s.
Proof.
  revert d s sent. induction images as [|h' rest IH]; intros d s sent; cbn [foldl].
  - exists (imageElementsProcessed s). by rewrite set_imageElementsProcessed_same.
  - destruct (scanImage_step complete href d s sent h') as (d' & X & sent' & -> & _).
    destruct (IH d' (set_imageElementsProcessed X s) (sent ++ sent')) as (Y & ->).
    by exists Y.
Qed.

Lemma scan_keeps_marked (images : list nat) (d : document) (s : pstate)
    (sent : list request) (b : bool) :
  marked d -> asked b sent ->
  let r := foldl (scanImage complete href) (d, s, sent) images in
  marked r.1.1 /\ asked b r.2.
Proof.
  revert d s sent. induction images as [|h' rest IH]; intros d s sent Hm Hs; cbn [foldl].
  - done.
  - destruct (scanImage_step complete href d s sent h')
      as (d' & X & sent' & -> & _ & _ & Hother & Hthis).
    apply IH.
    + destruct Hm as (e1 & He1 & Hc1). exists e1. split; [|done].
      destruct (decide (h = h')) as [<-|Hne]; [|by rewrite Hother].
      specialize (Hthis e1 He1). rewrite Hc1, andb_false_r in Hthis. by subst d'.
    + intros Hb. apply in_or_app. left. by apply Hs.
Qed.

Lemma scan_keeps_unanalysed (images : list nat) (d : document) (s : pstate)
    (sent : list request) :
  elementData h (body d) = Some e -> analysedNow complete s h e = false ->
  elementData h (body (foldl (scanImage complete href) (d, s, sent) images).1.1) = Some e.
Proof.
  revert d s sent. induction images as [|h' rest IH]; intros d s sent He Ha; cbn [foldl].
  - done.
  - destruct (scanImage_step complete href d s sent h')
      as (d' & X & sent' & -> & Hsub & _ & Hother & Hthis).
    apply IH.
    + destruct (decide (h = h')) as [<-|Hne]; [|by rewrite Hother].
      specialize (Hthis e He). rewrite Ha in Hthis. simpl in Hthis. by subst d'.
    + by apply analysedNow_false_mono.
Qed.

Lemma scan_marks (images : list nat) (d : document) (s : pstate) (sent : list request) :
  elementData h (body d) = Some e -> contains EXCLUSION_CLASS e = false ->
  analysedNow complete s h e = true -> h ∈ images ->
  let r := foldl (scanImage complete href) (d, s, sent) images in
  marked r.1.1 /\ asked (backendRunning s) r.2.
Proof.
  revert d s sent.
  induction images as [|h' rest IH]; intros d s sent He Hc Ha Hin; cbn [foldl].
  - by apply elem_of_nil in Hin.
  - destruct (scanImage_step complete href d s sent h')
      as (d' & X & sent' & -> & _ & HX & Hother & Hthis).
    destruct (decide (h = h')) as [<-|Hne].
    + specialize (Hthis e He). rewrite Ha, Hc in Hthis. simpl in Hthis.
      destruct Hthis as [Hm Hs].
      apply (scan_keeps_marked rest d' (set_imageElementsProcessed X s) (sent ++ sent')
               (backendRunning s)); [exact Hm|].
      intros Hb. apply in_or_app. right. by apply Hs.
    + apply elem_of_cons in Hin as [Hin|Hin]; [done|].
      apply (IH d' (set_imageElementsProcessed X s) (sent ++ sent')); try done.
      * by rewrite Hother.
      * by apply (analysedNow_true_other s X h').
Qed.

Lemma processBatch_one_way (images : list nat) (d : document) (s : pstate) :
  elementData h (body d) = Some e -> contains EXCLUSION_CLASS e = false ->
  src e <> "" -> h ∈ images -> length images <= 5 ->
  let r := processBatch complete href images 0 d s in
  r.2 = None /\
  (exists added,
     inHand r.1.1.2 = inHand s ++ added /\
     List.filter (about h) added
     = if analysedNow complete s h e then [] else [Item Image h None]) /\
  (analysedNow complete s h e = true -> backendRunning s = true ->
   In (Request (API_BASE_URL +:+ "/analyze_image") (src e) href) r.1.2).
Proof.
  intros He Hc Hsrc Hin Hlen. unfold processBatch.
  replace (Nat.min (0 + 5) (length images)) with (length images) by lia.
  rewrite Nat.sub_0_r, drop_0, firstn_all, Nat.ltb_irrefl.
  destruct (scan_state images d s []) as (X & HX).
  pose proof (scan_keeps_unanalysed images d s [] He) as Hu.
  pose proof (scan_marks images d s [] He Hc) as Hm.
  destruct (foldl (scanImage complete href) (d, s, []) images) as [[d1 s1] sent1].
  simpl in HX, Hu, Hm. subst s1.
  destruct (addImages_inHand images d1 (set_imageElementsProcessed X s) h)
    as (added & Hq & Hf).
  destruct (addImagesToProcessingQueue images d1 (set_imageElementsProcessed X s))
    as [d2 s2]. simpl in Hq. simpl.
  split; [done|]. split.
  - exists added. split; [exact Hq|]. rewrite Hf.
    rewrite (bool_decide_eq_true_2 _ Hin). simpl. rewrite orb_false_r.
    destruct (analysedNow complete s h e) eqn:Ha.
    + destruct (Hm eq_refl Hin) as [(e1 & He1 & Hc1) _].
      rewrite He1. cbn [from_option]. unfold passedOver. rewrite Hc1.
      by rewrite orb_true_r.
    + rewrite (Hu eq_refl). cbn [from_option]. unfold passedOver. rewrite Hc.
      by rewrite bool_decide_eq_false_2.
  - intros Ha Hb. destruct (Hm Ha Hin) as [_ Hs]. by apply Hs.
Qed.

End ScanLoop.

(** X10. One pass of [scanImagesForModeration] over five images at most
    takes each image one of two ways, never both.  An unmarked image with a
    source that is loaded, 100 pixels or more each way and not in the set of
    processed images is analysed at once (the request is sent when the
    service is up) and no item is queued for it; any other unmarked image
    with a source is queued, once. *)
Theorem scan_analyses_or_queues {R : Resolver} (complete : nat -> bool) (href : string) (h : nat)
    (e : edata) (d : document) (s : pstate) :
  let images :=
    handles (selectF (fun e => bool_decide (tagName e = "IMG")
                               && negb (contains EXCLUSION_CLASS e)) (body d)) in
  isEnabled s = true -> h ∈ images -> length images <= 5 ->
  elementData h (body d) = Some e -> contains EXCLUSION_CLASS e = false -> src e <> "" ->
  let r := scanImagesForModeration complete href d s in
  r.2 = None /\
  (exists added,
     inHand r.1.1.2 = inHand s ++ added /\
     List.filter (about h) added
     = if analysedNow complete s h e then [] else [Item Image h None]) /\
  (analysedNow complete s h e = true -> backendRunning s = true ->
   In (Request (API_BASE_URL +:+ "/analyze_image") (src e) href) r.1.2).
Proof.
  intros images Hen Hin Hlen He Hc Hsrc. unfold scanImagesForModeration. rewrite Hen.
  by apply processBatch_one_way.
Qed.

Lemma scan_analyses_or_queues_witness :
  (exists added,
     inHand (scanImagesForModeration (R:=asWritten) (fun _ => true) sample_href sample_page
               initial_state).1.1.2 = added /\
     List.filter (about 4) added = []) /\
  (exists added,
     inHand (scanImagesForModeration (R:=asWritten) (fun _ => true) sample_href sample_page
               initial_state).1.1.2 = added /\
     List.filter (about 3) added = [Item Image 3 None]).
Proof.
  split.
  - destruct (scan_analyses_or_queues (R:=asWritten) (fun _ => true) sample_href 4
                (imageElement "http://example.com/photo.jpg" 400 300)
                sample_page initial_state)
      as (_ & (added & Hq & Hf) & _);
      [reflexivity| |simpl; lia|reflexivity|reflexivity|discriminate|].
    + apply list_elem_of_further, list_elem_of_here.
    + exists added. split; [exact Hq|exact Hf].
  - destruct (scan_analyses_or_queues (R:=asWritten) (fun _ => true) sample_href 3
                (imageElement "http://example.com/icon.png" 40 40)
                sample_page initial_state)
      as (_ & (added & Hq & Hf) & _);
      [reflexivity| |simpl; lia|reflexivity|reflexivity|discriminate|].
    + apply list_elem_of_here.
    + exists added. split; [exact Hq|exact Hf].
Defined.

(** ** Images: the verdict *)

Lemma modify_modify (h : nat) (u1 u2 u : edata -> edata) (l : list node) :
  (forall e, u e = u2 (u1 e)) ->
  modify h (fun e ks => (u2 e, ks)) (modify h (fun e ks => (u1 e, ks)) l)
  = modify h (fun e ks => (u e, ks)) l.
Proof.
  intros Hu. unfold modify.
  set (F1 := fun (i : nat) (e : edata) (ks : list node) =>
               if bool_decide (i = h)
               then let '(e', ks') := (u1 e, ks) in Replace [Element i e' ks']
               else Descend e).
  set (F2 := fun (i : nat) (e : edata) (ks : list node) =>
               if bool_decide (i = h)
               then let '(e', ks') := (u2 e, ks) in Replace [Element i e' ks']
               else Descend e).
  set (F := fun (i : nat) (e : edata) (ks : list node) =>
              if bool_decide (i = h)
              then let '(e', ks') := (u e, ks) in Replace [Element i e' ks']
              else Descend e).
  assert (forall n, rwF F2 (rw F1 n) = rw F n) as Hn.
  { induction n as [s|i e ks IH] using node_induction; [done|].
    rewrite !rw_Element. unfold F1 at 1, F at 1.
    destruct (bool_decide (i = h)) eqn:Hi.
    - rewrite rwF_cons, rw_Element. unfold F2 at 1. rewrite Hi. simpl. by rewrite Hu.
    - rewrite rwF_cons, rw_Element. unfold F2 at 1. rewrite Hi. simpl. do 2 f_equal.
      clear Hi. induction ks as [|k ks IHks]; [done|].
      inversion IH as [|? ? Hk Hks]; subst.
      rewrite !rwF_cons. change (rwF F2 (rw F1 k ++ rwF F1 ks) = rw F k ++ rwF F ks).
      assert (forall a b, rwF F2 (a ++ b) = rwF F2 a ++ rwF F2 b) as Happ.
      { induction a as [|x a IHa]; intros b; [done|].
        rewrite <- app_comm_cons, !rwF_cons, IHa. by rewrite app_assoc. }
      by rewrite Happ, Hk, (IHks Hks). }
  induction l as [|k l IH]; [done|].
  rewrite !rwF_cons.
  assert (forall a b, rwF F2 (a ++ b) = rwF F2 a ++ rwF F2 b) as Happ.
  { induction a as [|x a IHa]; intros b; [done|].
    rewrite <- app_comm_cons, !rwF_cons, IHa. by rewrite app_assoc. }
  by rewrite Happ, Hn, IH.
Qed.

(** X11. When [processImage] has sent its request, a verdict other than
    'unsafe' or 'questionable', and equally a failed request, leaves the
    page exactly as [processImage] leaves it at once when the service is
    down: the image keeps the class of processed elements and the
    attribute with its first style, and has the style back that the
    attribute holds. *)
Theorem safe_verdict_as_service_down {R : Resolver} (href : string) (h : nat) (d : document)
    (s : pstate) (q : request) (r : imageReply) :
  (processImage_start href h d s).2 = Some q -> blurs r = false ->
  processImage_resume h r (processImage_start href h d s).1
  = (processImage_start href h d (set_backendRunning false s)).1.
Proof.
  unfold processImage_start, processImage_resume. fold (blurs r).
  intros Hq Hr. rewrite Hr.
  destruct (findF h (body d)) as [[t|i e ks]|]; try done.
  destruct (contains EXCLUSION_CLASS e); [done|].
  destruct ((width e <? 100)%nat || (height e <? 100)%nat); [done|].
  destruct (backendRunning s); [|done]. simpl. f_equal.
  apply modify_modify. intros a.
  unfold resetStyle, removeAttribute, getAttribute. simpl.
  rewrite lookup_delete_ne by done. done.
Qed.

Lemma safe_verdict_as_service_down_witness :
  processImage_resume 4 (ImgData (Some "safe"))
    (processImage_start (R:=asWritten) sample_href 4 sample_page initial_state).1
  = (processImage_start (R:=asWritten) sample_href 4 sample_page
       (set_backendRunning false initial_state)).1.
Proof.
  apply (safe_verdict_as_service_down (R:=asWritten) sample_href 4 sample_page initial_state
           (Request (API_BASE_URL +:+ "/analyze_image") "http://example.com/photo.jpg"
              sample_href)); reflexivity.
Defined.

(** ** Images: the overlay *)

Lemma wrapImage_Element (n0 h i : nat) (e : edata) (ks : list node) :
  wrapImage n0 h (Element i e ks) = Element i e (wrapImageF n0 h ks).
Proof.
  simpl. f_equal. induction ks as [|k ks IH]; [done|].
  destruct k as [t|j ej kj]; cbn [wrapImageF]; [by rewrite IH|].
  destruct (bool_decide (j = h)); [done|]. by rewrite IH.
Qed.

Lemma wrapImageF_cons (n0 h : nat) (k : node) (l : list node) :
  wrapImageF n0 h (k :: l)
  = match k with
    | TextNode _ => k :: wrapImageF n0 h l
    | Element j ej kj =>
        if bool_decide (j = h)
        then (if hasOverlayNext l then k else wrapped n0 j ej kj) :: l
        else wrapImage n0 h k :: wrapImageF n0 h l
    end.
Proof. reflexivity. Qed.

Lemma idsF_cons (k : node) (l : list node) : idsF (k :: l) = ids k ++ idsF l.
Proof. reflexivity. Qed.

Lemma ids_Element (i : nat) (e : edata) (ks : list node) :
  ids (Element i e ks) = i :: idsF ks.
Proof. reflexivity. Qed.

Lemma wrapImage_absent (n0 h : nat) (n : node) : h ∉ ids n -> wrapImage n0 h n = n.
Proof.
  induction n as [s|i e ks IH] using node_induction; intros Hn; [done|].
  rewrite wrapImage_Element. f_equal. rewrite ids_Element in Hn.
  apply not_elem_of_cons in Hn as [_ Hn].
  induction ks as [|k ks IHks]; [done|].
  inversion IH as [|? ? Hk Hks]; subst.
  rewrite idsF_cons in Hn. apply not_elem_of_app in Hn as [Hn1 Hn2].
  rewrite wrapImageF_cons. destruct k as [t|j ej kj]; [by rewrite (IHks Hks Hn2)|].
  rewrite ids_Element in Hn1. pose proof Hn1 as Hn1'.
  apply not_elem_of_cons in Hn1' as [Hj _].
  rewrite bool_decide_eq_false_2 by done. by rewrite (Hk Hn1), (IHks Hks Hn2).
Qed.

Lemma wrapImageF_absent (n0 h : nat) (l : list node) :
  h ∉ idsF l -> wrapImageF n0 h l = l.
Proof.
  induction l as [|k l IH]; intros Hn; [done|].
  rewrite idsF_cons in Hn. apply not_elem_of_app in Hn as [Hn1 Hn2].
  rewrite wrapImageF_cons. destruct k as [t|j ej kj]; [by rewrite (IH Hn2)|].
  pose proof Hn1 as Hn1'. rewrite ids_Element in Hn1'.
  apply not_elem_of_cons in Hn1' as [Hj _].
  rewrite bool_decide_eq_false_2 by done. by rewrite (wrapImage_absent _ _ _ Hn1), (IH Hn2).
Qed.

Section Overlay.

Variables (n0 n1 h : nat).
Hypothesis fresh : n0 <> h.

Lemma wrapImageF_twice_kids (l : list node) :
  Forall (fun n => NoDup (ids n) -> wrapImage n1 h (wrapImage n0 h n) = wrapImage n0 h n) l ->
  NoDup (idsF l) ->
  wrapImageF n1 h (wrapImageF n0 h l) = wrapImageF n0 h l.
Proof.
  induction 1 as [|k l Hk _ IH]; intros Hnd; [done|].
  rewrite idsF_cons in Hnd. apply NoDup_app in Hnd as (Hnd1 & Hdis & Hnd2).
  rewrite (wrapImageF_cons n0). destruct k as [t|j ej kj].
  - rewrite wrapImageF_cons. by rewrite (IH Hnd2).
  - destruct (bool_decide (j = h)) eqn:Hj.
    + apply bool_decide_eq_true in Hj as ->.
      assert (h ∉ idsF l) as Hl.
      { apply Hdis. rewrite ids_Element. apply list_elem_of_here. }
      destruct (hasOverlayNext l) eqn:Ho.
      * rewrite wrapImageF_cons, bool_decide_eq_true_2 by done. by rewrite Ho.
      * unfold wrapped at 1. rewrite wrapImageF_cons.
        rewrite bool_decide_eq_false_2 by done.
        rewrite (wrapImageF_absent n1 h l Hl). f_equal.
        rewrite wrapImage_Element, wrapImageF_cons.
        by rewrite bool_decide_eq_true_2.
    + rewrite wrapImage_Element, wrapImageF_cons, Hj.
      rewrite <- wrapImage_Element. by rewrite (Hk Hnd1), (IH Hnd2).
Qed.

Lemma wrapImage_twice (n : node) :
  NoDup (ids n) -> wrapImage n1 h (wrapImage n0 h n) = wrapImage n0 h n.
Proof.
  induction n as [s|i e ks IH] using node_induction; intros Hnd; [done|].
  rewrite !wrapImage_Element. f_equal. rewrite ids_Element in Hnd.
  apply NoDup_cons in Hnd as [_ Hnd]. by apply wrapImageF_twice_kids.
Qed.

End Overlay.

(** X12. [addOverlayToImage] wraps an image once: called again for the same
    image, it finds the overlay next to the image and leaves the page as it
    is. *)
Theorem overlay_is_added_once (h : nat) (d : document) :
  NoDup (idsF (body d)) -> h <> nextId d ->
  body (addOverlayToImage h (addOverlayToImage h d)) = body (addOverlayToImage h d).
Proof.
  intros Hnd Hh. unfold addOverlayToImage. simpl.
  apply wrapImageF_twice_kids; [done| |exact Hnd].
  apply Forall_forall. intros n _. by apply wrapImage_twice.
Qed.

Lemma overlay_is_added_once_witness :
  body (addOverlayToImage 4 (addOverlayToImage 4 sample_page))
  = body (addOverlayToImage 4 sample_page).
Proof.
  apply overlay_is_added_once; [|done].
  apply (bool_decide_unpack _). vm_compute. exact I.
Defined.

(** ** Restoring the page *)

Lemma select_orb (p q : edata -> bool) (n : node) :
  select (fun e => p e || q e) n = [] <-> select p n = [] /\ select q n = [].
Proof.
  induction n as [s|i e ks IH] using node_induction; [done|].
  rewrite !select_nil_Element, orb_false_iff.
  assert (selectF (fun e => p e || q e) ks = [] <-> selectF p ks = [] /\ selectF q ks = [])
    as ->; [|tauto].
  induction ks as [|k ks IHks]; [done|].
  inversion IH as [|? ? Hk Hks]; subst.
  rewrite !selectF_nil_cons, Hk, (IHks Hks). tauto.
Qed.

Lemma selectF_orb (p q : edata -> bool) (l : list node) :
  selectF (fun e => p e || q e) l = [] <-> selectF p l = [] /\ selectF q l = [].
Proof.
  induction l as [|k l IH]; [done|].
  rewrite !selectF_nil_cons, select_orb, IH. tauto.
Qed.

Lemma select_mono (p q : edata -> bool) (n : node) :
  (forall e, p e = true -> q e = true) -> select q n = [] -> select p n = [].
Proof.
  intros Hpq. induction n as [s|i e ks IH] using node_induction; [done|].
  rewrite !select_nil_Element. intros [He Hks]. split.
  - destruct (p e) eqn:Hp; [|done]. by rewrite (Hpq e Hp) in He.
  - induction ks as [|k ks IHks]; [done|].
    inversion IH as [|? ? Hk Hks']; subst.
    apply selectF_nil_cons in Hks as [H1 H2].
    apply selectF_nil_cons. split; [by apply Hk|by apply IHks].
Qed.

Lemma selectF_mono (p q : edata -> bool) (l : list node) :
  (forall e, p e = true -> q e = true) -> selectF q l = [] -> selectF p l = [].
Proof.
  intros Hpq. induction l as [|k l IH]; [done|].
  rewrite !selectF_nil_cons. intros [H1 H2]. split; [by apply (select_mono p q)|by apply IH].
Qed.

Section Clears.

Variables p q : edata -> bool.
Variable f : nat -> edata -> list node -> action.

Hypothesis clears :
  forall i e ks, q e = false ->
    match f i e ks with
    | Replace r => selectF p r = []
    | Descend e' => p e' = false
    end.

Lemma rw_select_clears (n : node) : select q n = [] -> selectF p (rw f n) = [].
Proof.
  induction n as [s|i e ks IH] using node_induction; intros Hn; [done|].
  apply select_nil_Element in Hn as [He Hks].
  rewrite rw_Element. pose proof (clears i e ks He) as Hf.
  destruct (f i e ks) as [r|e']; [exact Hf|].
  apply selectF_nil_cons. split; [|done].
  apply select_nil_Element. split; [exact Hf|].
  clear Hf. induction ks as [|k ks IHks]; [done|].
  apply selectF_nil_cons in Hks as [Hk Hks].
  inversion IH as [|? ? Hk' Hks']; subst.
  rewrite rwF_cons, selectF_app, (Hk' Hk), (IHks Hks' Hks). done.
Qed.

Lemma rwF_select_clears (l : list node) : selectF q l = [] -> selectF p (rwF f l) = [].
Proof.
  induction l as [|k l IH]; intros Hn; [done|].
  apply selectF_nil_cons in Hn as [Hk Hl].
  by rewrite rwF_cons, selectF_app, (rw_select_clears k Hk), (IH Hl).
Qed.

End Clears.

Section Fixed.

Variable bad : edata -> bool.
Variable f : nat -> edata -> list node -> action.

Hypothesis leaves : forall i e ks, bad e = false -> f i e ks = Descend e.

Lemma rw_fixed (n : node) : select bad n = [] -> rw f n = [n].
Proof.
  induction n as [s|i e ks IH] using node_induction; intros Hn; [done|].
  apply select_nil_Element in Hn as [He Hks].
  rewrite rw_Element, (leaves i e ks He). do 2 f_equal.
  induction ks as [|k ks IHks]; [done|].
  apply selectF_nil_cons in Hks as [Hk Hks].
  inversion IH as [|? ? Hk' Hks']; subst.
  by rewrite rwF_cons, (Hk' Hk), (IHks Hks' Hks).
Qed.

Lemma rwF_fixed (l : list node) : selectF bad l = [] -> rwF f l = l.
Proof.
  induction l as [|k l IH]; intros Hn; [done|].
  apply selectF_nil_cons in Hn as [Hk Hl].
  by rewrite rwF_cons, (rw_fixed k Hk), (IH Hl).
Qed.

End Fixed.

Lemma selectF_never (l : list node) : selectF (fun _ => false) l = [].
Proof.
  assert (forall n, select (fun _ => false) n = []) as Hn.
  { induction n as [s|i e ks IH] using node_induction; [done|].
    apply select_nil_Element. split; [done|].
    induction ks as [|k ks IHks]; [done|].
    inversion IH as [|? ? Hk Hks]; subst.
    apply selectF_nil_cons. split; [exact Hk|by apply IHks]. }
  induction l as [|k l IH]; [done|]. apply selectF_nil_cons. by split.
Qed.

Lemma selectF_setTextContent (p : edata -> bool) (t : string) :
  selectF p (setTextContent t) = [].
Proof. unfold setTextContent. by destruct (bool_decide (t = "")). Qed.

(** The sweeps bring no class in. *)
Lemma restoreImages_keeps_none (c : string) (l : list node) :
  selectF (contains c) l = [] -> selectF (contains c) (restoreImages l) = [].
Proof.
  apply rwF_select_nil. intros i e ks He Hks.
  assert (contains c (if isBlurredImage e then restoreImage e else e) = false) as He'.
  { destruct (isBlurredImage e); [|done]. by rewrite contains_restoreImage, He. }
  destruct (contains "socioio-image-wrapper" e); [|done].
  destruct (firstBlurredChild ks) as [img|] eqn:Hfb; [|done].
  apply selectF_nil_cons. split; [|done].
  by apply (firstBlurredChild_select_nil c ks).
Qed.

Lemma contains_strip (c : string) (e : edata) :
  contains c (set_style [] (classRemove "socioio-filtered-text" e))
  = contains c e && negb (bool_decide (c = "socioio-filtered-text")).
Proof.
  change (contains c (set_style [] (classRemove "socioio-filtered-text" e)))
    with (contains c (classRemove "socioio-filtered-text" e)).
  apply contains_classRemove.
Qed.

Lemma contains_strip_attribute (c : string) (e : edata) :
  contains c (set_style [] (classRemove "socioio-filtered-text"
                              (removeAttribute "data-original-text" e)))
  = contains c e && negb (bool_decide (c = "socioio-filtered-text")).
Proof.
  rewrite contains_strip.
  by change (contains c (removeAttribute "data-original-text" e)) with (contains c e).
Qed.

Lemma restoreText_keeps_none (c : string) (l : list node) :
  selectF (contains c) l = [] -> selectF (contains c) (restoreText l) = [].
Proof.
  apply rwF_select_nil. intros i e ks He Hks.
  destruct (contains "socioio-filtered-text" e); [|done].
  destruct (truthy (getAttribute "data-original-text" e)) as [t|].
  - apply selectF_nil_cons. split; [|done]. apply select_nil_Element. split.
    + by rewrite contains_strip_attribute, He.
    + apply selectF_setTextContent.
  - by rewrite contains_strip, He.
Qed.

Lemma removeAll_keeps_none (p q : edata -> bool) (l : list node) :
  selectF p l = [] -> selectF p (removeAll (fun _ e => q e) l) = [].
Proof.
  apply rwF_select_nil. intros i e ks He Hks. by destruct (q e).
Qed.

Lemma restoreText_clears (l : list node) :
  selectF (contains "socioio-filtered-text") (restoreText l) = [].
Proof.
  apply (rwF_select_clears _ (fun _ => false)); [|apply selectF_never].
  intros i e ks _. destruct (contains "socioio-filtered-text" e) eqn:He; [|done].
  destruct (truthy (getAttribute "data-original-text" e)) as [t|].
  - apply selectF_nil_cons. split; [|done]. apply select_nil_Element. split.
    + rewrite contains_strip_attribute.
      rewrite (bool_decide_eq_true_2 ("socioio-filtered-text" = "socioio-filtered-text"))
        by done.
      by rewrite andb_false_r.
    + apply selectF_setTextContent.
  - rewrite contains_strip.
    rewrite (bool_decide_eq_true_2 ("socioio-filtered-text" = "socioio-filtered-text"))
      by done.
    by rewrite andb_false_r.
Qed.

Lemma restoreImages_clears (l : list node) :
  selectF (contains "socioio-image-wrapper") l = [] ->
  selectF (contains "socioio-filtered-image") (restoreImages l) = [].
Proof.
  apply rwF_select_clears. intros i e ks He. cbv zeta. rewrite He.
  destruct (isBlurredImage e) eqn:Hb; cbv beta iota.
  - rewrite contains_restoreImage.
    rewrite (bool_decide_eq_true_2 ("socioio-filtered-image" = "socioio-filtered-image"))
      by done.
    by rewrite andb_false_r.
  - unfold isBlurredImage in Hb.
    destruct (contains "socioio-filtered-image" e); [|done].
    by rewrite orb_true_r in Hb.
Qed.

Lemma isSocioNode_none (l : list node) :
  selectF isSocioNode l = [] <->
  selectF (contains "socioio-blocked-image") l = [] /\
  selectF (contains "socioio-image-overlay") l = [] /\
  selectF (contains "socioio-image-wrapper") l = [] /\
  selectF (contains INDICATOR_CLASS) l = [].
Proof.
  unfold isSocioNode. rewrite !selectF_orb. tauto.
Qed.

Lemma restore_no_class (c : string) (d : document) :
  In c filterClasses -> selectF (contains c) (body (restoreOriginalContent d)) = [].
Proof.
  intros Hc. unfold restoreOriginalContent. simpl.
  assert (selectF isSocioNode (removeAll (fun _ e => isSocioNode e) (body d)) = []) as H1
    by (by apply removeAll_select_nil).
  apply isSocioNode_none in H1 as (Hb & Ho & Hw & Hi).
  assert (forall l, selectF (contains c) l = [] ->
            selectF (contains c)
              (removeAll (fun _ e => contains "socioio-overlay" e)
                 (restoreText (restoreImages l))) = []) as Hkeep.
  { intros l Hl. by apply removeAll_keeps_none, restoreText_keeps_none,
                         restoreImages_keeps_none. }
  simpl in Hc. destruct Hc as [<-|[<-|[<-|[<-|[<-|[<-|[<-|[]]]]]]]].
  - by apply Hkeep.
  - by apply Hkeep.
  - by apply Hkeep.
  - by apply Hkeep.
  - by apply removeAll_select_nil.
  - apply removeAll_keeps_none, restoreText_clears.
  - by apply removeAll_keeps_none, restoreText_keeps_none, restoreImages_clears.
Qed.

(** X13. After [restoreOriginalContent] no element of the page carries a
    class by which the script marks what it has filtered: blocked image,
    image overlay, image wrapper, indicator, overlay, filtered text,
    filtered image. *)
Theorem restore_removes_every_mark (d : document) :
  Forall (fun c => selectF (contains c) (body (restoreOriginalContent d)) = [])
         filterClasses.
Proof. apply Forall_forall. intros c Hc. apply restore_no_class. by apply list_elem_of_In. Qed.

Lemma filter_twice {A} (P : A -> Prop) `{!forall x, Decision (P x)} (l : list A) :
  filter P (filter P l) = filter P l.
Proof.
  induction l as [|a l IH]; [done|]. rewrite filter_cons.
  destruct (decide (P a)); [|exact IH]. rewrite filter_cons_True by done. by rewrite IH.
Qed.

Lemma setProperty_settled (k k' v : string) (st : list (string * string)) :
  k' <> k ->
  setProperty k v (removeProperty k' (setProperty k v st))
  = removeProperty k' (setProperty k v st).
Proof.
  intros Hk. unfold removeProperty. induction st as [|[a b] st IH]; simpl.
  - rewrite filter_cons_True by (simpl; congruence). simpl.
    by rewrite bool_decide_eq_true_2.
  - destruct (bool_decide (a = k)) eqn:Ha.
    + rewrite filter_cons_True by (simpl; congruence). simpl.
      by rewrite bool_decide_eq_true_2.
    + rewrite filter_cons. destruct (decide ((a, b).1 <> k')); [|exact IH].
      simpl. rewrite Ha. by rewrite IH.
Qed.

Lemma restoreImage_eq (e : edata) :
  restoreImage e
  = EData (tagName e) (filter (fun x => x <> "socioio-filtered-image") (classList e))
          (match truthy (attributes e !! "data-original-src") with
           | Some original =>
               delete "data-original-src"
                 (<["src" := original]> (delete "data-socioio-filtered" (attributes e)))
           | None => delete "data-socioio-filtered" (attributes e)
           end)
          (removeProperty "border" (setProperty "filter" "none" (style e)))
          (naturalWidth e) (naturalHeight e) (width e) (height e).
Proof.
  unfold restoreImage, getAttribute, removeAttribute, setAttribute, classRemove,
    set_style, set_attributes, set_classList.
  cbn [tagName classList attributes style naturalWidth naturalHeight width height].
  rewrite lookup_delete_ne by done.
  by destruct (truthy (attributes e !! "data-original-src")).
Qed.

Lemma restoreImage_idem (e : edata) : restoreImage (restoreImage e) = restoreImage e.
Proof.
  rewrite (restoreImage_eq (restoreImage e)). rewrite !restoreImage_eq.
  cbn [tagName classList attributes style naturalWidth naturalHeight width height].
  rewrite filter_twice, setProperty_settled by done. unfold removeProperty.
  rewrite filter_twice. f_equal.
  destruct (truthy (attributes e !! "data-original-src")) as [original|] eqn:Ht.
  - rewrite lookup_delete_eq. cbn [truthy]. apply delete_id.
    rewrite lookup_delete_ne by done. rewrite lookup_insert_ne by done.
    apply lookup_delete_eq.
  - rewrite lookup_delete_ne by done. rewrite Ht. apply delete_delete_eq.
Qed.

Lemma filtered_attribute_restoreImage (e : edata) :
  getAttribute "data-socioio-filtered" (restoreImage e) = None.
Proof.
  rewrite restoreImage_eq. unfold getAttribute. cbn [attributes].
  destruct (truthy (attributes e !! "data-original-src")).
  - rewrite lookup_delete_ne by done. rewrite lookup_insert_ne by done.
    apply lookup_delete_eq.
  - apply lookup_delete_eq.
Qed.

Lemma blurLeft_unblurs (e e' : edata) :
  blurLeft e = false -> style e' = [] ->
  contains "socioio-filtered-image" e' = contains "socioio-filtered-image" e ->
  getAttribute "data-socioio-filtered" e' = getAttribute "data-socioio-filtered" e ->
  tagName e' = tagName e ->
  isBlurredImage e' = false.
Proof.
  intros Hb Hst Hc Ha Ht. unfold isBlurredImage.
  unfold styleHas, styleAttribute. rewrite Hst, Hc, Ha, Ht, andb_false_r. simpl.
  unfold blurLeft in Hb. apply andb_false_iff in Hb as [Hb|Hb].
  - unfold isBlurredImage in Hb.
    apply orb_false_iff in Hb as [Hb ->]. by apply orb_false_iff in Hb as [_ ->].
  - apply negb_false_iff, bool_decide_eq_true in Hb.
    pose proof (contains_restoreImage "socioio-filtered-image" e) as H1.
    pose proof (filtered_attribute_restoreImage e) as H2.
    rewrite Hb in H1, H2. rewrite H2.
    rewrite (bool_decide_eq_true_2 ("socioio-filtered-image" = "socioio-filtered-image"))
      in H1 by done.
    rewrite andb_false_r in H1. rewrite H1. simpl. apply andb_false_r.
Qed.

Lemma blurLeft_restored (e : edata) :
  blurLeft (if isBlurredImage e then restoreImage e else e) = false.
Proof.
  unfold blurLeft. destruct (isBlurredImage e) eqn:Hb.
  - rewrite restoreImage_idem. rewrite (bool_decide_eq_true_2 _ eq_refl).
    apply andb_false_r.
  - by rewrite Hb.
Qed.

Lemma blurLeft_of_unblurred (e : edata) : isBlurredImage e = false -> blurLeft e = false.
Proof. intros Hb. unfold blurLeft. by rewrite Hb. Qed.

Lemma restore_no_blurLeft (d : document) :
  selectF blurLeft (body (restoreOriginalContent d)) = [].
Proof.
  unfold restoreOriginalContent. simpl.
  assert (selectF isSocioNode (removeAll (fun _ e => isSocioNode e) (body d)) = []) as H1
    by (by apply removeAll_select_nil).
  apply isSocioNode_none in H1 as (_ & _ & Hw & _).
  apply removeAll_keeps_none. apply rwF_select_nil.
  { intros i e ks He Hks.
    destruct (contains "socioio-filtered-text" e); [|done].
    destruct (truthy (getAttribute "data-original-text" e)) as [t|].
    - apply selectF_nil_cons. split; [|done]. apply select_nil_Element. split.
      + apply blurLeft_of_unblurred. apply (blurLeft_unblurs e); try done.
        * by rewrite contains_strip_attribute, andb_true_r.
        * unfold getAttribute. simpl. by rewrite lookup_delete_ne.
      + apply selectF_setTextContent.
    - apply blurLeft_of_unblurred. apply (blurLeft_unblurs e); try done.
      by rewrite contains_strip, andb_true_r. }
  revert Hw. apply rwF_select_clears. intros i e ks He. cbv zeta. rewrite He.
  apply blurLeft_restored.
Qed.

Lemma restore_nothing_left (d : document) :
  selectF restorable (body (restoreOriginalContent d)) = [].
Proof.
  unfold restorable. rewrite !selectF_orb. repeat split.
  - apply isSocioNode_none.
    repeat split; apply restore_no_class; unfold filterClasses; simpl; tauto.
  - apply restore_no_class; unfold filterClasses; simpl; tauto.
  - apply restore_no_class; unfold filterClasses; simpl; tauto.
  - apply restore_no_blurLeft.
Qed.

Lemma restore_fixed (d : document) :
  selectF restorable (body d) = [] -> restoreOriginalContent d = d.
Proof.
  intros Hn. unfold restoreOriginalContent.
  assert (forall e, restorable e = false ->
            isSocioNode e = false /\ contains "socioio-overlay" e = false /\
            contains "socioio-filtered-text" e = false /\ blurLeft e = false) as Hparts.
  { intros e He. unfold restorable in He.
    apply orb_false_iff in He as [He ?]. apply orb_false_iff in He as [He ?].
    by apply orb_false_iff in He as [? ?]. }
  assert (removeAll (fun _ e => isSocioNode e) (body d) = body d) as ->.
  { apply (rwF_fixed restorable); [|done]. intros i e ks He.
    by destruct (Hparts e He) as (-> & _). }
  assert (restoreImages (body d) = body d) as ->.
  { apply (rwF_fixed restorable); [|done]. intros i e ks He.
    destruct (Hparts e He) as (Hs & _ & _ & Hb).
    assert (contains "socioio-image-wrapper" e = false) as ->.
    { unfold isSocioNode in Hs. apply orb_false_iff in Hs as [Hs _].
      by apply orb_false_iff in Hs as [_ ?]. }
    unfold blurLeft in Hb. destruct (isBlurredImage e); [|done].
    simpl in Hb. apply negb_false_iff, bool_decide_eq_true in Hb. by rewrite Hb. }
  assert (restoreText (body d) = body d) as ->.
  { apply (rwF_fixed restorable); [|done]. intros i e ks He.
    by destruct (Hparts e He) as (_ & _ & -> & _). }
  assert (removeAll (fun _ e => contains "socioio-overlay" e) (body d) = body d) as ->.
  { apply (rwF_fixed restorable); [|done]. intros i e ks He.
    by destruct (Hparts e He) as (_ & -> & _). }
  by destruct d.
Qed.

(** X14. [restoreOriginalContent] run twice gives the page that one run
    gives: the first run leaves nothing for a second one to do. *)
Theorem restore_is_idempotent (d : document) :
  restoreOriginalContent (restoreOriginalContent d) = restoreOriginalContent d.
Proof. apply restore_fixed, restore_nothing_left. Qed.

(** X15. On a page where no element carries a mark of the script and no
    image is blurred, [restoreOriginalContent] changes nothing. *)
Theorem restore_leaves_clean_page (d : document) :
  selectF isMarked (body d) = [] -> restoreOriginalContent d = d.
Proof.
  intros Hn. apply restore_fixed. revert Hn. apply selectF_mono.
  intros e He. unfold restorable, blurLeft in He. unfold isMarked.
  destruct (isSocioNode e); [done|]. destruct (contains "socioio-overlay" e);
    [by rewrite !orb_true_r|].
  destruct (contains "socioio-filtered-text" e); [by rewrite !orb_true_r|].
  destruct (isBlurredImage e); done.
Qed.

Lemma restore_leaves_clean_page_witness : restoreOriginalContent sample_page = sample_page.
Proof. apply restore_leaves_clean_page. reflexivity. Defined.

(** ** Images that arrive later *)

Lemma filter_all {A} (P : A -> Prop) `{!forall x, Decision (P x)} (l : list A) :
  Forall P l -> filter P l = l.
Proof.
  induction 1 as [|a l Ha _ IH]; [done|]. rewrite filter_cons_True by done. by rewrite IH.
Qed.












(** ** Colours *)

Lemma pair_checked (a b : ascii) : pairChecked a b = true.
Proof.
  revert b. apply forall_ascii. revert a.
  apply (forall_ascii (fun a => forallb (pairChecked a) allAscii)).
  vm_compute. reflexivity.
Qed.

Lemma number_checked (v : Z) : (0 <= v <= 255)%Z -> numberChecked v = true.
Proof.
  intros Hv.
  assert (forallb numberChecked (seqZ 0 256) = true) as H by (vm_compute; reflexivity).
  rewrite forallb_forall in H. apply H. apply list_elem_of_In, elem_of_seqZ. lia.
Qed.

Lemma channel_read (a b : ascii) :
  isHexDigit a = true -> isHexDigit b = true ->
  exists v, parseInt16 (String a (String b "")) = Some v /\ (0 <= v <= 255)%Z /\
            showChannel (Some v) = String (Js.lower a) (String (Js.lower b) "").
Proof.
  intros Ha Hb. pose proof (pair_checked a b) as H. unfold pairChecked in H.
  rewrite Ha, Hb in H. simpl in H.
  destruct (parseInt16 (String a (String b ""))) as [v|]; [|done].
  exists v. split; [done|].
  apply andb_true_iff in H as [H H3]. apply andb_true_iff in H as [H1 H2].
  apply String.eqb_eq in H3. split; [lia|exact H3].
Qed.

Lemma channel_shown (v : Z) :
  (0 <= v <= 255)%Z ->
  exists a b, showChannel (Some v) = String a (String b "") /\
              isHexDigit a = true /\ isHexDigit b = true /\
              parseInt16 (String a (String b "")) = Some v.
Proof.
  intros Hv. pose proof (number_checked v Hv) as H. unfold numberChecked in H.
  destruct (showChannel (Some v)) as [|a [|b [|]]]; try done.
  exists a, b. split; [done|].
  apply andb_true_iff in H as [H H3]. apply andb_true_iff in H as [H1 H2].
  destruct (parseInt16 (String a (String b ""))) as [w|]; [|done].
  apply Z.eqb_eq in H3. by subst w.
Qed.

Lemma darkened_in_range (r p : Z) :
  (0 <= r <= 255)%Z -> (0 <= p <= 100)%Z ->
  (Z.max 0 (r * (100 - p) / 100) = r * (100 - p) / 100
   /\ 0 <= r * (100 - p) / 100 <= r)%Z.
Proof.
  intros Hr Hp.
  assert (0 <= r * (100 - p) / 100)%Z by (apply Z.div_pos; nia).
  assert (r * (100 - p) / 100 <= r)%Z by (apply Z.div_le_upper_bound; nia).
  lia.
Qed.

(** X17. For a colour written [#] and six hexadecimal digits and a
    percentage from 0 to 100, [darkenColor] gives a colour of the same
    form; read again, each of its channels is the channel of the first
    colour times (100 - percent) / 100, rounded down, so no channel grows;
    and with percentage 0 it gives the colour back in small letters. *)
Theorem darkenColor_hex (color : string) (percent : Z) :
  isHexColor color = true -> (0 <= percent <= 100)%Z ->
  isHexColor (darkenColor color percent) = true /\
  (exists r g b,
     channels color = (Some r, Some g, Some b) /\
     (0 <= r <= 255 /\ 0 <= g <= 255 /\ 0 <= b <= 255)%Z /\
     channels (darkenColor color percent)
     = (Some (r * (100 - percent) / 100)%Z, Some (g * (100 - percent) / 100)%Z,
        Some (b * (100 - percent) / 100)%Z) /\
     (0 <= r * (100 - percent) / 100 <= r /\ 0 <= g * (100 - percent) / 100 <= g /\
      0 <= b * (100 - percent) / 100 <= b)%Z) /\
  darkenColor color 0 = Js.toLowerCase color.
Proof.
  intros Hc Hp. unfold isHexColor in Hc.
  destruct color as [|h [|a [|b [|c [|d [|e [|f [|]]]]]]]]; try done.
  apply andb_true_iff in Hc as [Hh Hd]. apply Ascii.eqb_eq in Hh as ->.
  cbn [forallb] in Hd.
  apply andb_true_iff in Hd as [Ha Hd]. apply andb_true_iff in Hd as [Hb Hd].
  apply andb_true_iff in Hd as [Hc Hd]. apply andb_true_iff in Hd as [Hd' Hd].
  apply andb_true_iff in Hd as [He Hd]. apply andb_true_iff in Hd as [Hf _].
  destruct (channel_read a b Ha Hb) as (r & Hr & Hr1 & Hr2).
  destruct (channel_read c d Hc Hd') as (g & Hg & Hg1 & Hg2).
  destruct (channel_read e f He Hf) as (bl & Hbl & Hbl1 & Hbl2).
  assert (forall p, darkenColor (String "#" (String a (String b (String c (String d
                       (String e (String f ""))))))) p
          = "#" +:+ showChannel (darkenChannel p (Some r))
                +:+ showChannel (darkenChannel p (Some g))
                +:+ showChannel (darkenChannel p (Some bl))) as Hdark.
  { intros p. unfold darkenColor, channels.
    change (Js.substring 1 3 _) with (String a (String b "")).
    change (Js.substring 3 5 _) with (String c (String d "")).
    change (Js.substring 5 7 _) with (String e (String f "")).
    by rewrite Hr, Hg, Hbl. }
  destruct (darkened_in_range r percent Hr1 Hp) as [Hr3 Hr4].
  destruct (darkened_in_range g percent Hg1 Hp) as [Hg3 Hg4].
  destruct (darkened_in_range bl percent Hbl1 Hp) as [Hb3 Hb4].
  destruct (channel_shown (r * (100 - percent) / 100)%Z) as (a1 & a2 & Ha1 & Ha2 & Ha3 & Ha4);
    [lia|].
  destruct (channel_shown (g * (100 - percent) / 100)%Z) as (g1 & g2 & Hg5 & Hg6 & Hg7 & Hg8);
    [lia|].
  destruct (channel_shown (bl * (100 - percent) / 100)%Z)
    as (b1 & b2 & Hb5 & Hb6 & Hb7 & Hb8); [lia|].
  assert (darkenColor (String "#" (String a (String b (String c (String d
                         (String e (String f ""))))))) percent
          = String "#" (String a1 (String a2 (String g1 (String g2
              (String b1 (String b2 ""))))))) as Hres.
  { rewrite Hdark. unfold darkenChannel. cbn [fmap option_fmap option_map].
    rewrite Hr3, Hg3, Hb3, Ha1, Hg5, Hb5. reflexivity. }
  split; [|split].
  - rewrite Hres. cbn [isHexColor forallb]. rewrite Ha2, Ha3, Hg6, Hg7, Hb6, Hb7. reflexivity.
  - exists r, g, bl. split.
    { unfold channels.
      change (Js.substring 1 3 _) with (String a (String b "")).
      change (Js.substring 3 5 _) with (String c (String d "")).
      change (Js.substring 5 7 _) with (String e (String f "")).
      by rewrite Hr, Hg, Hbl. }
    split; [lia|]. split; [|lia].
    rewrite Hres. unfold channels.
    change (Js.substring 1 3 _) with (String a1 (String a2 "")).
    change (Js.substring 3 5 _) with (String g1 (String g2 "")).
    change (Js.substring 5 7 _) with (String b1 (String b2 "")).
    by rewrite Ha4, Hg8, Hb8.
  - rewrite Hdark. unfold darkenChannel. cbn [fmap option_fmap option_map].
    rewrite !Z.sub_0_r, !Z.div_mul by lia.
    rewrite !Z.max_r by lia. rewrite Hr2, Hg2, Hbl2. reflexivity.
Qed.

Lemma darkenColor_hex_witness :
  darkenColor "#dc3545" 10 = "#c62f3e" /\ darkenColor "#DC3545" 0 = "#dc3545".
Proof.
  destruct (darkenColor_hex "#DC3545" 10) as (_ & _ & H0); [reflexivity|lia|].
  split; [reflexivity|exact H0].
Defined.

(** ** The periodic scans *)

Lemma inHand_start (t : intervals) : inHandIntervals t -> inHandIntervals (startScan t).
Proof.
  intros (Hnd & Hh & Hhd & Hlt). unfold startScan.
  destruct (socioIntervalScan t) as [i|] eqn:Hs; [done|].
  unfold inHandIntervals, held in *. rewrite Hs in Hh, Hhd. simpl in *.
  assert (nextInterval t ∉ running t) as Hfresh.
  { intros Hx. apply Hlt in Hx. lia. }
  split; [|split; [|split]].
  - apply NoDup_app. split; [done|]. split; [|apply NoDup_singleton].
    intros x Hx Hx'. apply list_elem_of_singleton in Hx'. by subst x.
  - intros x. rewrite elem_of_app, list_elem_of_singleton, elem_of_cons, Hh. tauto.
  - apply NoDup_cons. split; [|done]. intros Hx. by apply Hh in Hx.
  - intros x Hx. apply elem_of_app in Hx as [Hx|Hx].
    + apply Hlt in Hx. lia.
    + apply list_elem_of_singleton in Hx. lia.
Qed.

Lemma inHand_startImage (t : intervals) :
  inHandIntervals t -> inHandIntervals (startImageScan t).
Proof.
  intros (Hnd & Hh & Hhd & Hlt). unfold startImageScan.
  destruct (socioIntervalImageScan t) as [i|] eqn:Hs; [done|].
  unfold inHandIntervals, held in *. rewrite Hs in Hh, Hhd. simpl in *.
  rewrite app_nil_r in Hh, Hhd.
  assert (nextInterval t ∉ running t) as Hfresh.
  { intros Hx. apply Hlt in Hx. lia. }
  split; [|split; [|split]].
  - apply NoDup_app. split; [done|]. split; [|apply NoDup_singleton].
    intros x Hx Hx'. apply list_elem_of_singleton in Hx'. by subst x.
  - intros x. rewrite !elem_of_app, list_elem_of_singleton, Hh. tauto.
  - apply NoDup_app. split; [done|]. split; [|apply NoDup_singleton].
    intros x Hx Hx'. apply list_elem_of_singleton in Hx'. subst x. by apply Hh in Hx.
  - intros x Hx. apply elem_of_app in Hx as [Hx|Hx].
    + apply Hlt in Hx. lia.
    + apply list_elem_of_singleton in Hx. lia.
Qed.

Lemma inHand_stop (t : intervals) : inHandIntervals t -> inHandIntervals (stopScan t).
Proof.
  intros (Hnd & Hh & Hhd & Hlt). unfold stopScan.
  destruct (socioIntervalScan t) as [i|] eqn:Hs; [|done].
  unfold inHandIntervals, held in *. rewrite Hs in Hh, Hhd. simpl in *.
  apply NoDup_cons in Hhd as [Hi Hhd].
  split; [|split; [|split]].
  - by apply NoDup_filter.
  - intros x. rewrite list_elem_of_filter, Hh, elem_of_cons.
    split; [tauto|]. intros Hx. split; [|tauto]. by intros ->.
  - done.
  - intros x Hx. apply list_elem_of_filter in Hx as [_ Hx]. by apply Hlt.
Qed.

Lemma inHand_stopImage (t : intervals) :
  inHandIntervals t -> inHandIntervals (stopImageScan t).
Proof.
  intros (Hnd & Hh & Hhd & Hlt). unfold stopImageScan.
  destruct (socioIntervalImageScan t) as [i|] eqn:Hs; [|done].
  unfold inHandIntervals, held in *. rewrite Hs in Hh, Hhd. simpl in *.
  apply NoDup_app in Hhd as (Hhd & Hi & _).
  split; [|split; [|split]].
  - by apply NoDup_filter.
  - intros x. rewrite list_elem_of_filter, Hh, !elem_of_app, list_elem_of_singleton.
    rewrite (elem_of_nil x). split; [tauto|]. intros [Hx|[]]. split; [|tauto].
    intros ->. apply (Hi i Hx). apply list_elem_of_here.
  - by rewrite app_nil_r.
  - intros x Hx. apply list_elem_of_filter in Hx as [_ Hx]. by apply Hlt.
Qed.

Lemma stopped_nothing_runs (t : intervals) :
  inHandIntervals t -> running (stopImageScan (stopScan t)) = [].
Proof.
  intros Ht. pose proof (inHand_stopImage _ (inHand_stop _ Ht)) as (_ & Hh & _).
  assert (held (stopImageScan (stopScan t)) = []) as Hheld.
  { destruct t as [[a|] [b|] r n]; reflexivity. }
  rewrite Hheld in Hh. destruct (running _) as [|x l]; [done|].
  exfalso. apply (elem_of_nil x), Hh, list_elem_of_here.
Qed.

Lemma held_at_most_two (t : intervals) : inHandIntervals t -> length (running t) <= 2.
Proof.
  intros (Hnd & Hh & Hhd & _).
  assert (running t ⊆+ held t) as Hsub.
  { apply NoDup_submseteq; [done|]. intros x. apply Hh. }
  apply submseteq_length in Hsub. unfold held in Hsub. rewrite length_app in Hsub.
  destruct (socioIntervalScan t), (socioIntervalImageScan t); simpl in Hsub; lia.
Qed.

(** X18. Toggle messages never lose an interval.  From a state where the
    periodic scans running are those whose handles are held, and none runs
    while protection is off, every run of [toggleProtection] messages keeps
    it so: the scans running are the ones held, two at most, and none is
    left running when protection is off. *)
Theorem toggles_keep_intervals_in_hand (msgs : list bool) (s0 : pstate) (t0 : intervals) :
  inHandIntervals t0 -> (isEnabled s0 = false -> running t0 = []) ->
  let st := foldl (fun st m => toggleIntervals m st) (s0, t0) msgs in
  inHandIntervals (snd st) /\ (length (running (snd st)) <= 2) /\
  (isEnabled (fst st) = false -> running (snd st) = []) /\
  last (isEnabled s0 :: msgs) = Some (isEnabled (fst st)).
Proof.
  revert s0 t0. induction msgs as [|m msgs IH]; intros s0 t0 Hin Hoff; cbn [foldl].
  - cbn [fst snd]. split; [done|]. split; [by apply held_at_most_two|]. by split.
  - assert (let st1 := toggleIntervals m (s0, t0) in
            inHandIntervals (snd st1) /\
            (isEnabled (fst st1) = false -> running (snd st1) = []) /\
            isEnabled (fst st1) = m) as (H1 & H2 & H3).
    { unfold toggleIntervals. destruct m, (isEnabled s0) eqn:He; cbn [andb negb fst snd].
      - by split.
      - split; [by apply inHand_startImage, inHand_start|]. by split.
      - split; [by apply inHand_stopImage, inHand_stop|].
        split; [|done]. intros _. by apply stopped_nothing_runs.
      - split; [done|]. split; [|done]. intros _. by apply Hoff. }
    destruct (toggleIntervals m (s0, t0)) as [s1 t1]. cbn [fst snd] in H1, H2, H3.
    destruct (IH s1 t1 H1 H2) as (K1 & K2 & K3 & K4).
    split; [done|]. split; [done|]. split; [done|].
    rewrite <- K4, H3. by destruct msgs.
Qed.

Lemma no_intervals_inHand : inHandIntervals no_intervals.
Proof.
  split; [apply NoDup_nil_2|]. split; [done|]. split; [apply NoDup_nil_2|].
  intros i Hi. by apply elem_of_nil in Hi.
Qed.

Lemma toggles_keep_intervals_in_hand_witness :
  running (snd (foldl (fun st m => toggleIntervals m st) (initial_state, no_intervals)
                  [false; true; true; false])) = [].
Proof.
  destruct (toggles_keep_intervals_in_hand [false; true; true; false]
              initial_state no_intervals) as (_ & _ & H & _).
  - apply no_intervals_inHand.
  - discriminate.
  - apply H. reflexivity.
Defined.

Lemma lost_start (i : nat) (t : intervals) :
  i ∈ running t /\ (i ∉ held t) /\ (forall j, j ∈ i :: held t -> j < nextInterval t) ->
  i ∈ running (startScan t) /\ (i ∉ held (startScan t)) /\
  (forall j, j ∈ i :: held (startScan t) -> j < nextInterval (startScan t)).
Proof.
  destruct t as [[a|] b r n]; [done|]. unfold startScan, held. cbn.
  intros (H1 & H2 & H3). split; [apply elem_of_app; by left|].
  assert (i < n) as Hi by (apply H3, list_elem_of_here).
  split.
  - rewrite elem_of_cons. intros [->|Hx]; [lia|done].
  - intros j Hj. apply elem_of_cons in Hj as [->|Hj]; [lia|].
    apply elem_of_cons in Hj as [->|Hj]; [lia|].
    assert (j < n); [|lia]. apply H3. by apply list_elem_of_further.
Qed.

Lemma lost_startImage (i : nat) (t : intervals) :
  i ∈ running t /\ (i ∉ held t) /\ (forall j, j ∈ i :: held t -> j < nextInterval t) ->
  i ∈ running (startImageScan t) /\ (i ∉ held (startImageScan t)) /\
  (forall j, j ∈ i :: held (startImageScan t) -> j < nextInterval (startImageScan t)).
Proof.
  destruct t as [a [b|] r n]; [done|]. unfold startImageScan, held. cbn.
  rewrite !app_nil_r.
  intros (H1 & H2 & H3). split; [apply elem_of_app; by left|].
  assert (i < n) as Hi by (apply H3, list_elem_of_here).
  split.
  - rewrite elem_of_app, list_elem_of_singleton. intros [Hx| ->]; [done|lia].
  - intros j Hj. apply elem_of_cons in Hj as [->|Hj]; [lia|].
    apply elem_of_app in Hj as [Hj|Hj].
    + assert (j < n); [|lia]. apply H3. by apply list_elem_of_further.
    + apply list_elem_of_singleton in Hj. lia.
Qed.

Lemma lost_stop (i : nat) (t : intervals) :
  i ∈ running t /\ (i ∉ held t) /\ (forall j, j ∈ i :: held t -> j < nextInterval t) ->
  i ∈ running (stopScan t) /\ (i ∉ held (stopScan t)) /\
  (forall j, j ∈ i :: held (stopScan t) -> j < nextInterval (stopScan t)).
Proof.
  destruct t as [[a|] b r n]; [|done]. unfold stopScan, held. cbn.
  intros (H1 & H2 & H3). split; [|split].
  - apply list_elem_of_filter. split; [|done]. intros ->. apply H2, list_elem_of_here.
  - intros Hx. apply H2. by apply list_elem_of_further.
  - intros j Hj. apply H3. apply elem_of_cons in Hj as [->|Hj]; [apply list_elem_of_here|].
    by do 2 apply list_elem_of_further.
Qed.

Lemma lost_stopImage (i : nat) (t : intervals) :
  i ∈ running t /\ (i ∉ held t) /\ (forall j, j ∈ i :: held t -> j < nextInterval t) ->
  i ∈ running (stopImageScan t) /\ (i ∉ held (stopImageScan t)) /\
  (forall j, j ∈ i :: held (stopImageScan t) -> j < nextInterval (stopImageScan t)).
Proof.
  destruct t as [a [b|] r n]; [|done]. unfold stopImageScan, held. cbn.
  rewrite !app_nil_r.
  intros (H1 & H2 & H3). split; [|split].
  - apply list_elem_of_filter. split; [|done]. intros ->. apply H2.
    apply elem_of_app. right. apply list_elem_of_here.
  - intros Hx. apply H2. apply elem_of_app. by left.
  - intros j Hj. apply H3. apply elem_of_cons in Hj as [->|Hj]; [apply list_elem_of_here|].
    apply list_elem_of_further. apply elem_of_app. by left.
Qed.

Lemma lost_delayedStart (i : nat) (t : intervals) :
  i ∈ running t /\ (forall j, j ∈ i :: held t -> j < nextInterval t) ->
  i ∈ running (delayedStart t) /\ (i ∉ held (delayedStart t)) /\
  (forall j, j ∈ i :: held (delayedStart t) -> j < nextInterval (delayedStart t)).
Proof.
  destruct t as [a b r n]. unfold delayedStart, held. cbn.
  intros (H1 & H3). split; [apply elem_of_app; by left|].
  assert (i < n) as Hi by (apply H3, list_elem_of_here).
  split.
  - rewrite !elem_of_cons, elem_of_nil. lia.
  - intros j. rewrite !elem_of_cons, elem_of_nil. lia.
Qed.

(** X19. The delayed start of [initialize] assigns both handles without
    looking at them.  When a periodic scan is running already, its interval
    can never be cleared again: it stays among the running ones, and out of
    the ones held, through every later toggle message and every later
    delayed start. *)
Theorem delayed_start_loses_interval (i : nat) (s : pstate) (t : intervals)
    (evs : list scanEvent) :
  i ∈ running t -> (forall j, j ∈ i :: held t -> j < nextInterval t) ->
  let st := foldl scanStep (s, delayedStart t) evs in
  i ∈ running (snd st) /\ (i ∉ held (snd st)).
Proof.
  intros Hr Hlt.
  assert (forall st : pstate * intervals,
            i ∈ running (snd st) /\ (i ∉ held (snd st)) /\
            (forall j, j ∈ i :: held (snd st) -> j < nextInterval (snd st)) ->
            let st' := foldl scanStep st evs in
            i ∈ running (snd st') /\ (i ∉ held (snd st'))) as Hinv.
  { induction evs as [|ev evs IH]; intros [s1 t1] H; cbn [foldl]; [tauto|].
    apply IH. destruct ev as [m|]; cbn [scanStep toggleIntervals fst snd] in *.
    - destruct (m && negb (isEnabled s1)); [|destruct (negb m && isEnabled s1)];
        cbn [snd]; try done.
      + by apply lost_startImage, lost_start.
      + by apply lost_stopImage, lost_stop.
    - apply lost_delayedStart. tauto. }
  apply (Hinv (s, delayedStart t)). cbn [snd]. by apply lost_delayedStart.
Qed.

Lemma delayed_start_loses_interval_witness :
  1 ∈ running (snd (foldl scanStep
                      (initial_state, delayedStart (delayedStart no_intervals))
                      [Toggle false])).
Proof.
  apply (delayed_start_loses_interval 1 initial_state (delayedStart no_intervals)
           [Toggle false]).
  - apply list_elem_of_here.
  - intros j Hj. cbn in Hj. rewrite !elem_of_cons, elem_of_nil in Hj. cbn. lia.
Defined.

(** ** The observer *)

Lemma observerCallback_adds (wait : nat) (th : timerHeap) (cb : bool * bool * nat) :
  cb.1.1 = true -> cb.1.2 = true \/ 0 < cb.2 ->
  pendingTimers (observerCallback wait th cb) = pendingTimers th ++ [(nextTimer th, wait)] /\
  nextTimer (observerCallback wait th cb) = S (nextTimer th).
Proof.
  destruct cb as [[enabled hasNewText] mutations]. cbn [fst snd]. intros -> Hc.
  unfold observerCallback. cbn [negb].
  assert (hasNewText || (0 <? mutations)%nat = true) as ->.
  { destruct Hc as [->|Hm]; [done|]. apply orb_true_iff. right. by apply Nat.ltb_lt. }
  unfold debounce, callDebounced. cbn [cells pendingTimers nextTimer].
  rewrite lookup_app_r by done. rewrite Nat.sub_diag. done.
Qed.

(** X20. The observer does not debounce its scans.  Each of its callbacks
    asks [debounce] for a new function and calls that function once, so the
    timer that the call clears is never set: every callback with a mutation
    adds a timer and none is ever cleared.  Called twice, one function from
    [debounce] leaves one timer. *)
Theorem observer_scans_are_not_debounced (wait : nat) (cbs : list (bool * bool * nat))
    (th : timerHeap) :
  Forall (fun cb => cb.1.1 = true /\ (cb.1.2 = true \/ 0 < cb.2)) cbs ->
  Forall (fun p => p.1 < nextTimer th) (pendingTimers th) ->
  pendingTimers (foldl (observerCallback wait) th cbs)
  = pendingTimers th ++ map (fun k => (k, wait)) (seq (nextTimer th) (length cbs)) /\
  (let '(cell, th1) := debounce th in
   pendingTimers (callDebounced cell wait (callDebounced cell wait th1))
   = pendingTimers th ++ [(S (nextTimer th), wait)]).
Proof.
  intros Hcbs Hlt. split.
  - clear Hlt. revert th. induction Hcbs as [|cb cbs [H1 H2] _ IH]; intros th.
    + cbn. by rewrite app_nil_r.
    + cbn [foldl length seq map].
      destruct (observerCallback_adds wait th cb H1 H2) as [Hp Hn].
      rewrite IH, Hp, Hn, <- app_assoc. done.
  - unfold debounce, callDebounced. cbn [cells pendingTimers nextTimer].
    rewrite lookup_app_r by done. rewrite Nat.sub_diag. cbn [lookup list_lookup].
    rewrite list_lookup_insert_eq by (rewrite length_app; simpl; lia).
    rewrite filter_app. rewrite filter_all.
    + rewrite filter_cons_False by (intros H; by apply H). by rewrite filter_nil, app_nil_r.
    + eapply Forall_impl; [exact Hlt|]. simpl. intros p Hp. lia.
Qed.

Lemma observer_scans_are_not_debounced_witness :
  pendingTimers (foldl (observerCallback 500) no_timers
                   [(true, false, 1); (true, true, 3); (true, false, 2)])
  = [(1, 500); (2, 500); (3, 500)].
Proof.
  destruct (observer_scans_are_not_debounced 500
              [(true, false, 1); (true, true, 3); (true, false, 2)] no_timers)
    as [H _].
  - repeat constructor; cbn; lia.
  - constructor.
  - exact H.
Defined.

(** ** The history of filtered content *)

Lemma historyRead_eq (item : historyItem) (stored : list historyItem) :
  length stored <= 100 ->
  length (historyRead item stored) <= 100 /\
  map originalContent (historyRead item stored)
  = take 100 (originalContent item :: map originalContent stored).
Proof.
  intros Hlen. unfold historyRead. cbv zeta.
  destruct (Nat.ltb_spec 100 (length (item :: stored))) as [Hl|Hl].
  - split; [rewrite length_take; lia|]. rewrite <- firstn_map. done.
  - split; [done|]. cbn [map]. rewrite take_ge; [done|].
    cbn [length] in *. rewrite length_map. lia.
Qed.

Lemma savedInTurn_eq (history : list historyItem) (c : saveCall) :
  length history <= 100 ->
  exists history',
    savedInTurn (Storage history []) c = Storage history' [] /\
    length history' <= 100 /\
    map originalContent history'
    = if String.eqb (callContent c) "" then map originalContent history
      else take 100 (callContent c :: map originalContent history).
Proof.
  intros Hlen. unfold savedInTurn, saveFilterHistory.
  destruct (String.eqb (callContent c) "").
  - exists history. by repeat split.
  - cbv zeta. unfold answer. cbn.
    set (item := HistoryItem _ _ _ _ _ _ _).
    destruct (historyRead_eq item history Hlen) as [H1 H2].
    exists (historyRead item history). by repeat split.
Qed.

Lemma take_cons_take {A} (n : nat) (x : A) (l : list A) :
  take (S n) (x :: take (S n) l) = take (S n) (x :: l).
Proof. cbn [take]. f_equal. rewrite take_take. f_equal. lia. Qed.

Lemma take_app_take {A} (n : nat) (a b : list A) :
  take n (a ++ take n b) = take n (a ++ b).
Proof. rewrite !take_app, take_take. do 2 f_equal. lia. Qed.

Lemma savedInTurn_run (calls : list saveCall) (history : list historyItem) :
  length history <= 100 ->
  exists history',
    foldl savedInTurn (Storage history []) calls = Storage history' [] /\
    length history' <= 100 /\
    map originalContent history'
    = take 100 (savedContents calls ++ map originalContent history).
Proof.
  revert history. induction calls as [|c calls IH]; intros history Hlen; cbn [foldl].
  - exists history. split; [done|]. split; [done|]. unfold savedContents. cbn.
    rewrite take_ge; [done|]. rewrite length_map. lia.
  - destruct (savedInTurn_eq history c Hlen) as (h1 & -> & H1 & H2).
    destruct (IH h1 H1) as (h2 & -> & K1 & K2).
    exists h2. split; [done|]. split; [done|].
    rewrite K2, H2. unfold savedContents. cbn [map List.filter].
    destruct (String.eqb (callContent c) "") eqn:He; cbn [negb].
    + done.
    + cbn [rev]. rewrite <- app_assoc. cbn [app]. apply take_app_take.
Qed.

(** X21. The stored history and the order in which the store answers.
    When the read and the write of each call of [saveFilterHistory] are
    answered before the next call is made, the history never grows beyond
    100 entries and keeps the newest first: after any run of such calls on
    a history of 100 entries at most, no request waits and the contents
    stored are the non-empty contents of the calls, the last call first,
    then the contents that were stored before, cut after 100; a call with
    an empty content stores nothing.  When two calls with a content are
    made before the store answers, and the store answers in the order in
    which it is asked, both callbacks read the same list and the second
    write replaces the first: the entry of the first call is not in the
    history. *)
Theorem history_keeps_newest_hundred (calls : list saveCall) (history : list historyItem) :
  length history <= 100 ->
  let stored := foldl savedInTurn (Storage history []) calls in
  (waiting stored = [] /\
   length (filterHistory stored) <= 100 /\
   map originalContent (filterHistory stored)
   = take 100 (savedContents calls ++ map originalContent history)) /\
  (forall c1 c2 : saveCall,
     callContent c1 <> "" -> callContent c2 <> "" ->
     let late := savedTogether (Storage history []) c1 c2 in
     waiting late = [] /\
     map originalContent (filterHistory late)
     = take 100 (callContent c2 :: map originalContent history)).
Proof.
  intros Hlen stored. split.
  - subst stored. destruct (savedInTurn_run calls history Hlen) as (h' & -> & H1 & H2).
    by repeat split.
  - intros c1 c2 H1 H2 late. subst late. unfold savedTogether, saveFilterHistory.
    apply String.eqb_neq in H1, H2. rewrite H1, H2. cbv zeta. unfold answer. cbn.
    split; [done|].
    set (item := HistoryItem _ _ (callContent c2) _ _ _ _).
    exact (proj2 (historyRead_eq item history Hlen)).
Qed.

Lemma history_keeps_newest_hundred_witness :
  map originalContent
    (filterHistory
       (foldl savedInTurn (Storage [] [])
          [SaveCall "text" "first" None "t1" "http://example.com/" "example.com";
           SaveCall "text" "" None "t2" "http://example.com/" "example.com";
           SaveCall "image" "http://example.com/a.png" (Some ["Nudity"; ""]) "t3"
                    "http://example.com/" "example.com"]))
  = ["http://example.com/a.png"; "first"] /\
  map originalContent
    (filterHistory
       (savedTogether (Storage [] [])
          (SaveCall "text" "first" None "t1" "http://example.com/" "example.com")
          (SaveCall "text" "second" None "t1" "http://example.com/" "example.com")))
  = ["second"].
Proof.
  destruct (history_keeps_newest_hundred
              [SaveCall "text" "first" None "t1" "http://example.com/" "example.com";
               SaveCall "text" "" None "t2" "http://example.com/" "example.com";
               SaveCall "image" "http://example.com/a.png" (Some ["Nudity"; ""]) "t3"
                        "http://example.com/" "example.com"] [])
    as [(_ & _ & H) K]; [simpl; lia|].
  split; [exact H|].
  exact (proj2 (K (SaveCall "text" "first" None "t1" "http://example.com/" "example.com")
                  (SaveCall "text" "second" None "t1" "http://example.com/" "example.com")
                  ltac:(discriminate) ltac:(discriminate))).
Defined.

(** ** A filtered image and the restore sweep *)

Lemma find_absent (h : nat) (n : node) : h ∉ ids n -> find h n = None.
Proof.
  induction n as [s|i e ks IH] using node_induction; intros Hn; [done|].
  rewrite ids_Element in Hn. apply not_elem_of_cons in Hn as [Hi Hn].
  rewrite find_Element, bool_decide_eq_false_2 by done.
  induction ks as [|k ks IHks]; [done|].
  inversion IH as [|? ? Hk Hks]; subst.
  rewrite idsF_cons in Hn. apply not_elem_of_app in Hn as [Hn1 Hn2].
  by rewrite findF_cons, (Hk Hn1), (IHks Hks Hn2).
Qed.

Lemma findF_absent (h : nat) (l : list node) : h ∉ idsF l -> findF h l = None.
Proof.
  induction l as [|k l IH]; intros Hn; [done|].
  rewrite idsF_cons in Hn. apply not_elem_of_app in Hn as [Hn1 Hn2].
  by rewrite findF_cons, (find_absent h k Hn1), (IH Hn2).
Qed.

Lemma rwF_find_none (f : nat -> edata -> list node -> action) (h : nat) (l : list node) :
  (forall i e ks r,
     f i e ks = Replace r -> find h (Element i e ks) = None -> findF h r = None) ->
  findF h l = None -> findF h (rwF f l) = None.
Proof.
  intros Hf. induction l as [|k l IH]; intros Hn; [done|].
  rewrite findF_cons in Hn. destruct (find h k) eqn:Hk; [done|].
  by rewrite rwF_cons, findF_app, (rw_find_none f h Hf k Hk), (IH Hn).
Qed.

Lemma removeAll_find_none (p : nat -> edata -> bool) (h : nat) (l : list node) :
  findF h l = None -> findF h (removeAll p l) = None.
Proof.
  apply rwF_find_none. intros i e ks r Hr _. destruct (p i e); by inversion Hr.
Qed.

Lemma restoreImages_find_none (h : nat) (l : list node) :
  findF h l = None -> findF h (restoreImages l) = None.
Proof.
  apply rwF_find_none. intros i e ks r Hr Hn.
  destruct (contains "socioio-image-wrapper" e); [|done].
  destruct (firstBlurredChild ks) as [img|] eqn:Hfb; [|done].
  inversion Hr; subst. rewrite find_Element in Hn.
  destruct (bool_decide (i = h)); [done|].
  by rewrite findF_cons, (firstBlurredChild_find_none h ks img Hn Hfb).
Qed.

Lemma restoreText_find_none (h : nat) (l : list node) :
  findF h l = None -> findF h (restoreText l) = None.
Proof.
  apply rwF_find_none. intros i e ks r Hr Hn.
  destruct (contains "socioio-filtered-text" e); [|done].
  destruct (truthy (getAttribute "data-original-text" e)) as [t|]; [|done].
  inversion Hr; subst. rewrite find_Element in Hn.
  rewrite findF_cons, find_Element. destruct (bool_decide (i = h)); [done|].
  unfold setTextContent. by destruct (bool_decide (t = "")).
Qed.

Lemma no_overlay_next (l : list node) :
  selectF (contains "socioio-overlay") l = [] -> hasOverlayNext l = false.
Proof.
  unfold hasOverlayNext. induction l as [|k l IH]; intros Hn; [done|].
  apply selectF_nil_cons in Hn as [Hk Hl]. destruct k as [t|i e ks]; [by apply IH|].
  simpl. by apply select_nil_Element in Hk as [-> _].
Qed.

Section Wrapped.

Variables (n0 h : nat).

Let gone (l : list node) : Prop :=
  findF h (removeAll (fun _ e => isSocioNode e) l) = None.

Lemma wrapped_gone_kids (l : list node) :
  Forall (fun n => forall i e ks, n = Element i e ks -> i <> h -> NoDup (ids n) ->
                   select (contains "socioio-overlay") n = [] ->
                   gone [wrapImage n0 h n]) l ->
  NoDup (idsF l) -> selectF (contains "socioio-overlay") l = [] ->
  gone (wrapImageF n0 h l).
Proof.
  unfold gone. induction 1 as [|k l Hk _ IH]; intros Hnd Hov; [done|].
  rewrite idsF_cons in Hnd. apply NoDup_app in Hnd as (Hnd1 & Hdis & Hnd2).
  apply selectF_nil_cons in Hov as [Hov1 Hov2].
  rewrite wrapImageF_cons. destruct k as [t|j ej kj].
  - unfold removeAll. rewrite rwF_cons. cbn [rw app]. rewrite findF_cons. cbn [find].
    by apply IH.
  - destruct (bool_decide (j = h)) eqn:Hj.
    + apply bool_decide_eq_true in Hj as ->.
      rewrite (no_overlay_next l Hov2). unfold removeAll. rewrite rwF_cons.
      change (rw _ (wrapped n0 h ej kj)) with (@nil node). cbn [app].
      apply removeAll_find_none, findF_absent.
      apply Hdis. rewrite ids_Element. apply list_elem_of_here.
    + apply bool_decide_eq_false in Hj. unfold removeAll. rewrite rwF_cons, findF_app.
      pose proof (Hk j ej kj eq_refl Hj Hnd1 Hov1) as Hhead.
      unfold removeAll in Hhead. rewrite rwF_cons in Hhead. cbn [rwF] in Hhead.
      rewrite app_nil_r in Hhead. rewrite Hhead. by apply IH.
Qed.

Lemma wrapped_gone_node (n : node) (i : nat) (e : edata) (ks : list node) :
  n = Element i e ks -> i <> h -> NoDup (ids n) ->
  select (contains "socioio-overlay") n = [] -> gone [wrapImage n0 h n].
Proof.
  revert i e ks. induction n as [s|j a kids IH] using node_induction;
    intros i e ks Hn Hi Hnd Hov; [done|].
  inversion Hn; subst. unfold gone, removeAll.
  rewrite wrapImage_Element, rwF_cons, rw_Element. cbn [rwF]. rewrite app_nil_r.
  destruct (isSocioNode e); [done|].
  rewrite findF_cons, find_Element, bool_decide_eq_false_2 by done.
  rewrite ids_Element in Hnd. apply NoDup_cons in Hnd as [_ Hnd].
  apply select_nil_Element in Hov as [_ Hov].
  pose proof (wrapped_gone_kids ks IH Hnd Hov) as Hk. unfold gone, removeAll in Hk.
  by rewrite Hk.
Qed.

Lemma wrapped_gone (l : list node) :
  NoDup (idsF l) -> selectF (contains "socioio-overlay") l = [] ->
  gone (wrapImageF n0 h l).
Proof.
  apply wrapped_gone_kids. apply Forall_forall. intros n _ i e ks.
  apply wrapped_gone_node.
Qed.

Lemma wrapImage_keeps (n : node) :
  is_Some (find h n) -> is_Some (find h (wrapImage n0 h n)).
Proof.
  induction n as [s|i e ks IH] using node_induction; intros Hn; [done|].
  rewrite wrapImage_Element, find_Element. rewrite find_Element in Hn.
  destruct (bool_decide (i = h)); [done|].
  induction ks as [|k ks IHks]; [done|].
  inversion IH as [|? ? Hk Hks]; subst.
  rewrite wrapImageF_cons. rewrite findF_cons in Hn.
  destruct k as [t|j ej kj].
  - rewrite findF_cons. cbn [find] in *. by apply IHks.
  - destruct (bool_decide (j = h)) eqn:Hj.
    + apply bool_decide_eq_true in Hj as ->. rewrite findF_cons.
      destruct (hasOverlayNext ks).
      * rewrite find_Element, bool_decide_eq_true_2 by done. done.
      * unfold wrapped. rewrite find_Element.
        destruct (bool_decide (n0 = h)); [done|].
        rewrite findF_cons, find_Element, bool_decide_eq_true_2 by done. done.
    + rewrite findF_cons.
      destruct (find h (Element j ej kj)) as [x|] eqn:Hx.
      * destruct (Hk (mk_is_Some _ _ eq_refl)) as [y ->]. done.
      * destruct (find h (wrapImage n0 h (Element j ej kj))); [done|]. by apply IHks.
Qed.

Lemma wrapImageF_keeps (l : list node) :
  is_Some (findF h l) -> is_Some (findF h (wrapImageF n0 h l)).
Proof.
  induction l as [|k l IH]; intros Hn; [done|].
  rewrite wrapImageF_cons. rewrite findF_cons in Hn.
  destruct k as [t|j ej kj].
  - rewrite findF_cons. cbn [find] in *. by apply IH.
  - destruct (bool_decide (j = h)) eqn:Hj.
    + apply bool_decide_eq_true in Hj as ->. rewrite findF_cons.
      destruct (hasOverlayNext l).
      * rewrite find_Element, bool_decide_eq_true_2 by done. done.
      * unfold wrapped. rewrite find_Element.
        destruct (bool_decide (n0 = h)); [done|].
        rewrite findF_cons, find_Element, bool_decide_eq_true_2 by done. done.
    + rewrite findF_cons.
      destruct (find h (Element j ej kj)) as [x|] eqn:Hx.
      * destruct (wrapImage_keeps (Element j ej kj)) as [y Hy]; [by rewrite Hx|].
        by rewrite Hy.
      * destruct (find h (wrapImage n0 h (Element j ej kj))); [done|]. by apply IH.
Qed.

End Wrapped.

Lemma ids_modify (h : nat) (u : edata -> edata) (l : list node) :
  idsF (modify h (fun e ks => (u e, ks)) l) = idsF l.
Proof.
  unfold modify.
  set (F := fun (i : nat) (e : edata) (ks : list node) =>
              if bool_decide (i = h)
              then let '(e', ks') := (u e, ks) in Replace [Element i e' ks']
              else Descend e).
  assert (forall n, idsF (rw F n) = ids n) as Hn.
  { induction n as [s|i e ks IH] using node_induction; [done|].
    rewrite rw_Element. unfold F at 1. destruct (bool_decide (i = h)).
    - cbn. by rewrite app_nil_r.
    - rewrite idsF_cons, !ids_Element. cbn [idsF flat_map]. rewrite app_nil_r. f_equal.
      induction ks as [|k ks IHks]; [done|].
      inversion IH as [|? ? Hk Hks]; subst.
      rewrite rwF_cons, idsF_cons. unfold idsF at 1. rewrite flat_map_app.
      fold (idsF (rw F k)). fold (idsF (rwF F ks)). by rewrite Hk, (IHks Hks). }
  induction l as [|k l IH]; [done|].
  rewrite rwF_cons, idsF_cons. unfold idsF at 1. rewrite flat_map_app.
  fold (idsF (rw F k)). fold (idsF (rwF F l)). by rewrite Hn, IH.
Qed.

Lemma modify_keeps_class_none (c : string) (h : nat) (u : edata -> edata) (l : list node) :
  (forall e, contains c (u e) = contains c e) ->
  selectF (contains c) l = [] ->
  selectF (contains c) (modify h (fun e ks => (u e, ks)) l) = [].
Proof.
  intros Hu. apply rwF_select_nil. intros i e ks He Hks.
  destruct (bool_decide (i = h)); [|done]. cbn.
  rewrite app_nil_r. apply select_nil_Element. by rewrite Hu.
Qed.

(** X22. An image that a verdict has blurred is lost when the page is
    restored.  After an unsafe or questionable verdict the image stands in
    a wrapper with its overlay; [restoreOriginalContent] first removes every
    wrapper with what it holds, so the image is not in the page afterwards,
    and the loop that would take it out of its wrapper finds nothing. *)
Theorem blurred_image_lost_by_restore (h : nat) (r : imageReply) (d : document) :
  blurs r = true -> NoDup (idsF (body d)) ->
  selectF (contains "socioio-overlay") (body d) = [] ->
  is_Some (findF h (body d)) ->
  is_Some (findF h (body (processImage_resume h r d))) /\
  findF h (body (restoreOriginalContent (processImage_resume h r d))) = None.
Proof.
  intros Hr Hnd Hov Hin. unfold processImage_resume. fold (blurs r). rewrite Hr.
  unfold addOverlayToImage. cbn [body nextId].
  set (u := fun e : edata =>
              set_style (setProperty "border" "3px solid red"
                (style (set_style (setProperty "filter" "blur(20px)"
                   (style (removeAttribute "data-socioio-analyzing" e)))
                   (removeAttribute "data-socioio-analyzing" e))))
                (set_style (setProperty "filter" "blur(20px)"
                   (style (removeAttribute "data-socioio-analyzing" e)))
                   (removeAttribute "data-socioio-analyzing" e))).
  change (modify h _ (body d)) with (modify h (fun e ks => (u e, ks)) (body d)).
  split.
  - apply wrapImageF_keeps.
    destruct Hin as [x Hx]. destruct (findF_located h _ x Hx) as (e & ks & -> & Hl).
    pose proof (modify_located _ h (fun e ks => (u e, ks)) _ _ _ Hl) as Hl'.
    by rewrite (located_findF _ _ _ _ _ Hl').
  - unfold restoreOriginalContent. cbn [body].
    apply removeAll_find_none, restoreText_find_none, restoreImages_find_none.
    apply wrapped_gone.
    + by rewrite ids_modify.
    + by apply modify_keeps_class_none.
Qed.

Lemma blurred_image_lost_by_restore_witness :
  findF 4 (body (restoreOriginalContent
                   (processImage_resume 4 (ImgData (Some "questionable")) sample_page)))
  = None.
Proof.
  apply blurred_image_lost_by_restore.
  - reflexivity.
  - apply (bool_decide_unpack _). vm_compute. exact I.
  - reflexivity.
  - by eexists.
Defined.

(** ** The batches of the first sweep *)

Lemma runImageBatches_from {R : Resolver} (fuel : nat) (href : string) (images : list node)
    (startIndex : nat) (s : pstate) :
  length images - startIndex < fuel * 10 -> 0 < fuel ->
  runImageBatches fuel href images startIndex s
  = Some (let s' := foldl (queueNodeInitial href) s (drop startIndex images) in
          if Nat.ltb 0 (length (processingQueue s')) then processNextBatch s' else s').
Proof.
  revert startIndex s. induction fuel as [|fuel IH]; intros startIndex s Hlen Hfuel; [lia|].
  cbn [runImageBatches]. unfold processImageBatch.
  destruct (Nat.ltb_spec (Nat.min (startIndex + 10) (length images)) (length images))
    as [Hlt|Hge].
  - replace (Nat.min (startIndex + 10) (length images)) with (startIndex + 10) in * by lia.
    replace (startIndex + 10 - startIndex) with 10 by lia.
    rewrite IH by lia. cbv zeta. rewrite <- foldl_app.
    rewrite <- drop_drop, take_drop. done.
  - replace (Nat.min (startIndex + 10) (length images)) with (length images) by lia.
    rewrite take_ge by (rewrite length_drop; lia). done.
Qed.

(** X23. The batches of the first sweep, run one after the other, come to
    an end and leave out no image and take none twice: together they do
    what one pass of the loop over the whole list does, and
    [processNextBatch] is called once, after the last batch, when the queue
    is not empty. *)
Theorem image_batches_cover_every_image {R : Resolver} (href : string)
    (images : list node) (s : pstate) :
  runImageBatches (S (length images)) href images 0 s
  = Some (let s' := foldl (queueNodeInitial href) s images in
          if Nat.ltb 0 (length (processingQueue s')) then processNextBatch s' else s').
Proof. rewrite runImageBatches_from by lia. by rewrite drop_0. Qed.

(** ** [processElementsWithDelay] *)

Lemma checkBatch_arms (ty : itype) (elements : list nat) (i j x : nat) (s : pstate) :
  i <= j < i + 5 -> elements !! j = Some x -> seen ty x s = false ->
  ((j mod 5) * 50, x) ∈ checkBatch ty elements i s.
Proof.
  intros Hj Hx Hs. unfold checkBatch. apply list_elem_of_omap. exists j. split.
  - apply elem_of_seq. apply lookup_lt_Some in Hx. lia.
  - by rewrite Hx, Hs.
Qed.

Lemma checkBatch_skips (ty : itype) (elements : list nat) (i t x : nat) (s : pstate) :
  seen ty x s = true -> (t, x) ∉ checkBatch ty elements i s.
Proof.
  intros Hs Hin. unfold checkBatch in Hin.
  apply list_elem_of_omap in Hin as (j & _ & Hj).
  destruct (elements !! j) as [h|]; [|done].
  destruct (seen ty h s) eqn:Hh; [done|]. inversion Hj; subst. congruence.
Qed.

Lemma seen_pushElement (ty : itype) (x : nat) (d : document) (s : pstate) :
  seen ty x (pushElement ty x (d, s)).2 = true.
Proof.
  unfold pushElement, seen. destruct ty; cbn;
    apply bool_decide_eq_true_2, elem_of_union_l, elem_of_singleton; done.
Qed.

(** X24. [processElementsWithDelay] checks the processed set in one timer
    and pushes in another.  An element that two batches hold and that is not
    in the set passes the check of both when both run before a push: each
    arms a timer for it, and the two pushes leave two items for it in the
    queue.  After a push every check skips the element. *)
Theorem checks_before_push_queue_twice (ty : itype) (l1 l2 : list nat) (i1 i2 j1 j2 x : nat)
    (d : document) (s : pstate) :
  i1 <= j1 < i1 + 5 -> l1 !! j1 = Some x -> i2 <= j2 < i2 + 5 -> l2 !! j2 = Some x ->
  seen ty x s = false ->
  ((j1 mod 5) * 50, x) ∈ checkBatch ty l1 i1 s /\
  ((j2 mod 5) * 50, x) ∈ checkBatch ty l2 i2 s /\
  processingQueue (pushElement ty x (pushElement ty x (d, s))).2
  = processingQueue s ++ [Item ty x None; Item ty x None] /\
  (forall l i t, (t, x) ∉ checkBatch ty l i (pushElement ty x (d, s)).2).
Proof.
  intros H1 Hx1 H2 Hx2 Hs. split; [by apply checkBatch_arms|].
  split; [by apply checkBatch_arms|]. split.
  - unfold pushElement. destruct ty; cbn; by rewrite <- app_assoc.
  - intros l i t. apply checkBatch_skips, seen_pushElement.
Qed.

Lemma checks_before_push_queue_twice_witness :
  processingQueue (pushElement Text 1 (pushElement Text 1 (sample_page, initial_state))).2
  = [Item Text 1 None; Item Text 1 None].
Proof.
  destruct (checks_before_push_queue_twice Text [1] [7; 1; 2] 0 0 0 1 1
              sample_page initial_state) as (_ & _ & H & _);
    [lia|reflexivity|lia|reflexivity|reflexivity|exact H].
Defined.

(** ** A schedule that empties the queue *)

Lemma run_app (s : pstate) (tr1 tr2 : list event) :
  run s (tr1 ++ tr2)
  = match run s tr1 with
    | Some (s1, o1) =>
        match run s1 tr2 with
        | Some (s2, o2) => Some (s2, o1 ++ o2)
        | None => None
        end
    | None => None
    end.
Proof.
  revert s. induction tr1 as [|e tr1 IH]; intros s.
  - cbn [app run]. by destruct (run s tr2) as [[s2 o2]|].
  - cbn [app run]. destruct (step s e) as [[s1 o1]|]; [|done]. cbn.
    rewrite IH. destruct (run s1 tr1) as [[s2 o2]|]; [|done]. cbn.
    destruct (run s2 tr2) as [[s3 o3]|]; [|done]. cbn. by rewrite app_assoc.
Qed.

Lemma settle_run (ok : nat -> bool) (rest : list item) :
  forall (s : pstate) (done : list (item * promise)),
    fanins s = [done ++ map (fun it => (it, Pending)) rest] ->
    forallb (fun p => settled p.2) done = true ->
    exists B,
      run s (map (fun i => EvSettle 0 i (ok i)) (seq (length done) (length rest)))
      = Some (set_fanins [B] s, []) /\
      B.*1 = done.*1 ++ rest /\ forallb (fun p => settled p.2) B = true.
Proof.
  induction rest as [|it rest IH]; intros s done_ Hf Hd.
  - exists done_. cbn. rewrite app_nil_r in *. split; [|done].
    rewrite <- Hf. by destruct s.
  - cbn [length seq map run step]. rewrite Hf. cbn [lookup list_lookup mbind option_bind].
    unfold settle_in. cbn [map].
    rewrite lookup_app_r by done. rewrite Nat.sub_diag. cbn [lookup list_lookup].
    cbn [mbind option_bind].
    set (v := if ok (length done_) then Fulfilled else Rejected).
    assert (<[length done_ := (it, v)]>
              (done_ ++ (it, Pending) :: map (fun it0 => (it0, Pending)) rest)
            = (done_ ++ [(it, v)]) ++ map (fun it0 => (it0, Pending)) rest) as ->.
    { rewrite insert_app_r_alt by done. rewrite Nat.sub_diag. cbn.
      by rewrite <- app_assoc. }
    destruct (IH (set_fanins [(done_ ++ [(it, v)]) ++ map (fun it0 => (it0, Pending)) rest] s)
                 (done_ ++ [(it, v)])) as (B & Hrun & HB & Hs).
    { done. }
    { rewrite forallb_app, Hd. cbn. unfold v. by destruct (ok (length done_)). }
    rewrite length_app in Hrun. cbn [length] in Hrun.
    rewrite Nat.add_1_r in Hrun. cbn [insert list_insert].
    rewrite Hrun. cbn. exists B. split; [done|]. split; [|done].
    rewrite HB, fmap_app. cbn. by rewrite <- app_assoc.
Qed.

Lemma invoke_idle (br : bool) (q : list item) (tx im : gset nat) (ts : list nat) :
  q <> [] ->
  invoke (PState true br false q tx im [] ts)
  = (PState true br true (drop BATCH_SIZE q) tx im
            [map (fun it => (it, Pending)) (take BATCH_SIZE q)] ts,
     [ObsStart (take BATCH_SIZE q)]).
Proof.
  intros Hq. destruct q as [|it q]; [done|].
  unfold invoke, processNextBatch. cbn -[BATCH_SIZE take drop].
  rewrite bool_decide_eq_true_2 by done. by rewrite fst_pending.
Qed.

Lemma drainFrom_run (ok : nat -> bool) (fuel : nat) :
  forall (q : list item) (br : bool) (tx im : gset nat),
    q <> [] -> length q <= fuel ->
    exists log,
      run (PState true br true (drop BATCH_SIZE q) tx im
                  [map (fun it => (it, Pending)) (take BATCH_SIZE q)] [])
          (drainFrom fuel ok (length q))
      = Some (PState true br false [] tx im [] [], log) /\
      started log = drop BATCH_SIZE q.
Proof.
  induction fuel as [|fuel IH]; intros q br tx im Hq Hlen.
  - destruct q; [done|]. cbn in Hlen. lia.
  - cbn [drainFrom]. rewrite run_app.
    replace (Nat.min BATCH_SIZE (length q)) with (length (take BATCH_SIZE q))
      by (rewrite length_take; lia).
    destruct (settle_run ok (take BATCH_SIZE q)
                (PState true br true (drop BATCH_SIZE q) tx im
                        [map (fun it => (it, Pending)) (take BATCH_SIZE q)] []) [])
      as (B & Hrun & HB & Hs); [done|done|].
    unfold settleAll. cbn [length] in Hrun. unfold set_fanins in Hrun.
    cbn [isEnabled backendRunning currentlyProcessing processingQueue
         textElementsProcessed imageElementsProcessed fanins timers] in Hrun.
    rewrite Hrun. clear Hrun.
    cbn [run step fanins lookup list_lookup mbind option_bind].
    rewrite Hs. unfold batchComplete, set_timers, set_currentlyProcessing, set_fanins.
    cbn [delete list_delete isEnabled backendRunning currentlyProcessing processingQueue
         textElementsProcessed imageElementsProcessed fanins timers].
    destruct (Nat.leb_spec (length q) BATCH_SIZE) as [Hle|Hgt].
    + rewrite drop_ge by done. cbn. eexists. split; [reflexivity|done].
    + assert (drop BATCH_SIZE q <> []) as Hq'.
      { intros Hd. apply (f_equal length) in Hd. rewrite length_drop in Hd.
        cbn in Hd. lia. }
      assert ((0 <? length (drop BATCH_SIZE q))%nat = true) as ->.
      { apply Nat.ltb_lt. rewrite length_drop. lia. }
      cbn [run step timers lookup list_lookup app mbind option_bind].
      unfold set_timers.
      cbn [delete list_delete isEnabled backendRunning currentlyProcessing processingQueue
           textElementsProcessed imageElementsProcessed fanins timers].
      rewrite (invoke_idle br (drop BATCH_SIZE q) tx im [] Hq').
      destruct (IH (drop BATCH_SIZE q) br tx im Hq') as (log & Hrun & Hst).
      { rewrite length_drop. unfold BATCH_SIZE in *. lia. }
      rewrite length_drop in Hrun. rewrite Hrun. cbn.
      eexists. split; [reflexivity|].
      cbn. rewrite Hst. apply take_drop.
Qed.

(** X25. The queue drains.  From a state at rest with protection on, when
    every promise settles (fulfilled or rejected), each completion callback
    runs and each timer fires, the dispatcher comes back to rest with an
    empty queue, and the batches it has started are the items of the queue
    in their order. *)
Theorem queue_drains (ok : nat -> bool) (s : pstate) :
  isEnabled s = true -> currentlyProcessing s = false -> fanins s = [] -> timers s = [] ->
  exists log,
    run s (drain ok (length (processingQueue s))) = Some (set_processingQueue [] s, log) /\
    started log = processingQueue s.
Proof.
  destruct s as [en br cp q tx im fs ts]. cbn. intros -> -> -> ->.
  unfold drain. destruct (Nat.eqb_spec (length q) 0) as [Hz|Hnz].
  - destruct q; [|done]. cbn. by eexists.
  - assert (q <> []) as Hq by (intros ->; done).
    cbn [run step]. rewrite (invoke_idle br q tx im [] Hq).
    destruct (drainFrom_run ok (length q) q br tx im Hq) as (log & Hrun & Hst); [done|].
    cbn [mbind option_bind]. rewrite Hrun. cbn [mbind option_bind].
    eexists. split; [reflexivity|].
    cbn [app started]. rewrite Hst. apply take_drop.
Qed.

Lemma queue_drains_witness :
  exists log,
    run idle_state (drain (fun i => Nat.even i) (length (processingQueue idle_state)))
    = Some (set_processingQueue [] idle_state, log) /\
    started log = processingQueue idle_state.
Proof. apply queue_drains; reflexivity. Defined.

(** ** Processing a kept element again *)

Lemma setAttribute_twice (k v : string) (e : edata) :
  setAttribute k v (setAttribute k v e) = setAttribute k v e.
Proof.
  unfold setAttribute, set_attributes.
  cbn [tagName classList attributes style naturalWidth naturalHeight width height].
  by rewrite insert_insert_eq.
Qed.

(** X26. Processing a kept element again changes nothing.  When
    [processTextElement] keeps an element (the service allows the text, or
    answers with a verdict that is not applied, or fails on a text without
    a listed word), a second call with the same service gives the same
    result and leaves the page as the first call left it. *)
Theorem kept_element_is_processed_alike (near : nat -> nat -> bool) (s : pstate)
    (href : string) (h : nat) (service : request -> reply) (d : document) :
  (processTextElement near s href h service d).2 = kept ->
  processTextElement near s href h service (processTextElement near s href h service d).1
  = processTextElement near s href h service d.
Proof.
  unfold processTextElement, processTextElement_start.
  destruct (findF h (body d)) as [n|] eqn:Hf; [|done].
  destruct (bool_decide (Js.trim (textContent n) = "")) eqn:He; [done|].
  destruct (String.length (Js.trim (textContent n)) <? 5)%nat eqn:Hl; [done|].
  destruct (findF_located h _ n Hf) as (e & ks & -> & Hloc).
  set (text := Js.trim (textContent (Element h e ks))) in *.
  set (d1 := Document (modify h (fun e ks => (setAttribute "data-original-text" text e, ks))
                         (body d)) (nextId d)).
  set (req := Request (API_BASE_URL +:+ "/analyze_text") text href).
  assert (findF h (body d1)
          = Some (Element h (setAttribute "data-original-text" text e) ks)) as Hf1.
  { apply (located_findF (fun _ => True)).
    apply (modify_located _ h (fun e ks => (setAttribute "data-original-text" text e, ks))
             _ _ _ Hloc). }
  assert (modify h (fun e ks => (setAttribute "data-original-text" text e, ks)) (body d1)
          = body d1) as Hsame.
  { unfold d1. cbn [body]. apply modify_modify. intros a. by rewrite setAttribute_twice. }
  assert (forall o, processTextElement_resume near s h text (service req) d1 = (d1, o) ->
            match findF h (body d1) with
            | Some n0 =>
                if bool_decide (Js.trim (textContent n0) = "")
                then (d1, inl (skipped "no_text"))
                else if (String.length (Js.trim (textContent n0)) <? 5)%nat
                     then (d1, inl (skipped "text_too_short"))
                     else (Document
                             (modify h (fun e ks =>
                                (setAttribute "data-original-text"
                                   (Js.trim (textContent n0)) e, ks)) (body d1))
                             (nextId d1),
                           inr (Js.trim (textContent n0),
                                Request (API_BASE_URL +:+ "/analyze_text")
                                        (Js.trim (textContent n0)) href))
            | None => (d1, inl (skipped "element_not_connected"))
            end = (d1, inr (text, req))) as Hagain.
  { intros o _. rewrite Hf1.
    change (Js.trim (textContent (Element h (setAttribute "data-original-text" text e) ks)))
      with text.
    rewrite He, Hl, Hsame. by destruct d1. }
  intros Hk.
  assert (processTextElement_resume near s h text (service req) d1 = (d1, kept)) as Hres.
  { revert Hk. unfold processTextElement_resume.
    destruct (service req) as [|action reasons].
    - destruct (isProfanity (Js.toLowerCase text) || isHateSpeech (Js.toLowerCase text));
        [done|done].
    - destruct (bool_decide (action <> Some "allow")); [|done].
      destruct (bool_decide (action = Some "remove")); done. }
  rewrite Hres. cbn [fst]. rewrite (Hagain kept Hres). exact Hres.
Qed.

Lemma kept_element_is_processed_alike_witness :
  processTextElement nowhere initial_state sample_href 2 (fun _ => Data (Some "allow") [])
    (processTextElement nowhere initial_state sample_href 2
       (fun _ => Data (Some "allow") []) sample_page).1
  = processTextElement nowhere initial_state sample_href 2
      (fun _ => Data (Some "allow") []) sample_page.
Proof. apply kept_element_is_processed_alike. reflexivity. Defined.

(** ** An image that has been analysed *)

Lemma wrapImage_unfound (n0 h : nat) (n : node) : find h n = None -> wrapImage n0 h n = n.
Proof.
  induction n as [s|i e ks IH] using node_induction; intros Hn; [done|].
  rewrite wrapImage_Element. f_equal. rewrite find_Element in Hn.
  destruct (bool_decide (i = h)); [done|].
  induction ks as [|k ks IHks]; [done|].
  inversion IH as [|? ? Hk Hks]; subst.
  rewrite findF_cons in Hn. destruct (find h k) eqn:Hfk; [done|].
  rewrite wrapImageF_cons. destruct k as [t|j ej kj]; [by rewrite (IHks Hks Hn)|].
  pose proof Hfk as Hfk2. rewrite find_Element in Hfk2.
  destruct (bool_decide (j = h)) eqn:Hj; [done|].
  rewrite (Hk eq_refl), (IHks Hks Hn). done.
Qed.

Section WrappedData.

Variables (n0 h : nat) (P : edata -> Prop).
Hypothesis fresh : n0 <> h.
Hypothesis wrapped_P :
  forall e, P e -> P (set_style (setProperty "filter" "blur(20px)" (style e))
                                (classAdd "socioio-filtered-image" e)).

Let holds (o : option node) : Prop := exists e, nodeData o = Some e /\ P e.

Lemma wrapImageF_data_kids (l : list node) :
  Forall (fun n => holds (find h n) -> holds (find h (wrapImage n0 h n))) l ->
  holds (findF h l) -> holds (findF h (wrapImageF n0 h l)).
Proof.
  unfold holds. induction 1 as [|k l Hk _ IH]; intros Hl; [done|].
  rewrite wrapImageF_cons. rewrite findF_cons in Hl.
  destruct k as [t|j ej kj].
  - rewrite findF_cons. cbn [find] in *. by apply IH.
  - destruct (bool_decide (j = h)) eqn:Hj.
    + apply bool_decide_eq_true in Hj as ->.
      rewrite find_Element, bool_decide_eq_true_2 in Hl by done.
      destruct Hl as (e & He & HP). cbn in He. inversion He; subst.
      rewrite findF_cons. destruct (hasOverlayNext l).
      * rewrite find_Element, bool_decide_eq_true_2 by done. by exists e.
      * unfold wrapped. rewrite find_Element, bool_decide_eq_false_2 by done.
        rewrite findF_cons, find_Element, bool_decide_eq_true_2 by done.
        eexists. split; [reflexivity|]. by apply wrapped_P.
    + rewrite findF_cons. destruct (find h (Element j ej kj)) as [x|] eqn:Hx.
      * destruct (Hk Hl) as (e' & He' & HP').
        destruct (find h (wrapImage n0 h (Element j ej kj))); [|done]. by exists e'.
      * rewrite (wrapImage_unfound n0 h _ Hx), Hx. by apply IH.
Qed.

Lemma wrapImage_data (n : node) :
  holds (find h n) -> holds (find h (wrapImage n0 h n)).
Proof.
  induction n as [s|i e ks IH] using node_induction; intros Hn; [done|].
  rewrite wrapImage_Element, find_Element. rewrite find_Element in Hn.
  destruct (bool_decide (i = h)).
  - destruct Hn as (a & Ha & HP). cbn in Ha. inversion Ha; subst. by exists a.
  - by apply wrapImageF_data_kids.
Qed.

Lemma wrapImageF_data (l : list node) :
  holds (findF h l) -> holds (findF h (wrapImageF n0 h l)).
Proof.
  apply wrapImageF_data_kids. apply Forall_forall. intros n _. apply wrapImage_data.
Qed.

End WrappedData.

Lemma marked_found (h : nat) (l : list node) :
  (exists e, nodeData (findF h l) = Some e /\ contains EXCLUSION_CLASS e = true) ->
  exists i e ks, findF h l = Some (Element i e ks) /\ contains EXCLUSION_CLASS e = true.
Proof.
  intros (e & He & Hc). destruct (findF h l) as [[t|i a ks]|]; try done.
  cbn in He. inversion He; subst. by exists i, e, ks.
Qed.

(** X27. An image is analysed once.  When [processImage] has sent its
    request for an image, then after the verdict, whatever it says, the
    image carries the class of processed elements: [processImage] returns at
    once for it, [addImagesToProcessingQueue] passes over it and
    [processNewImage] does nothing, whatever the flags and the sets of
    processed elements hold then, so that emptying these sets does not
    bring the image back to analysis. *)
Theorem analysed_image_is_not_analysed_again {R : Resolver} (href href' : string) (h : nat)
    (d : document) (s s' : pstate) (q : request) (r : imageReply) :
  (processImage_start href h d s).2 = Some q -> h <> nextId d ->
  let d2 := processImage_resume h r (processImage_start href h d s).1 in
  processImage_start href' h d2 s' = (d2, None) /\
  (exists e2, elementData h (body d2) = Some e2 /\ passedOver e2 = true) /\
  processNewImage h d2 s' = (d2, s', false).
Proof.
  intros Hq Hfresh d2.
  assert (exists e, nodeData (findF h (body d2)) = Some e
                    /\ contains EXCLUSION_CLASS e = true) as Hd2.
  { subst d2. revert Hq. unfold processImage_start.
    destruct (findF h (body d)) as [[t|i e ks]|] eqn:Hf; try done.
    destruct (contains EXCLUSION_CLASS e); [done|].
    destruct ((width e <? 100)%nat || (height e <? 100)%nat); [done|].
    destruct (backendRunning s); [|done]. intros _. cbn [fst].
    assert (elementData h (modify h (fun e ks => (markAnalyzing e, ks)) (body d))
            = Some (markAnalyzing e)) as H1.
    { rewrite (elementData_modify h h markAnalyzing). unfold elementData. rewrite Hf.
      cbn. by rewrite bool_decide_eq_true_2. }
    unfold processImage_resume. fold (blurs r). destruct (blurs r).
    - unfold addOverlayToImage. cbn [body nextId].
      apply (wrapImageF_data (nextId d) h (fun e => contains EXCLUSION_CLASS e = true));
        [congruence| |].
      + intros a Ha.
        change (contains EXCLUSION_CLASS (classAdd "socioio-filtered-image" a) = true).
        by rewrite contains_classAdd, Ha.
      + set (u := fun a : edata =>
                    set_style (setProperty "border" "3px solid red"
                      (style (set_style (setProperty "filter" "blur(20px)"
                         (style (removeAttribute "data-socioio-analyzing" a)))
                         (removeAttribute "data-socioio-analyzing" a))))
                      (set_style (setProperty "filter" "blur(20px)"
                         (style (removeAttribute "data-socioio-analyzing" a)))
                         (removeAttribute "data-socioio-analyzing" a))).
        change (modify h _ (modify h _ (body d)))
          with (modify h (fun e ks => (u e, ks))
                  (modify h (fun e ks => (markAnalyzing e, ks)) (body d))).
        fold (elementData h (modify h (fun e ks => (u e, ks))
                (modify h (fun e ks => (markAnalyzing e, ks)) (body d)))).
        rewrite (elementData_modify h h u), H1. cbn.
        rewrite bool_decide_eq_true_2 by done. eexists. split; [reflexivity|].
        change (contains EXCLUSION_CLASS (markAnalyzing e) = true).
        by rewrite contains_markAnalyzing, orb_true_r.
    - cbn [body].
      set (u := fun a : edata => resetStyle (removeAttribute "data-socioio-analyzing" a)).
      change (modify h _ (modify h _ (body d)))
        with (modify h (fun e ks => (u e, ks))
                (modify h (fun e ks => (markAnalyzing e, ks)) (body d))).
      fold (elementData h (modify h (fun e ks => (u e, ks))
              (modify h (fun e ks => (markAnalyzing e, ks)) (body d)))).
      rewrite (elementData_modify h h u), H1. cbn.
      rewrite bool_decide_eq_true_2 by done. eexists. split; [reflexivity|].
      change (contains EXCLUSION_CLASS (markAnalyzing e) = true).
      by rewrite contains_markAnalyzing, orb_true_r. }
  clearbody d2. pose proof Hd2 as (e2 & He2 & Hc2).
  destruct (marked_found h _ Hd2) as (i & e & ks & Hf & Hc).
  split; [|split].
  - unfold processImage_start. by rewrite Hf, Hc.
  - exists e2. split; [exact He2|]. unfold passedOver. rewrite Hc2. by rewrite orb_true_r.
  - unfold processNewImage. destruct (negb (isEnabled s')); [done|].
    by rewrite Hf, Hc.
Qed.

Lemma analysed_image_is_not_analysed_again_witness :
  processImage_start (R:=asWritten) sample_href 4
    (processImage_resume 4 (ImgData (Some "safe"))
       (processImage_start (R:=asWritten) sample_href 4 sample_page initial_state).1)
    initial_state
  = (processImage_resume 4 (ImgData (Some "safe"))
       (processImage_start (R:=asWritten) sample_href 4 sample_page initial_state).1, None).
Proof.
  destruct (analysed_image_is_not_analysed_again (R:=asWritten) sample_href sample_href 4
              sample_page
              initial_state initial_state
              (Request (API_BASE_URL +:+ "/analyze_image") "http://example.com/photo.jpg"
                 sample_href) (ImgData (Some "safe"))) as (H & _); [reflexivity|done|].
  exact H.
Defined.
